(** * zerox (node-zerox/src/utils.ts): orientation selection and markdown flattening

    A shallow embedding of the two algorithmic parts of [utils.ts]:

    - [getTextFromImage] and [determineOptimalRotation], the OCR-confidence
      based orientation selector;
    - [markdownToJson] with [processRootNode], [processNode],
      [processListItem] and the [nodeProcessors] table, which flatten a
      parsed markdown tree (mdast) into a sequence of [ProcessedNode]s;

    and of its smaller functions: [validateLLMParams], [formatMarkdown],
    [isValidUrl] and [downloadFile] (with what it does to the file system
    and the network as a trace of events), [camelToSnakeCase] and
    [convertKeysToSnakeCase].

    JavaScript values are modelled as far as the code inspects them:
    [undefined] is [None] (or [VUndefined] inside a node value), the [||]
    operator and the [+=] on node values follow the language's coercions,
    and a [TypeError] raised by reading a property of [undefined] is an
    explicit outcome.  Property lookups ([in], indexing an enum) are
    lookups of own properties in the flattening model: it is the code on
    trees whose kinds name no member of [Object.prototype], as the mdast
    node types do; where a property depends on it, this is its hypothesis
    [ownKinds], and the lookups with the prototype chain are
    [inNodeProcessors] and [getProperty].  The random
    identifier source [nanoid] is a stream: the k-th call made during a run
    returns [nanoid k].  Confidences are integers; the code only compares
    them. *)

From Stdlib Require Import ZArith Lia Ascii.
From stdpp Require Import base list strings pretty gmap.

#[local] Set Warnings "-register-all".

Local Open Scope string_scope.
Local Open Scope list_scope.
Local Open Scope Z_scope.

(** ** Orientation selection *)

(** How a call ends: with a value, or abruptly with a thrown error (for an
    [async] function: a resolved or a rejected promise). *)
Inductive Completion (A : Type) : Type :=
| Normal (a : A)
| Abrupt (error : string).
Arguments Normal {A}.
Arguments Abrupt {A}.

(** The two console messages of the orientation code. *)
Inductive ConsoleLine : Type :=
| ErrorDuringOCR (error : string)
| ReorientingImage (rotation confidence : Z).

(** A call of the orientation code: the console lines it wrote and how it
    ended. *)
Definition Eff (A : Type) : Type := list ConsoleLine * Completion A.

Definition pure {A} (a : A) : Eff A := ([], Normal a).
Definition console (line : ConsoleLine) : Eff unit := ([line], Normal tt).
Definition andThen {A B} (m : Eff A) (f : A -> Eff B) : Eff B :=
  match m with
  | (out, Normal a) => let '(out', c) := f a in (out ++ out', c)
  | (out, Abrupt e) => (out, Abrupt e)
  end.

(** [try { body } catch (error) { handler }] *)
Definition try_catch {A} (body : Eff A) (handler : string -> Eff A) : Eff A :=
  match body with
  | (out, Normal a) => (out, Normal a)
  | (out, Abrupt e) => let '(out', c) := handler e in (out ++ out', c)
  end.

Notation "'do*' x ':=' m 'in' f" := (andThen m (fun x => f))
  (at level 10, x name, m at level 100, f at level 200).

(** [sharp]'s image metadata; both dimensions are optional. *)
Record Metadata : Type := mkMetadata { width : option Z; height : option Z }.

(** The argument of [image.extract]; [left] is [None] when it evaluates to
    [NaN]. *)
Record Region : Type :=
  mkRegion { left : option Z; top : Z; region_width : Z; region_height : Z }.

Record RotationTrial : Type :=
  mkRotationTrial { rotation : Z; confidence : Z }.

Definition MIN_ROTATION_CONFIDENCE : Z := 60.

(** [arr.reduce(f)] without an initial value: the first element starts the
    accumulator, and an empty array is a [TypeError]. *)
Definition reduce {A} (f : A -> A -> A) (arr : list A) : Completion A :=
  match arr with
  | [] => Abrupt "TypeError: Reduce of empty array with no initial value"
  | x :: xs => Normal (fold_left f xs x)
  end.

Section Orientation.

(** The image library and the recognizer are external: an encoded image
    [Buffer], a [sharp] pipeline [Image], and the calls the code makes on
    them, each of which may fail. *)
Variables Buffer Image : Type.
Variable sharp_metadata : Buffer -> Completion Metadata.
Variable sharp_extract : Buffer -> Region -> Completion Buffer.
Variable Tesseract_recognize : Buffer -> Completion Z.
Variable sharp_rotate : Image -> Z -> Completion Buffer.

Definition await {A} (c : Completion A) : Eff A := ([], c).

(** The crop computed from the metadata: a column 150px wide in the
    center, [Math.floor] of the halved margin being [Z.div]. *)
Definition cropRegion (metadata : Metadata) : Region :=
  let cropWidth := 150 in
  let cropHeight := match height metadata with Some h => h | None => 0 end in
  let left :=
    match width metadata with
    | Some w => Some (Z.max 0 ((w - cropWidth) / 2))
    | None => None
    end in
  let top := 0 in
  mkRegion left top cropWidth cropHeight.

Definition getTextFromImage (buffer : Buffer) : Eff Z :=
  try_catch
    (do* metadata := await (sharp_metadata buffer) in
     do* croppedBuffer :=
       await (sharp_extract buffer (cropRegion metadata)) in
     do* confidence := await (Tesseract_recognize croppedBuffer) in
     pure confidence)
    (fun error =>
       do* _ := console (ErrorDuringOCR error) in
       pure 0).

Definition rotations : list Z := [0; 90; 180; 270].

(** The callback of [rotations.map]. *)
Definition trial (image : Image) (rotation : Z) : Eff RotationTrial :=
  do* rotatedImageBuffer := await (sharp_rotate image rotation) in
  do* confidence := getTextFromImage rotatedImageBuffer in
  pure (mkRotationTrial rotation confidence).

(** [Promise.all(arr.map(f))]: the results in the order of [arr].  The
    calls of [f] start together, and what they write to the console comes
    in the order in which they get there; here the calls are listed one
    after the other, in the order of [arr], and a call that fails ends the
    list.  So of a rejected [Promise.all] the model gives the rejection,
    not the console; and of a resolved one the lines, not their order. *)
Fixpoint all {A B} (f : A -> Eff B) (arr : list A) : Eff (list B) :=
  match arr with
  | [] => pure []
  | x :: xs => do* y := f x in do* ys := all f xs in pure (y :: ys)
  end.

(** The reducer of [results.reduce]. *)
Definition better (best current : RotationTrial) : RotationTrial :=
  if confidence current >? confidence best then current else best.

Definition determineOptimalRotation (image : Image) : Eff Z :=
  do* results := all (trial image) rotations in
  do* bestResult := await (reduce better results) in
  if (confidence bestResult >=? MIN_ROTATION_CONFIDENCE)
     && negb (rotation bestResult =? 0)
  then
    do* _ := console (ReorientingImage (rotation bestResult)
                                       (confidence bestResult)) in
    pure (rotation bestResult)
  else pure 0.

(** The recognition step of [getTextFromImage] fails on [buffer]: reading
    the metadata, cropping or recognizing ends abruptly. *)
Definition ocrFails (buffer : Buffer) : Prop :=
  (exists e, sharp_metadata buffer = Abrupt e)
  \/ (exists metadata e,
        sharp_metadata buffer = Normal metadata
        /\ sharp_extract buffer (cropRegion metadata) = Abrupt e)
  \/ (exists metadata croppedBuffer e,
        sharp_metadata buffer = Normal metadata
        /\ sharp_extract buffer (cropRegion metadata) = Normal croppedBuffer
        /\ Tesseract_recognize croppedBuffer = Abrupt e).

(** The four trials on [image] end with the confidences [c]. *)
Definition scores (image : Image) (c : Z -> Z) : Prop :=
  forall r, r ∈ rotations ->
    snd (trial image r) = Normal (mkRotationTrial r (c r)).

End Orientation.

(** ** The parsed markdown tree (input) *)

(** A node of the tree produced by the markdown parser.  Every field but
    [type] may be missing on a given node, as in mdast: literals carry a
    [value], parents carry [children], headings carry a [depth]. *)
Module Md.
Inductive MdNode : Type :=
  mkMdNode {
    type : string;
    depth : option Z;
    value : option string;
    children : option (list MdNode)
  }.
End Md.
Export Md(MdNode, mkMdNode).

(** Modelled from the spec: the enum [MdNodeType] of [types.ts], which is
    imported by [utils.ts] but is not part of the sources.  Its members are
    the ones [utils.ts] names; each member's value is the mdast node type of
    the same name, the string the parser stores in [node.type]. *)
Module MdNodeType.
Definition break_ : string := "break".
Definition code : string := "code".
Definition definition : string := "definition".
Definition heading : string := "heading".
Definition html : string := "html".
Definition image : string := "image".
Definition imageReference : string := "imageReference".
Definition inlineCode : string := "inlineCode".
Definition list : string := "list".
Definition listItem : string := "listItem".
Definition text : string := "text".
Definition thematicBreak : string := "thematicBreak".
End MdNodeType.

(** ** Processed nodes (output) and the values they carry *)

Module PN.
Record ProcessedNodeOf (V : Type) : Type :=
  mkProcessedNode {
    id : string;
    page : option Z;
    parentId : option string;
    type : option string;
    value : V
  }.
Global Arguments mkProcessedNode {V}.
Global Arguments id {V}.
Global Arguments page {V}.
Global Arguments parentId {V}.
Global Arguments type {V}.
Global Arguments value {V}.
End PN.

(** What the [value] field of a node can hold at run time: a string, an
    array (a list node's item sequence), a node object (a list item's merged
    node), [undefined], or the number [NaN] that [undefined + undefined]
    evaluates to. *)
Inductive JsValue : Type :=
| VUndefined
| VString (s : string)
| VNaN
| VArray (items : list JsValue)
| VObject (node : PN.ProcessedNodeOf JsValue).

Abbreviation ProcessedNode := (PN.ProcessedNodeOf JsValue).

(** The entries of the heading stack [parentIdManager]. *)
Record ParentId : Type := mkParentId { pid_id : string; pid_depth : option Z }.

(** The object returned by [processNode]. *)
Record NodeResult : Type :=
  mkNodeResult { mainNode : ProcessedNode; siblings : list ProcessedNode }.

(** ** JavaScript coercions used by the flattening code *)

(** [String(v)], with [Array.prototype.join] turning [undefined] elements
    into the empty string. *)
Fixpoint toString (v : JsValue) : string :=
  match v with
  | VUndefined => "undefined"
  | VString s => s
  | VNaN => "NaN"
  | VArray items =>
      String.concat ","
        (map (fun e => match e with VUndefined => "" | _ => toString e end) items)
  | VObject _ => "[object Object]"
  end.

(** [arr.join(sep)] *)
Definition join (sep : string) (arr : list JsValue) : string :=
  String.concat sep
    (map (fun e => match e with VUndefined => "" | _ => toString e end) arr).

(** [ToPrimitive]: arrays and objects become strings. *)
Definition toPrimitive (v : JsValue) : JsValue :=
  match v with
  | VArray _ | VObject _ => VString (toString v)
  | _ => v
  end.

(** The binary [+]: string concatenation as soon as one primitive operand
    is a string, numeric addition otherwise (and then [NaN], since no
    operand here is a finite number). *)
Definition js_add (a b : JsValue) : JsValue :=
  match toPrimitive a, toPrimitive b with
  | VString s, pb => VString (s ++ toString pb)
  | pa, VString s => VString (toString pa ++ s)
  | _, _ => VNaN
  end.

(** [a || b] on an optional string: the empty string and [undefined] are
    falsy. *)
Definition js_or (a b : option string) : option string :=
  match a with
  | Some s => if String.eqb s "" then b else a
  | None => b
  end.

(** [x || 0] on an optional number. *)
Definition or0 (x : option Z) : Z :=
  match x with Some d => d | None => 0 end.

(** [a <= b] and [a > b] where [a] may be [undefined]: a comparison with
    [undefined] is false. *)
Definition js_le (a : option Z) (b : Z) : bool :=
  match a with Some x => (x <=? b)%Z | None => false end.
Definition js_gt (a : option Z) (b : Z) : bool :=
  match a with Some x => (x >? b)%Z | None => false end.

(** ** Computations that draw identifiers and may throw *)

Inductive Outcome (A : Type) : Type :=
| Returns (a : A) (drawn : nat)
| Throws (error : string).
Arguments Returns {A}.
Arguments Throws {A}.

(** A computation takes the number of identifiers drawn so far. *)
Definition M (A : Type) : Type := nat -> Outcome A.

Definition ret {A} (a : A) : M A := fun k => Returns a k.
Definition throw {A} (e : string) : M A := fun _ => Throws e.
Definition bind {A B} (m : M A) (f : A -> M B) : M B :=
  fun k => match m k with
           | Returns a k' => f a k'
           | Throws e => Throws e
           end.

Notation "'let*' x ':=' m 'in' f" := (bind m (fun x => f))
  (at level 10, x name, m at level 100, f at level 200).

(** [arr.map(f)], left to right. *)
Definition mapM {A B} (f : A -> M B) : list A -> M (list B) :=
  fix go (l : list A) : M (list B) :=
    match l with
    | [] => ret []
    | x :: xs => let* y := f x in let* ys := go xs in ret (y :: ys)
    end.

(** [arr.forEach] threading the variables its callback assigns. *)
Definition forEachM {A S} (f : S -> A -> M S) : list A -> S -> M S :=
  fix go (l : list A) (s : S) : M S :=
    match l with
    | [] => ret s
    | x :: xs => let* s' := f s x in go xs s'
    end.

(** Calling a method of [node.children]: a [TypeError] when the property is
    missing, the call [k] on the array otherwise. *)
Definition with_children {A} (node : MdNode) (k : list MdNode -> M A) : M A :=
  match Md.children node with
  | Some cs => k cs
  | None => throw "TypeError: Cannot read properties of undefined"
  end.

Definition fromOption (v : option string) : JsValue :=
  match v with Some s => VString s | None => VUndefined end.

Section Flatten.

(** The identifier source: the k-th call of a run returns [nanoid k]. *)
Variable nanoid : nat -> string.

(** The enum [ConvertedNodeType] of [types.ts] (not part of the sources),
    as the table of its members: name and value. *)
Variable ConvertedNodeType : list (string * string).

Definition draw : M string := fun k => Returns (nanoid k) (S k).

(** [ConvertedNodeType[key]] for a [key] that names no member of
    [Object.prototype]: the lookup among the own members of the enum.  (The
    lookup with the prototype chain is [getProperty], below.) *)
Definition ConvertedNodeType_at (key : string) : option string :=
  snd <$> find (fun m => String.eqb (fst m) key) ConvertedNodeType.

(** [ConvertedNodeType.text] *)
Definition ConvertedNodeType_text : option string :=
  ConvertedNodeType_at "text".

Definition literals : list string :=
  [MdNodeType.code; MdNodeType.html; MdNodeType.inlineCode; MdNodeType.text].

Definition ignoreNodeTypes : list string :=
  [MdNodeType.break_; MdNodeType.definition; MdNodeType.image;
   MdNodeType.imageReference; MdNodeType.thematicBreak].

Definition has (set : list string) (x : string) : bool :=
  existsb (String.eqb x) set.

(** [result.filter(Boolean).map(r => r.mainNode.value)] *)
Definition gatherValue (result : list (option NodeResult)) : list JsValue :=
  map (fun r => PN.value (mainNode r)) (omap (fun r => r) result).

(** [result.reduce((acc, r) => Boolean(r) ? acc.concat(r.siblings) : acc, [])] *)
Definition gatherSiblings (result : list (option NodeResult)) : list ProcessedNode :=
  fold_left
    (fun acc r => match r with Some r => acc ++ siblings r | None => acc end)
    result [].

(** The loop body of [processListItem]; [st] holds [newNode] and
    [siblings]. *)
Definition processListItem_step
    (processNode : MdNode -> Z -> option string -> M (option NodeResult))
    (page : Z)
    (st : option ProcessedNode * list ProcessedNode) (childNode : MdNode)
  : M (option ProcessedNode * list ProcessedNode) :=
  let '(newNode, sibs) := st in
  if negb (String.eqb (Md.type childNode) MdNodeType.list) then
    let* processedNode := processNode childNode page None in
    match processedNode with
    | None => ret (newNode, sibs)
    | Some processedNode =>
        let newNode' :=
          match newNode with
          | Some n =>
              PN.mkProcessedNode (PN.id n) (PN.page n) (PN.parentId n) (PN.type n)
                (js_add (PN.value n) (PN.value (mainNode processedNode)))
          | None => mainNode processedNode
          end in
        ret (Some newNode', sibs ++ siblings processedNode)
    end
  else
    let* newNode' :=
      (match newNode with
      | Some n => ret n
      | None =>
          let* i := draw in
          ret (PN.mkProcessedNode i None None ConvertedNodeType_text (VString ""))
      end) in
    let* processedNode := processNode childNode page (Some (PN.id newNode')) in
    match processedNode with
    | Some processedNode =>
        ret (Some newNode', sibs ++ mainNode processedNode :: siblings processedNode)
    | None => ret (Some newNode', sibs)
    end.

Definition processListItem_with
    (processNode : MdNode -> Z -> option string -> M (option NodeResult))
    (node : MdNode) (page : Z)
  : M (option ProcessedNode * list ProcessedNode) :=
  with_children node (fun cs =>
    forEachM (processListItem_step processNode page) cs (None, [])).

(** The entries of [nodeProcessors]; each returns [value] and
    [siblings]. *)
Definition nodeProcessors_literal (node : MdNode)
  : M (JsValue * list ProcessedNode) :=
  ret (fromOption (Md.value node), []).

Definition nodeProcessors_list
    (processNode : MdNode -> Z -> option string -> M (option NodeResult))
    (node : MdNode) (page : Z) : M (JsValue * list ProcessedNode) :=
  with_children node (fun cs =>
    let* result := mapM (fun childNode => processNode childNode page None) cs in
    ret (VArray (gatherValue result), gatherSiblings result)).

Definition nodeProcessors_listItem
    (processNode : MdNode -> Z -> option string -> M (option NodeResult))
    (node : MdNode) (page : Z) : M (JsValue * list ProcessedNode) :=
  let* result := processListItem_with processNode node page in
  ret (match fst result with Some n => VObject n | None => VUndefined end,
       snd result).

Definition nodeProcessors_parent
    (processNode : MdNode -> Z -> option string -> M (option NodeResult))
    (node : MdNode) (page : Z) : M (JsValue * list ProcessedNode) :=
  with_children node (fun cs =>
    let* result := mapM (fun childNode => processNode childNode page None) cs in
    ret (VString (join " " (gatherValue result)), gatherSiblings result)).

(** The own keys of the [nodeProcessors] object: what
    [node.type in nodeProcessors] finds for a [node.type] that names no
    member of [Object.prototype].  (The test with the prototype chain is
    [inNodeProcessors], below.) *)
Definition nodeProcessors_keys : list string :=
  ["literal"; MdNodeType.list; MdNodeType.listItem; "parent"].

(** [nodeProcessors[key](node, page)] for a key of the table. *)
Definition nodeProcessors_at
    (processNode : MdNode -> Z -> option string -> M (option NodeResult))
    (key : string) (node : MdNode) (page : Z)
  : M (JsValue * list ProcessedNode) :=
  if String.eqb key "literal" then nodeProcessors_literal node
  else if String.eqb key MdNodeType.list then
    nodeProcessors_list processNode node page
  else if String.eqb key MdNodeType.listItem then
    nodeProcessors_listItem processNode node page
  else nodeProcessors_parent processNode node page.

Fixpoint processNode (node : MdNode) (page : Z) (parentId : option string)
    {struct node} : M (option NodeResult) :=
  let* result :=
    (if has literals (Md.type node) then
       let* r := nodeProcessors_literal node in ret (Some r)
     else if has nodeProcessors_keys (Md.type node) then
       let* r := nodeProcessors_at processNode (Md.type node) node page in
       ret (Some r)
     else if negb (has ignoreNodeTypes (Md.type node)) then
       let* r := nodeProcessors_parent processNode node page in ret (Some r)
     else ret None) in
  match result with
  | None => ret None
  | Some (value, siblingNodes) =>
      let* i := draw in
      ret (Some
        {| mainNode :=
             PN.mkProcessedNode i (Some page) parentId
               (js_or (ConvertedNodeType_at (Md.type node)) ConvertedNodeType_text)
               value;
           siblings := siblingNodes |})
  end.

Definition processListItem (node : MdNode) (page : Z)
  : M (option ProcessedNode * list ProcessedNode) :=
  processListItem_with processNode node page.

Definition processRootNode (node : MdNode) (page : Z) (parentId : option string)
  : M (list ProcessedNode) :=
  let* nodes := processNode node page parentId in
  match nodes with
  | None => ret []
  | Some nodes => ret (mainNode nodes :: siblings nodes)
  end.

(** *** The heading stack of [markdownToJson]

    [parentIdManager] is an array used as a stack; here the head of the
    list is its last element, so [push] is a cons and [pop] a tail. *)

(** [parentIdManager.at(-1)?.depth || 0] *)
Definition topDepth (parentIdManager : list ParentId) : Z :=
  or0 (e ← head parentIdManager; pid_depth e).

(** The loop [for (let i = parentIdManager.length; i > 0; i--)]: one
    [pop] per iteration, left by [break] when the incoming depth exceeds
    the depth of the new top. *)
Fixpoint popHeadings (depth : option Z) (parentIdManager : list ParentId)
  : list ParentId :=
  match parentIdManager with
  | [] => []
  | _ :: rest =>
      if js_gt depth (topDepth rest) then rest else popHeadings depth rest
  end.

(** The stack after the [if (isHeading && ...)] statement. *)
Definition closeHeadings (sourceNode : MdNode) (parentIdManager : list ParentId)
  : list ParentId :=
  if String.eqb (Md.type sourceNode) MdNodeType.heading
     && js_le (Md.depth sourceNode) (topDepth parentIdManager)
  then popHeadings (Md.depth sourceNode) parentIdManager
  else parentIdManager.

(** The callback of [parsedMd.children.forEach]; [st] holds
    [parentIdManager] and [processedNodes]. *)
Definition markdownToJson_step (page : Z)
    (st : list ParentId * list ProcessedNode) (sourceNode : MdNode)
  : M (list ParentId * list ProcessedNode) :=
  let '(parentIdManager, processedNodes) := st in
  let isHeading := String.eqb (Md.type sourceNode) MdNodeType.heading in
  let parentIdManager := closeHeadings sourceNode parentIdManager in
  let* processedNode :=
    processRootNode sourceNode page (pid_id <$> head parentIdManager) in
  let* parentIdManager :=
    (if isHeading then
       match processedNode with
       | n :: _ =>
           ret (mkParentId (PN.id n) (Md.depth sourceNode) :: parentIdManager)
       | [] => throw "TypeError: Cannot read properties of undefined"
       end
     else ret parentIdManager) in
  ret (parentIdManager, processedNodes ++ processedNode).

(** [markdownToJson] from the parsed tree on: [parsedMd] is what the
    markdown parser returned for the page's text. *)
Definition markdownToJson (parsedMd : MdNode) (page : Z)
  : M (list ProcessedNode) :=
  with_children parsedMd (fun cs =>
    let* st := forEachM (markdownToJson_step page) cs ([], []) in
    ret (snd st)).

End Flatten.

(** ** Vocabulary of the flattening properties *)

Section FlattenVocabulary.

Variable nanoid : nat -> string.
Variable ConvertedNodeType : list (string * string).

(** A node assembled at the end of [processNode] and collected as a
    sibling while identifiers number [lo] up to (excluding) [hi] were
    drawn: it carries the page, a type computed by the [||] default, its
    own identifier, and as [parentId] an identifier drawn before its
    own. *)
Definition collected (page : Z) (lo hi : nat) (n : ProcessedNode) : Prop :=
  PN.page n = Some page
  /\ (exists kind,
        PN.type n = js_or (ConvertedNodeType_at ConvertedNodeType kind)
                      (ConvertedNodeType_text ConvertedNodeType))
  /\ exists j m,
       (lo <= j < m)%nat /\ (m < hi)%nat
       /\ PN.id n = nanoid m /\ PN.parentId n = Some (nanoid j).

(** A node of the page's output sequence: as [collected], except that
    its [parentId] may be absent. *)
Definition emitted (page : Z) (lo hi : nat) (n : ProcessedNode) : Prop :=
  PN.page n = Some page
  /\ (exists kind,
        PN.type n = js_or (ConvertedNodeType_at ConvertedNodeType kind)
                      (ConvertedNodeType_text ConvertedNodeType))
  /\ exists m,
       (lo <= m < hi)%nat /\ PN.id n = nanoid m
       /\ forall p, PN.parentId n = Some p ->
            exists j, (lo <= j < m)%nat /\ p = nanoid j.

(** What a returning call [processNode node page parentId], started
    after [k] draws and ending after [k'], has produced: nothing without
    drawing, or a main node that took the last identifier drawn, with
    the siblings collected before it. *)
Definition produced (page : Z) (parentId : option string) (kind : string)
    (k : nat) (r : option NodeResult) (k' : nat) : Prop :=
  match r with
  | None => k' = k
  | Some r =>
      (k < k')%nat
      /\ PN.id (mainNode r) = nanoid (k' - 1)
      /\ PN.page (mainNode r) = Some page
      /\ PN.parentId (mainNode r) = parentId
      /\ PN.type (mainNode r)
         = js_or (ConvertedNodeType_at ConvertedNodeType kind)
             (ConvertedNodeType_text ConvertedNodeType)
      /\ Forall (collected page k (k' - 1)) (siblings r)
  end.

(** The loop invariant of [processListItem], for a loop started after
    [lo] draws and standing after [k]. *)
Definition itemInv (page : Z) (lo k : nat)
    (st : option ProcessedNode * list ProcessedNode) : Prop :=
  (lo <= k)%nat
  /\ Forall (collected page lo k) (snd st)
  /\ forall n, fst st = Some n ->
       exists m, (lo <= m < k)%nat /\ PN.id n = nanoid m.

(** [out] is laid out along the top-level children [cs]: an ignored
    child leaves nothing; any other child leaves its main node, whose
    [parentId] (if present) is the [id] of a node emitted before it,
    followed by the siblings collected under it. *)
Inductive outline (page : Z) (lo hi : nat)
  : list MdNode -> list ProcessedNode -> Prop :=
| outline_nil : outline page lo hi [] []
| outline_dropped cs out c :
    outline page lo hi cs out ->
    has ignoreNodeTypes (Md.type c) = true ->
    outline page lo hi (cs ++ [c]) out
| outline_block cs out c main sibs :
    outline page lo hi cs out ->
    PN.type main = js_or (ConvertedNodeType_at ConvertedNodeType (Md.type c))
                     (ConvertedNodeType_text ConvertedNodeType) ->
    (forall p, PN.parentId main = Some p ->
       exists h, h ∈ out /\ PN.id h = p) ->
    Forall (collected page lo hi) sibs ->
    outline page lo hi (cs ++ [c]) (out ++ main :: sibs).

(** The invariant of the loop of [markdownToJson], started after [lo]
    draws and standing after [k] with the children [done] behind it:
    every entry of the heading stack names an emitted node. *)
Definition pageInv (page : Z) (lo k : nat) (done : list MdNode)
    (st : list ParentId * list ProcessedNode) : Prop :=
  (lo <= k)%nat
  /\ Forall (emitted page lo k) (snd st)
  /\ outline page lo k done (snd st)
  /\ Forall (fun e =>
               (exists h, h ∈ snd st /\ PN.id h = pid_id e)
               /\ exists j, (lo <= j < k)%nat /\ pid_id e = nanoid j)
       (fst st).

End FlattenVocabulary.

(** Parent validity as the specification words it: every [parentId] in the
    sequence is the [id] of a node at the same or an earlier position. *)
Definition parentsEmitted (out : list ProcessedNode) : Prop :=
  forall (i : nat) n p,
    out !! i = Some n -> PN.parentId n = Some p ->
    exists (j : nat) h, (j <= i)%nat /\ out !! j = Some h /\ PN.id h = p.

(** The node objects held, at any depth, inside a value; and all the nodes
    of a sequence, its elements and the ones their values hold. *)
Fixpoint nested (v : JsValue) : list ProcessedNode :=
  match v with
  | VArray items => flat_map nested items
  | VObject n => n :: nested (PN.value n)
  | _ => []
  end.

Definition allNodes (out : list ProcessedNode) : list ProcessedNode :=
  flat_map (fun n => n :: nested (PN.value n)) out.

(** A tree on which no method is called on a missing [children]: every
    node that [processNode] hands to the list, list-item or parent
    processor has its [children], and they are well formed in turn. *)
Fixpoint wellFormed (node : MdNode) : bool :=
  if has literals (Md.type node) then true
  else if String.eqb (Md.type node) "literal" then true
  else if has ignoreNodeTypes (Md.type node)
          && negb (has nodeProcessors_keys (Md.type node)) then true
  else match Md.children node with
       | Some cs => forallb wellFormed cs
       | None => false
       end.

(** ** Trees as the parser builds them *)
Module Mdast.
Definition literal (kind value : string) : MdNode :=
  mkMdNode kind None (Some value) None.
Definition parent (kind : string) (children : list MdNode) : MdNode :=
  mkMdNode kind None None (Some children).
Definition void (kind : string) : MdNode := mkMdNode kind None None None.

Definition root := parent "root".
Definition paragraph := parent "paragraph".
Definition blockquote := parent "blockquote".
Definition heading (depth : Z) (children : list MdNode) : MdNode :=
  mkMdNode MdNodeType.heading (Some depth) None (Some children).
Definition listItem := parent MdNodeType.listItem.
Definition text := literal MdNodeType.text.
Definition image : MdNode := void MdNodeType.image.
Definition thematicBreak : MdNode := void MdNodeType.thematicBreak.
Definition list := parent MdNodeType.list.
End Mdast.

(** ** Sample collaborators and inputs

    Concrete stand-ins for the external parts, used to run the definitions:
    an image library whose buffers record what the recognizer reads on
    them, an identifier source, and an output-type enum. *)
Module Sample.

(** A buffer: the recognizer's verdict on it. *)
Definition Buffer : Type := Completion Z.
(** A page image: the verdict on each of its rotations. *)
Definition Image : Type := Z -> Completion Z.

Definition sharp_metadata (b : Buffer) : Completion Metadata :=
  Normal (mkMetadata (Some 1536) (Some 2048)).
Definition sharp_extract (b : Buffer) (r : Region) : Completion Buffer :=
  Normal b.
Definition Tesseract_recognize (b : Buffer) : Completion Z :=
  match b with
  | Normal c => Normal (Z.max 0 (Z.min c 100))
  | Abrupt e => Abrupt e
  end.
Definition sharp_rotate (image : Image) (r : Z) : Completion Buffer :=
  Normal (image r).

Definition table (c0 c90 c180 c270 : Z) (r : Z) : Z :=
  if r =? 0 then c0 else if r =? 90 then c90
  else if r =? 180 then c180 else c270.

Definition sideways : Image := fun r => Normal (table 10 85 20 40 r).
Definition faint : Image := fun r => Normal (table 50 55 10 20 r).
Definition tied : Image := fun r => Normal (table 70 80 80 30 r).

(** A heading stack, top first: headings of depths 3, 2 and 1 are open. *)
Definition openHeadings : list ParentId :=
  [mkParentId "c" (Some 3); mkParentId "b" (Some 2); mkParentId "a" (Some 1)].

(** Identifiers "id0", "id1", ...: pairwise distinct. *)
Definition nanoid (k : nat) : string := "id" ++ pretty k.

Definition ConvertedNodeType : list (string * string) :=
  [("heading", "heading"); ("list", "list"); ("text", "text")].

(** The tree of a bullet [a] with a bullet [b] nested under it: a list
    whose only item holds a paragraph and a nested list. *)
Definition nestedList : MdNode :=
  Mdast.root
    [Mdast.list
       [Mdast.listItem
          [Mdast.paragraph [Mdast.text "a"];
           Mdast.list [Mdast.listItem [Mdast.paragraph [Mdast.text "b"]]]]]].

(** The same list inside a block quote. *)
Definition quotedList : MdNode :=
  Mdast.root
    [Mdast.blockquote
       [Mdast.list
          [Mdast.listItem
             [Mdast.paragraph [Mdast.text "a"];
              Mdast.list [Mdast.listItem [Mdast.paragraph [Mdast.text "b"]]]]]]].

(** The tree of [- - b]: a list item that starts with a nested list. *)
Definition bareSublist : MdNode :=
  Mdast.root
    [Mdast.list
       [Mdast.listItem
          [Mdast.list [Mdast.listItem [Mdast.paragraph [Mdast.text "b"]]]]]].

End Sample.

(** ** The other functions of [utils.ts] *)

(** *** Strings by code unit

    Where the code looks at single characters (whitespace, the letters A to
    Z, a fence of backticks) a string is the list of its UTF-16 code
    units. *)
Abbreviation JsString := (list N).

(** A string literal of the source (ASCII only). *)
Definition lit (s : string) : JsString :=
  (fun a => Ascii.N_of_ascii a) <$> String.list_ascii_of_string s.

(** [s.startsWith(p)] and [s.endsWith(p)] *)
Definition startsWith (s p : JsString) : bool :=
  bool_decide (take (length p) s = p).
Definition endsWith (s p : JsString) : bool :=
  bool_decide (drop (length s - length p) s = p).

(** The code units [String.prototype.trim] strips: ECMAScript's WhiteSpace
    (tab, vertical tab, form feed, space, no-break space, the byte order
    mark and the Unicode space separators) and LineTerminator (line feed,
    carriage return, line and paragraph separator). *)
Definition isWhiteSpace (c : N) : bool :=
  bool_decide
    (c ∈ [0x0009; 0x000B; 0x000C; 0x0020; 0x00A0; 0xFEFF; 0x1680;
          0x2000; 0x2001; 0x2002; 0x2003; 0x2004; 0x2005; 0x2006; 0x2007;
          0x2008; 0x2009; 0x200A; 0x202F; 0x205F; 0x3000;
          0x000A; 0x000D; 0x2028; 0x2029]%N).

Fixpoint dropWhile {A} (f : A -> bool) (l : list A) : list A :=
  match l with
  | [] => []
  | x :: xs => if f x then dropWhile f xs else l
  end.

(** [s.trim()] *)
Definition trim (s : JsString) : JsString :=
  reverse (dropWhile isWhiteSpace (reverse (dropWhile isWhiteSpace s))).

(** *** [formatMarkdown] *)

Definition fenceOpen : JsString := lit "```markdown".
Definition fenceClose : JsString := lit "```".

(** [outermostBlockRegex.exec(s)], reduced to its first group.  The
    pattern anchors the opening fence and a line feed at the start, a line
    feed and the closing fence at the end of the input (no flag is set),
    with any characters between them: when it matches, the group is what
    lies between. *)
Definition outermostBlock (s : JsString) : option JsString :=
  let opening := fenceOpen ++ [10%N] in
  let closing := 10%N :: fenceClose in
  let rest := drop (length opening) s in
  if startsWith s opening && endsWith rest closing
  then Some (take (length rest - length closing) rest)
  else None.

(** A body inside one fence: the opening fence, a line feed, the body, a
    line feed, the closing fence. *)
Definition wrapFence (body : JsString) : JsString :=
  fenceOpen ++ [10%N] ++ body ++ [10%N] ++ fenceClose.

(** The [while] loop, with [remaining] standing for
    [maxLoops - loopCount]. *)
Fixpoint formatMarkdown_loop (remaining : nat) (startsWithMarkdown : bool)
    (formattedMarkdown : JsString) : JsString :=
  match remaining with
  | O => formattedMarkdown
  | S remaining' =>
      if startsWithMarkdown then
        let endsWithClosing := endsWith formattedMarkdown fenceClose in
        if startsWithMarkdown && endsWithClosing then
          match outermostBlock formattedMarkdown with
          | Some group =>
              formatMarkdown_loop remaining' startsWithMarkdown (trim group)
          | None => formattedMarkdown
          end
        else formattedMarkdown
      else formattedMarkdown
  end.

(** [text] is [None] when the argument is [null] or [undefined]: the
    optional chain then yields [undefined], and calling [startsWith] on it
    throws. *)
Definition formatMarkdown (text : option JsString) : Completion JsString :=
  match text with
  | None => Abrupt "TypeError: Cannot read properties of undefined"
  | Some text =>
      let formattedMarkdown := trim text in
      let maxLoops := 3%nat in
      let startsWithMarkdown := startsWith formattedMarkdown fenceOpen in
      Normal (formatMarkdown_loop maxLoops startsWithMarkdown formattedMarkdown)
  end.

(** *** [camelToSnakeCase] and [convertKeysToSnakeCase] *)

(** The class [[A-Z]] *)
Definition isUpper (c : N) : bool := (65 <=? c)%N && (c <=? 90)%N.

(** [str.replace(/[A-Z]/g, letter => `_${letter.toLowerCase()}`)] *)
Definition camelToSnakeCase (str : JsString) : JsString :=
  c ← str; if isUpper c then [95%N; (c + 32)%N] else [c].

(** [Object.fromEntries]: a later entry replaces an earlier one of the
    same key. *)
Definition fromEntries {K} `{Countable K} {V} (entries : list (K * V))
  : gmap K V :=
  foldl (fun m kv => <[kv.1 := kv.2]> m) ∅ entries.

(** An object is given by [Object.entries] of it, in that order; [None] is
    [null] (or [undefined]), for which [obj ?? {}] is the empty object. *)
Definition convertKeysToSnakeCase {V} (obj : option (list (JsString * V)))
  : gmap JsString V :=
  match obj with
  | None => ∅
  | Some entries =>
      fromEntries ((fun kv => (camelToSnakeCase kv.1, kv.2)) <$> entries)
  end.

(** *** [validateLLMParams] *)

Section LLMParams.

(** JavaScript numbers, and the number a decimal literal denotes. *)
Variable Number : Type.
Variable number : Z -> Number.

(** A property value: a number, or something [typeof] does not call a
    number. *)
Inductive ParamValue : Type :=
| IsNumber (x : Number)
| NotNumber.

Definition defaultLLMParams : list (string * ParamValue) :=
  [("frequencyPenalty", IsNumber (number 0));
   ("maxTokens", IsNumber (number 2000));
   ("presencePenalty", IsNumber (number 0));
   ("temperature", IsNumber (number 0));
   ("topP", IsNumber (number 1))].

(** The [for] loop over [Object.entries(params)]: the first entry that
    fails a check ends the call. *)
Fixpoint validateLLMParams_loop (validKeys : list string)
    (entries : list (string * ParamValue)) : Completion unit :=
  match entries with
  | [] => Normal tt
  | (key, value) :: rest =>
      if negb (has validKeys key) then
        Abrupt ("Invalid LLM parameter: " ++ key)
      else
        match value with
        | NotNumber => Abrupt ("Value for '" ++ key ++ "' must be a number")
        | IsNumber _ => validateLLMParams_loop validKeys rest
        end
  end.

(** [{ ...a, ...b }] with [b] given by its entries. *)
Definition spread (a : gmap string ParamValue)
    (b : list (string * ParamValue)) : gmap string ParamValue :=
  foldl (fun m kv => <[kv.1 := kv.2]> m) a b.

Definition validateLLMParams (params : list (string * ParamValue))
  : Completion (gmap string ParamValue) :=
  let validKeys := fst <$> defaultLLMParams in
  match validateLLMParams_loop validKeys params with
  | Abrupt e => Abrupt e
  | Normal _ => Normal (spread (fromEntries defaultLLMParams) params)
  end.

End LLMParams.

(** *** [isValidUrl] and [downloadFile] *)

(** What [downloadFile] does to the outside world, in order. *)
Inductive FileEvent : Type :=
| CreateWriteStream (path : string)
| HttpGet (url : string)
| Pipeline (path : string)
| CopyFile (src dst : string).

(** A call of [downloadFile]: the events it caused and how it ended. *)
Definition Act (A : Type) : Type := list FileEvent * Completion A.

Definition done_ {A} (a : A) : Act A := ([], Normal a).
Definition fail_ {A} (e : string) : Act A := ([], Abrupt e).
Definition perform {A} (ev : FileEvent) (c : Completion A) : Act A := ([ev], c).
Definition andAct {A B} (m : Act A) (f : A -> Act B) : Act B :=
  match m with
  | (evs, Normal a) => let '(evs', c) := f a in (evs ++ evs', c)
  | (evs, Abrupt e) => (evs, Abrupt e)
  end.

Notation "'act*' x ':=' m 'in' f" := (andAct m (fun x => f))
  (at level 10, x name, m at level 100, f at level 200).

(** The part of an HTTP response the code reads. *)
Record Response : Type :=
  mkResponse { status : Z; contentType : option string }.

(** [filePath.split("?")[0]]: the string up to its first question mark. *)
Fixpoint beforeQuery (s : string) : string :=
  match s with
  | EmptyString => EmptyString
  | String c rest =>
      if Ascii.eqb c "?"%char then EmptyString else String c (beforeQuery rest)
  end.

(** [!x] for an optional string: [undefined], [false] and the empty
    string are falsy. *)
Definition falsy (x : option string) : bool :=
  match x with
  | Some s => String.eqb s ""
  | None => true
  end.

(** [extension.startsWith(".")] *)
Definition startsWithDot (extension : string) : bool :=
  match extension with
  | String c _ => Ascii.eqb c "."%char
  | EmptyString => false
  end.

Section Download.

(** The collaborators: the URL parser ([new URL(s).protocol], which throws
    on an invalid URL), [path], [axios], the stream pipeline, [fs.copyFile]
    and the [mime-types] tables ([None] standing for their [false]). *)
Variable URL_protocol : string -> Completion string.
Variable path_basename : string -> string.
Variable path_join : string -> string -> string.
Variable axios_get : string -> Completion Response.
Variable stream_pipeline : string -> Completion unit.
Variable fs_copyFile : string -> string -> Completion unit.
Variable mime_lookup : string -> option string.
Variable mime_extension : option string -> option string.

Definition isValidUrl (s : string) : bool :=
  match URL_protocol s with
  | Abrupt _ => false
  | Normal protocol =>
      String.eqb protocol "http:" || String.eqb protocol "https:"
  end.

(** The first half of [downloadFile]: fetch a URL into [localPath], or copy
    a local file there; the result is [mimetype] as that half leaves it. *)
Definition downloadFile_fetch (filePath localPath : string)
  : Act (option string) :=
  if isValidUrl filePath then
    act* _ := perform (CreateWriteStream localPath) (Normal tt) in
    act* response := perform (HttpGet filePath) (axios_get filePath) in
    if negb (status response =? 200) then
      fail_ ("HTTP error! Status: " ++ pretty (status response))%string
    else
      let mimetype := contentType response in
      act* _ := perform (Pipeline localPath) (stream_pipeline localPath) in
      done_ mimetype
  else
    act* _ := perform (CopyFile filePath localPath)
                (fs_copyFile filePath localPath) in
    done_ None.

(** The second half: the extension for [mimetype]. *)
Definition downloadFile_extension (mimetype : option string)
    (localPath : string) : Completion string :=
  let mimetype := if falsy mimetype then mime_lookup localPath else mimetype in
  let extension :=
    match mime_extension mimetype with
    | Some e => e
    | None => ""
    end in
  let extension :=
    if String.eqb extension "" then
      if bool_decide (mimetype = Some "binary/octet-stream")
      then Normal ".bin"
      else Abrupt "File extension missing"
    else Normal extension in
  match extension with
  | Normal extension =>
      Normal (if negb (startsWithDot extension) then ("." ++ extension)%string
              else extension)
  | Abrupt e => Abrupt e
  end.

Definition downloadFile (filePath tempDir : string) : Act (string * string) :=
  let baseFileName := path_basename (beforeQuery filePath) in
  let localPath := path_join tempDir baseFileName in
  act* mimetype := downloadFile_fetch filePath localPath in
  act* extension := ([], downloadFile_extension mimetype localPath) in
  done_ (extension, localPath).

End Download.

(** ** More vocabulary of the flattening properties *)

Section FlattenVocabularyIds.
Variable nanoid : nat -> string.

(** The identifiers of the nodes [l] were drawn by pairwise different
    calls of [nanoid], numbered from [lo] up to (excluding) [hi]. *)
Definition idsFrom (lo hi : nat) (l : list ProcessedNode) : Prop :=
  exists ms : list nat,
    PN.id <$> l = nanoid <$> ms
    /\ NoDup ms
    /\ Forall (fun m => (lo <= m < hi)%nat) ms.
End FlattenVocabularyIds.

(** No list item of the tree has a list among its children. *)
Fixpoint flatLists (node : MdNode) : bool :=
  match Md.children node with
  | Some cs =>
      negb (String.eqb (Md.type node) MdNodeType.listItem
            && existsb (fun c => String.eqb (Md.type c) MdNodeType.list) cs)
      && forallb flatLists cs
  | None => true
  end.

(** The top-level child [b] does not close the section [c] falls in: it
    is no heading, or [c] is a heading and [b] a heading at least as
    deep. *)
Definition within (c b : MdNode) : bool :=
  negb (String.eqb (Md.type b) MdNodeType.heading)
  || String.eqb (Md.type c) MdNodeType.heading
     && match Md.depth c, Md.depth b with
        | Some dc, Some d => dc <=? d
        | _, _ => false
        end.

(** The heading on top of the stack [base] is one that [c] falls under:
    [c] is no heading, or it is a heading deeper than that one. *)
Definition below (c : MdNode) (base : list ParentId) : bool :=
  negb (String.eqb (Md.type c) MdNodeType.heading)
  || match Md.depth c, base with
     | Some dc, e :: _ => or0 (pid_depth e) <? dc
     | Some _, [] => true
     | None, _ => false
     end.

(** The literal children of a block, and the block's text: their values
    joined by single spaces. *)
Definition literalsOf (c : MdNode) : list MdNode :=
  match Md.children c with Some ls => ls | None => [] end.

Definition textOf (c : MdNode) : string :=
  String.concat " "
    ((fun l => match Md.value l with Some s => s | None => "" end)
       <$> literalsOf c).

(** A block that goes to the default processor and holds literals only: a
    paragraph of text and inline code, say. *)
Definition plainBlock (c : MdNode) : bool :=
  negb (has literals (Md.type c))
  && negb (has nodeProcessors_keys (Md.type c))
  && negb (has ignoreNodeTypes (Md.type c))
  && match Md.children c with
     | Some ls => forallb (fun l => has literals (Md.type l)) ls
     | None => false
     end.

(** The identifiers [processNode] draws on a plain block: one for each
    literal and one for the block. *)
Definition drawsOf (c : MdNode) : nat := S (length (literalsOf c)).

(** *** Property lookups and the prototype chain

    [key in obj] and [obj[key]] look the key up in the object and then in
    its prototypes.  [nodeProcessors] and the enum [ConvertedNodeType] are
    plain objects: besides their own keys they answer to the property
    names of [Object.prototype].  [nodeProcessors_keys] and
    [ConvertedNodeType_at] read own keys only: [processNode] as modelled
    is the code on the kinds that are none of these names, which holds of
    every kind the markdown parser produces.  On such a name the code
    leaves the model: it calls the inherited member as a processor and
    stores the inherited member as the [type]. *)

(** The property names of [Object.prototype]. *)
Definition Object_prototype : list string :=
  ["constructor"; "hasOwnProperty"; "isPrototypeOf"; "propertyIsEnumerable";
   "toLocaleString"; "toString"; "valueOf"; "__proto__";
   "__defineGetter__"; "__defineSetter__";
   "__lookupGetter__"; "__lookupSetter__"].

Definition inherited (key : string) : bool := has Object_prototype key.

(** [node.type in nodeProcessors] *)
Definition inNodeProcessors (kind : string) : bool :=
  has nodeProcessors_keys kind || inherited kind.

(** What [obj[key]] is on a plain object whose own members are strings: an
    own member, a member of [Object.prototype] (a function or an object),
    or [undefined]. *)
Inductive Property : Type :=
| Own (value : string)
| Inherited (name : string)
| Absent.

Definition getProperty (obj : list (string * string)) (key : string)
  : Property :=
  match find (fun m => String.eqb (fst m) key) obj with
  | Some m => Own (snd m)
  | None => if inherited key then Inherited key else Absent
  end.

(** [a || b] on such values: functions and objects are truthy. *)
Definition js_or_property (a b : Property) : Property :=
  match a with
  | Own s => if String.eqb s "" then b else a
  | Inherited _ => a
  | Absent => b
  end.

(** [ConvertedNodeType[node.type] || ConvertedNodeType.text] *)
Definition typeExpression (ConvertedNodeType : list (string * string))
    (kind : string) : Property :=
  js_or_property (getProperty ConvertedNodeType kind)
    (getProperty ConvertedNodeType "text").

(** An optional string as a property value. *)
Definition ofOption (v : option string) : Property :=
  match v with Some s => Own s | None => Absent end.

(** No node of the tree has a kind that names a member of
    [Object.prototype]. *)
Fixpoint ownKinds (node : MdNode) : bool :=
  negb (inherited (Md.type node))
  && match Md.children node with
     | Some cs => forallb ownKinds cs
     | None => true
     end.

(** *** Nodes that hang under a list item *)

(** [item] lies in the tree of [node]: it is the node, or lies in the tree
    of one of its children. *)
Inductive inside (item : MdNode) : MdNode -> Prop :=
| inside_here : inside item item
| inside_child (node : MdNode) (cs : list MdNode) (c : MdNode) :
    Md.children node = Some cs -> c ∈ cs -> inside item c ->
    inside item node.

Section FlattenVocabularyItems.

Variable nanoid : nat -> string.
Variable ConvertedNodeType : list (string * string).

(** The node [s] hangs under a list item of the tree of [c]: while
    identifiers number [lo] up to [hi] were drawn, [processListItem] was
    called on a list item lying in that tree and returned [s] among the
    siblings; [s] is a list node, and its [parentId] is the [id] of the
    node the call returned for the item, the merged or placeholder
    node. *)
Definition hung (page : Z) (lo hi : nat) (c : MdNode) (s : ProcessedNode)
  : Prop :=
  exists (item : MdNode) (j : nat) (itemNode : ProcessedNode)
         (sibs : list ProcessedNode) (j' : nat),
    inside item c
    /\ Md.type item = MdNodeType.listItem
    /\ (lo <= j)%nat /\ (j' <= hi)%nat
    /\ processListItem nanoid ConvertedNodeType item page j
       = Returns (Some itemNode, sibs) j'
    /\ s ∈ sibs
    /\ PN.parentId s = Some (PN.id itemNode)
    /\ PN.type s
       = js_or (ConvertedNodeType_at ConvertedNodeType MdNodeType.list)
           (ConvertedNodeType_text ConvertedNodeType).

(** The part of the output a top-level child [c] left: nothing, for an
    ignored kind; or its main node, followed by nodes that hang under list
    items of its tree. *)
Definition blockOf (page : Z) (lo hi : nat) (c : MdNode)
    (block : list ProcessedNode) : Prop :=
  match block with
  | [] => has ignoreNodeTypes (Md.type c) = true
  | main :: sibs => Forall (hung page lo hi c) sibs
  end.

End FlattenVocabularyItems.

(** ** More sample collaborators

    Stand-ins for the outside of [downloadFile]: a URL parser that knows
    the two web schemes, paths with a slash as separator, a server that
    answers every request with a PDF, and a one-line [mime-types] table. *)
Module Fixture.

Definition URL_protocol (s : string) : Completion string :=
  if String.prefix "https://" s then Normal "https:"
  else if String.prefix "http://" s then Normal "http:"
  else Abrupt "TypeError: Invalid URL".

Fixpoint path_basename (s : string) : string :=
  match s with
  | EmptyString => EmptyString
  | String c rest =>
      if existsb (Ascii.eqb "/"%char) (String.list_ascii_of_string s)
      then path_basename rest
      else s
  end.

Definition path_join (a b : string) : string := a ++ "/" ++ b.

Definition axios_get (url : string) : Completion Response :=
  Normal (mkResponse 200 (Some "application/pdf")).
Definition stream_pipeline (path : string) : Completion unit := Normal tt.
Definition fs_copyFile (src dst : string) : Completion unit := Normal tt.

Definition mime_lookup (path : string) : option string := None.
Definition mime_extension (type : option string) : option string :=
  match type with
  | Some t => if String.eqb t "application/pdf" then Some "pdf" else None
  | None => None
  end.

Definition downloadFile : string -> string -> Act (string * string) :=
  downloadFile URL_protocol path_basename path_join axios_get stream_pipeline
    fs_copyFile mime_lookup mime_extension.

(** JavaScript numbers that are integers. *)
Definition Number : Type := Z.
Definition number (z : Z) : Number := z.

(** A page: a title, an introduction, a section with a subsection, and a
    second section. *)
Definition blocks : list MdNode :=
  [Mdast.heading 1 [Mdast.text "Report"];
   Mdast.paragraph [Mdast.text "Intro"];
   Mdast.heading 2 [Mdast.text "Scope"];
   Mdast.heading 3 [Mdast.text "Detail"];
   Mdast.thematicBreak;
   Mdast.heading 2 [Mdast.text "Method"];
   Mdast.paragraph [Mdast.text "Steps"; Mdast.literal "inlineCode" "run"]].

Definition report : MdNode := Mdast.root blocks.

(** A list item with a paragraph and two lists under it. *)
Definition itemBlocks : list MdNode :=
  [Mdast.paragraph [Mdast.text "a"];
   Mdast.list [Mdast.listItem [Mdast.paragraph [Mdast.text "b"]]];
   Mdast.list [Mdast.listItem [Mdast.paragraph [Mdast.text "c"]]]].

Definition item : MdNode := Mdast.listItem itemBlocks.

(** A block quote whose second child, a paragraph, has lost its
    [children]. *)
Definition broken : MdNode :=
  Mdast.blockquote [Mdast.text "a"; Mdast.void "paragraph"].

End Fixture.

(** * Properties *)

(** ** Orientation selection *)

Lemma better_cases (best current : RotationTrial) :
  better best current = current /\ confidence best < confidence current
  \/ better best current = best /\ confidence current <= confidence best.
Proof.
  unfold better.
  destruct (Z.gtb_spec (confidence current) (confidence best)); [left|right]; auto.
Qed.

(** The reducer keeps the first trial that reaches the highest
    confidence: the trials before the winner are strictly worse, the ones
    after it are no better. *)
Lemma fold_better_first_max (xs : list RotationTrial) (b : RotationTrial) :
  exists pre post,
    b :: xs = pre ++ fold_left better xs b :: post
    /\ Forall (fun x => confidence x < confidence (fold_left better xs b)) pre
    /\ Forall (fun x => confidence x <= confidence (fold_left better xs b)) post.
Proof.
  revert b. induction xs as [|x xs IH]; intros b; cbn [fold_left].
  - exists [], []. repeat split; constructor.
  - destruct (better_cases b x) as [[-> Hgt]|[-> Hle]].
    + destruct (IH x) as (pre & post & Hsplit & Hpre & Hpost).
      exists (b :: pre), post. rewrite Hsplit at 1.
      split; [reflexivity|]. split; [|exact Hpost].
      constructor; [|exact Hpre].
      assert (Hx : confidence x <= confidence (fold_left better xs x)).
      { assert (Hin : x ∈ pre ++ fold_left better xs x :: post)
          by (rewrite <- Hsplit; left).
        apply elem_of_app in Hin as [Hin|Hin].
        - rewrite Forall_forall in Hpre. specialize (Hpre _ Hin). lia.
        - apply elem_of_cons in Hin as [Heq|Hin]; [rewrite <- Heq; lia|].
          rewrite Forall_forall in Hpost. auto. }
      lia.
    + destruct (IH b) as (pre & post & Hsplit & Hpre & Hpost).
      destruct pre as [|b' pre]; cbn in Hsplit.
      * injection Hsplit as Hb Hxs.
        exists [], (x :: xs). cbn. rewrite <- Hb.
        split; [reflexivity|]. split; [constructor|].
        constructor; [lia|]. rewrite Hxs, Hb. exact Hpost.
      * injection Hsplit as Hb Hxs. subst b'.
        exists (b :: x :: pre), post. cbn. rewrite Hxs at 1.
        split; [reflexivity|]. split; [|exact Hpost].
        inversion Hpre; subst. constructor; auto. constructor; auto. lia.
Qed.

Section OrientationFacts.

Variables Buffer Image : Type.
Variable sharp_metadata : Buffer -> Completion Metadata.
Variable sharp_extract : Buffer -> Region -> Completion Buffer.
Variable Tesseract_recognize : Buffer -> Completion Z.
Variable sharp_rotate : Image -> Z -> Completion Buffer.

Local Abbreviation getTextFromImage' :=
  (getTextFromImage Buffer sharp_metadata sharp_extract Tesseract_recognize).
Local Abbreviation ocrFails' :=
  (ocrFails Buffer sharp_metadata sharp_extract Tesseract_recognize).
Local Abbreviation trial' :=
  (trial Buffer Image sharp_metadata sharp_extract Tesseract_recognize
     sharp_rotate).
Local Abbreviation scores' :=
  (scores Buffer Image sharp_metadata sharp_extract Tesseract_recognize
     sharp_rotate).
Local Abbreviation determineOptimalRotation' :=
  (determineOptimalRotation Buffer Image sharp_metadata sharp_extract
     Tesseract_recognize sharp_rotate).

(** The three ways [getTextFromImage] can end: the recognizer's
    confidence with nothing logged, or 0 with the error logged. *)
Lemma getTextFromImage_cases (buffer : Buffer) :
  (exists metadata croppedBuffer c,
      sharp_metadata buffer = Normal metadata
      /\ sharp_extract buffer (cropRegion metadata) = Normal croppedBuffer
      /\ Tesseract_recognize croppedBuffer = Normal c
      /\ getTextFromImage' buffer = ([], Normal c))
  \/ (ocrFails' buffer
      /\ exists e, getTextFromImage' buffer = ([ErrorDuringOCR e], Normal 0)).
Proof.
  unfold getTextFromImage, ocrFails.
  destruct (sharp_metadata buffer) as [metadata|e] eqn:Hmeta; cbn.
  - destruct (sharp_extract buffer (cropRegion metadata))
      as [croppedBuffer|e] eqn:Hcrop; cbn.
    + destruct (Tesseract_recognize croppedBuffer) as [c|e] eqn:Hrec; cbn.
      * left. exists metadata, croppedBuffer, c. auto.
      * right. split; [|eauto]. right. right.
        exists metadata, croppedBuffer, e. auto.
    + right. split; [|eauto]. right. left. exists metadata, e. auto.
  - right. split; [|eauto]. left. eauto.
Qed.

(** C6. [getTextFromImage] never ends abruptly: for every buffer it
    returns a confidence.  When reading the metadata, cropping or
    recognition fails, that confidence is 0 and the error is logged; and
    as long as the recognizer reports confidences between 0 and 100, so
    does [getTextFromImage]. *)
Theorem getTextFromImage_never_throws
    (Hrange : forall b c, Tesseract_recognize b = Normal c -> 0 <= c <= 100)
    (buffer : Buffer) :
  exists out c,
    getTextFromImage' buffer = (out, Normal c)
    /\ 0 <= c <= 100
    /\ (ocrFails' buffer -> c = 0 /\ exists e, out = [ErrorDuringOCR e]).
Proof.
  destruct (getTextFromImage_cases buffer)
    as [(metadata & croppedBuffer & c & Hmeta & Hcrop & Hrec & Hres)
       |[Hfails [e Hres]]].
  - exists [], c. split; [exact Hres|]. split; [eauto|].
    intros [[e He]|[(m & e & Hm & He)|(m & b & e & Hm & Hb & He)]].
    + congruence.
    + rewrite Hmeta in Hm. injection Hm as <-. congruence.
    + rewrite Hmeta in Hm. injection Hm as <-.
      rewrite Hcrop in Hb. injection Hb as <-. congruence.
  - exists [ErrorDuringOCR e], 0. split; [exact Hres|]. split; [lia|].
    intros _. eauto.
Qed.

(** Under [scores], [Promise.all] delivers the four trials in candidate
    order and the selection runs on them. *)
Lemma determineOptimalRotation_eq (image : Image) (c : Z -> Z) :
  scores' image c ->
  snd (determineOptimalRotation' image) =
    Normal
      (let bestResult :=
         fold_left better
           [mkRotationTrial 90 (c 90); mkRotationTrial 180 (c 180);
            mkRotationTrial 270 (c 270)]
           (mkRotationTrial 0 (c 0)) in
       if (confidence bestResult >=? MIN_ROTATION_CONFIDENCE)
          && negb (rotation bestResult =? 0)
       then rotation bestResult else 0).
Proof.
  intros Hscores.
  assert (H0 := Hscores 0 ltac:(repeat constructor)).
  assert (H90 := Hscores 90 ltac:(repeat constructor)).
  assert (H180 := Hscores 180 ltac:(repeat constructor)).
  assert (H270 := Hscores 270 ltac:(repeat constructor)).
  unfold determineOptimalRotation, rotations.
  cbn [all].
  destruct (trial' image 0) as [o0 t0].
  destruct (trial' image 90) as [o90 t90].
  destruct (trial' image 180) as [o180 t180].
  destruct (trial' image 270) as [o270 t270].
  cbn [snd] in *.
  rewrite H0, H90, H180, H270.
  cbn [andThen pure await reduce].
  match goal with
  | |- context [if ?b then _ else _] => destruct b
  end; reflexivity.
Qed.

(** C4. The orientation gate: the selected trial has the highest
    confidence of the four, and its rotation is returned only when that
    confidence is at least 60 and the rotation is not 0; otherwise 0 is
    returned.  For confidences 10, 85, 20, 40 the result is 90; for
    50, 55, 10, 20 it is 0, although 90 has the highest confidence. *)
Theorem determineOptimalRotation_gate (image : Image) (c : Z -> Z)
    (Hscores : scores' image c) :
  (exists best,
      best ∈ rotations
      /\ (forall r, r ∈ rotations -> c r <= c best)
      /\ (60 <= c best -> best <> 0 ->
          snd (determineOptimalRotation' image) = Normal best)
      /\ (c best < 60 \/ best = 0 ->
          snd (determineOptimalRotation' image) = Normal 0))
  /\ ((c 0, c 90, c 180, c 270) = (10, 85, 20, 40) ->
      snd (determineOptimalRotation' image) = Normal 90)
  /\ ((c 0, c 90, c 180, c 270) = (50, 55, 10, 20) ->
      snd (determineOptimalRotation' image) = Normal 0
      /\ forall r, r ∈ rotations -> c r <= c 90).
Proof.
  rewrite (determineOptimalRotation_eq image c Hscores).
  split; [|split].
  - cbn [fold_left]. unfold MIN_ROTATION_CONFIDENCE.
    destruct (better_cases (mkRotationTrial 0 (c 0)) (mkRotationTrial 90 (c 90)))
      as [[-> H1]|[-> H1]];
    match goal with
    | |- context [better ?b (mkRotationTrial 180 (c 180))] =>
        destruct (better_cases b (mkRotationTrial 180 (c 180)))
          as [[-> H2]|[-> H2]]
    end;
    match goal with
    | |- context [better ?b (mkRotationTrial 270 (c 270))] =>
        destruct (better_cases b (mkRotationTrial 270 (c 270)))
          as [[-> H3]|[-> H3]]
    end;
    cbn [confidence rotation] in *;
    match goal with
    | |- context [negb (?best =? 0)] => exists best
    end.
    all: split; [unfold rotations; repeat constructor|].
    all: split.
    all: try (intros r Hr; unfold rotations in Hr;
              repeat (apply elem_of_cons in Hr as [->|Hr]); try lia;
              apply elem_of_nil in Hr; contradiction).
    all: split.
    all: try (intros Hge Hne;
              match goal with
              | |- context [?x >=? 60] => destruct (Z.geb_spec x 60); [|lia]
              end;
              first [reflexivity | congruence]).
    all: intros [Hlt|Heq]; try discriminate Heq.
    all: try (match goal with
              | |- context [?x >=? 60] => destruct (Z.geb_spec x 60); [lia|]
              end; reflexivity).
    all: rewrite Bool.andb_false_r; reflexivity.
  - intros Hc. injection Hc as H0 H90 H180 H270.
    rewrite H0, H90, H180, H270. reflexivity.
  - intros Hc. injection Hc as H0 H90 H180 H270.
    rewrite H0, H90, H180, H270.
    split; [reflexivity|].
    intros r Hr. unfold rotations in Hr.
    repeat (apply elem_of_cons in Hr as [->|Hr]); try lia.
    apply elem_of_nil in Hr; contradiction.
Qed.

(** C5. Ties go to the first candidate: the trial the reduction selects
    splits the candidate list [0; 90; 180; 270] so that every candidate
    before it has a strictly lower confidence and every candidate after
    it has no higher one; the result of [determineOptimalRotation] is the
    gate applied to that trial. *)
Theorem determineOptimalRotation_first_max (image : Image) (c : Z -> Z)
    (Hscores : scores' image c) :
  exists pre best post,
    rotations = pre ++ best :: post
    /\ reduce better ((fun r => mkRotationTrial r (c r)) <$> rotations)
       = Normal (mkRotationTrial best (c best))
    /\ Forall (fun r => c r < c best) pre
    /\ Forall (fun r => c r <= c best) post
    /\ snd (determineOptimalRotation' image) =
         Normal (if (c best >=? MIN_ROTATION_CONFIDENCE) && negb (best =? 0)
                 then best else 0).
Proof.
  rewrite (determineOptimalRotation_eq image c Hscores).
  set (mk := fun r => mkRotationTrial r (c r)).
  change ([mkRotationTrial 90 (c 90); mkRotationTrial 180 (c 180);
           mkRotationTrial 270 (c 270)]) with (mk <$> [90; 180; 270]).
  change (mkRotationTrial 0 (c 0)) with (mk 0).
  change (reduce better (mk <$> rotations))
    with (Normal (fold_left better (mk <$> [90; 180; 270]) (mk 0))).
  destruct (fold_better_first_max (mk <$> [90; 180; 270]) (mk 0))
    as (pre & post & Hsplit & Hpre & Hpost).
  change (mk 0 :: (mk <$> [90; 180; 270])) with (mk <$> rotations) in Hsplit.
  apply fmap_app_inv in Hsplit as (pre' & rest & -> & Hrest & Hrot).
  symmetry in Hrest.
  apply fmap_cons_inv in Hrest as (best & post' & Hbest & -> & ->).
  exists pre', best, post'. rewrite Hbest in *.
  split; [exact Hrot|]. split; [reflexivity|].
  split; [|split].
  - apply Forall_forall. intros r Hr. rewrite Forall_forall in Hpre.
    apply (Hpre (mk r)). apply list_elem_of_fmap_2. exact Hr.
  - apply Forall_forall. intros r Hr. rewrite Forall_forall in Hpost.
    apply (Hpost (mk r)). apply list_elem_of_fmap_2. exact Hr.
  - reflexivity.
Qed.

End OrientationFacts.

Lemma Sample_scores (c0 c90 c180 c270 : Z) :
  0 <= c0 <= 100 -> 0 <= c90 <= 100 -> 0 <= c180 <= 100 -> 0 <= c270 <= 100 ->
  scores Sample.Buffer Sample.Image Sample.sharp_metadata Sample.sharp_extract
    Sample.Tesseract_recognize Sample.sharp_rotate
    (fun r => Normal (Sample.table c0 c90 c180 c270 r))
    (Sample.table c0 c90 c180 c270).
Proof.
  intros H0 H90 H180 H270 r Hr. unfold rotations in Hr.
  repeat (apply elem_of_cons in Hr as [->|Hr]);
    [| | | |apply elem_of_nil in Hr; contradiction];
    cbn; repeat f_equal; lia.
Defined.

Lemma getTextFromImage_never_throws_witness :
  (forall b c, Sample.Tesseract_recognize b = Normal c -> 0 <= c <= 100)
  /\ exists out c,
       getTextFromImage Sample.Buffer Sample.sharp_metadata Sample.sharp_extract
         Sample.Tesseract_recognize (Abrupt "no text") = (out, Normal c)
       /\ 0 <= c <= 100
       /\ (ocrFails Sample.Buffer Sample.sharp_metadata Sample.sharp_extract
             Sample.Tesseract_recognize (Abrupt "no text") ->
           c = 0 /\ exists e, out = [ErrorDuringOCR e]).
Proof.
  assert (Hrange : forall b c,
             Sample.Tesseract_recognize b = Normal c -> 0 <= c <= 100).
  { intros [x|e] c H; cbn in H; [|discriminate]. injection H as <-. lia. }
  split; [exact Hrange|].
  exact (getTextFromImage_never_throws Sample.Buffer Sample.sharp_metadata
           Sample.sharp_extract Sample.Tesseract_recognize Hrange
           (Abrupt "no text")).
Defined.

Lemma determineOptimalRotation_gate_witness :
  scores Sample.Buffer Sample.Image Sample.sharp_metadata Sample.sharp_extract
    Sample.Tesseract_recognize Sample.sharp_rotate
    Sample.sideways (Sample.table 10 85 20 40)
  /\ snd (determineOptimalRotation Sample.Buffer Sample.Image
            Sample.sharp_metadata Sample.sharp_extract
            Sample.Tesseract_recognize Sample.sharp_rotate Sample.sideways)
     = Normal 90
  /\ snd (determineOptimalRotation Sample.Buffer Sample.Image
            Sample.sharp_metadata Sample.sharp_extract
            Sample.Tesseract_recognize Sample.sharp_rotate Sample.faint)
     = Normal 0.
Proof.
  assert (Hsideways : scores Sample.Buffer Sample.Image Sample.sharp_metadata
            Sample.sharp_extract Sample.Tesseract_recognize Sample.sharp_rotate
            Sample.sideways (Sample.table 10 85 20 40))
    by (apply Sample_scores; lia).
  split; [exact Hsideways|]. split.
  - exact (proj1 (proj2 (determineOptimalRotation_gate _ _ _ _ _ _
                           Sample.sideways (Sample.table 10 85 20 40)
                           Hsideways)) eq_refl).
  - refine (proj1 (proj2 (proj2 (determineOptimalRotation_gate _ _ _ _ _ _
                            Sample.faint (Sample.table 50 55 10 20) _))
                     eq_refl)).
    apply Sample_scores; lia.
Defined.

Lemma determineOptimalRotation_first_max_witness :
  exists pre best post,
    rotations = pre ++ best :: post
    /\ reduce better
         ((fun r => mkRotationTrial r (Sample.table 70 80 80 30 r)) <$> rotations)
       = Normal (mkRotationTrial best (Sample.table 70 80 80 30 best))
    /\ Forall (fun r => Sample.table 70 80 80 30 r
                        < Sample.table 70 80 80 30 best) pre
    /\ Forall (fun r => Sample.table 70 80 80 30 r
                        <= Sample.table 70 80 80 30 best) post
    /\ snd (determineOptimalRotation Sample.Buffer Sample.Image
              Sample.sharp_metadata Sample.sharp_extract
              Sample.Tesseract_recognize Sample.sharp_rotate Sample.tied) =
         Normal (if (Sample.table 70 80 80 30 best >=? MIN_ROTATION_CONFIDENCE)
                    && negb (best =? 0)
                 then best else 0).
Proof.
  apply (determineOptimalRotation_first_max Sample.Buffer Sample.Image
           Sample.sharp_metadata Sample.sharp_extract
           Sample.Tesseract_recognize Sample.sharp_rotate Sample.tied).
  apply Sample_scores; lia.
Defined.

(** ** Flattening *)

(** Induction on the tree, with the hypothesis on every child. *)
Lemma MdNode_ind' (P : MdNode -> Prop) :
  (forall t d v, P (mkMdNode t d v None)) ->
  (forall t d v cs, Forall P cs -> P (mkMdNode t d v (Some cs))) ->
  forall n, P n.
Proof.
  intros Hleaf Hnode. fix IH 1. intros [t d v [cs|]].
  - apply Hnode. induction cs as [|c cs IHcs]; constructor; [apply IH | exact IHcs].
  - apply Hleaf.
Qed.

Lemma bind_Returns {A B} (m : M A) (f : A -> M B) (k k' : nat) (b : B) :
  bind m f k = Returns b k' ->
  exists a k1, m k = Returns a k1 /\ f a k1 = Returns b k'.
Proof.
  unfold bind. destruct (m k) as [a k1|e]; [eauto | discriminate].
Qed.

Lemma ret_Returns {A} (a b : A) (k k' : nat) :
  ret a k = Returns b k' -> b = a /\ k' = k.
Proof. unfold ret. intros [= -> ->]. auto. Qed.

Lemma MdNode_children_ind (P : MdNode -> Prop) :
  (forall node,
      (forall cs, Md.children node = Some cs -> Forall P cs) -> P node) ->
  forall n, P n.
Proof.
  intros H. induction n as [t d v|t d v cs IH] using MdNode_ind';
    apply H; cbn; intros cs' Hcs; [discriminate|].
  injection Hcs as <-. exact IH.
Qed.

Lemma mapM_Returns {A B} (f : A -> M B) (l : list A) (k k' : nat) (rs : list B) :
  mapM f l k = Returns rs k' ->
  Forall2 (fun x y => exists k1 k2, f x k1 = Returns y k2) l rs.
Proof.
  revert k k' rs. induction l as [|x xs IH]; intros k k' rs H; cbn in H.
  - apply ret_Returns in H as [-> _]. constructor.
  - apply bind_Returns in H as (y & k1 & Hy & H).
    apply bind_Returns in H as (ys & k2 & Hys & H).
    apply ret_Returns in H as [-> _].
    constructor; eauto.
Qed.

Section FlattenFacts.

Variable nanoid : nat -> string.
Variable ConvertedNodeType : list (string * string).

Local Abbreviation processNode' := (processNode nanoid ConvertedNodeType).
Local Abbreviation processListItem' := (processListItem nanoid ConvertedNodeType).
Local Abbreviation processListItem_step' :=
  (processListItem_step nanoid ConvertedNodeType).
Local Abbreviation processListItem_with' :=
  (processListItem_with nanoid ConvertedNodeType).
Local Abbreviation nodeProcessors_listItem' :=
  (nodeProcessors_listItem nanoid ConvertedNodeType).
Local Abbreviation nodeProcessors_at' :=
  (nodeProcessors_at nanoid ConvertedNodeType).
Local Abbreviation processRootNode' := (processRootNode nanoid ConvertedNodeType).
Local Abbreviation markdownToJson' := (markdownToJson nanoid ConvertedNodeType).
Local Abbreviation markdownToJson_step' :=
  (markdownToJson_step nanoid ConvertedNodeType).
Local Abbreviation collected' := (collected nanoid ConvertedNodeType).
Local Abbreviation emitted' := (emitted nanoid ConvertedNodeType).
Local Abbreviation produced' := (produced nanoid ConvertedNodeType).
Local Abbreviation itemInv' := (itemInv nanoid ConvertedNodeType).
Local Abbreviation text' := (ConvertedNodeType_text ConvertedNodeType).
Local Abbreviation typeOf' :=
  (fun kind => js_or (ConvertedNodeType_at ConvertedNodeType kind) text').

(** The body of [processNode], as the source has it. *)
Lemma processNode_eq (node : MdNode) (page : Z) (parentId : option string) :
  processNode' node page parentId =
    let* result :=
      (if has literals (Md.type node) then
         let* r := nodeProcessors_literal node in ret (Some r)
       else if has nodeProcessors_keys (Md.type node) then
         let* r := nodeProcessors_at' processNode' (Md.type node) node page in
         ret (Some r)
       else if negb (has ignoreNodeTypes (Md.type node)) then
         let* r := nodeProcessors_parent processNode' node page in ret (Some r)
       else ret None) in
    match result with
    | None => ret None
    | Some (value, siblingNodes) =>
        let* i := draw nanoid in
        ret (Some
          {| mainNode :=
               PN.mkProcessedNode i (Some page) parentId
                 (typeOf' (Md.type node)) value;
             siblings := siblingNodes |})
    end.
Proof. destruct node; reflexivity. Qed.

Lemma collected_mono (page : Z) (lo hi lo' hi' : nat) (n : ProcessedNode) :
  (lo' <= lo)%nat -> (hi <= hi')%nat ->
  collected' page lo hi n -> collected' page lo' hi' n.
Proof.
  intros Hlo Hhi (Hpage & Htype & j & m & Hj & Hm & Hid & Hpid).
  split; [exact Hpage|]. split; [exact Htype|].
  exists j, m. repeat split; auto; lia.
Qed.

Lemma Forall_collected_mono (page : Z) (lo hi lo' hi' : nat)
    (l : list ProcessedNode) :
  (lo' <= lo)%nat -> (hi <= hi')%nat ->
  Forall (collected' page lo hi) l -> Forall (collected' page lo' hi') l.
Proof.
  intros Hlo Hhi H. eapply Forall_impl; [exact H|].
  intros n. now apply collected_mono.
Qed.

Lemma gatherSiblings_acc (l : list (option NodeResult)) (acc : list ProcessedNode) :
  fold_left
    (fun acc r => match r with Some r => acc ++ siblings r | None => acc end)
    l acc
  = acc ++ gatherSiblings l.
Proof.
  unfold gatherSiblings. revert acc.
  induction l as [|x l IH]; intros acc; cbn [fold_left].
  - now rewrite app_nil_r.
  - rewrite IH.
    rewrite (IH (match x with Some r0 => [] ++ siblings r0 | None => [] end)).
    destruct x; cbn; [now rewrite app_assoc | reflexivity].
Qed.

Lemma gatherSiblings_cons (r : option NodeResult) (rs : list (option NodeResult)) :
  gatherSiblings (r :: rs) =
    match r with Some r => siblings r | None => [] end ++ gatherSiblings rs.
Proof.
  unfold gatherSiblings at 1. cbn [fold_left].
  rewrite gatherSiblings_acc. destruct r; reflexivity.
Qed.

(** Nodes collected during a run of draws stay collected over any longer
    run that contains it. *)
Ltac widen H := eapply Forall_collected_mono; [| |exact H]; lia.

(** [processNode] keeps its promise on [node]: whenever it returns, it
    has [produced] its result. *)
Local Abbreviation sound :=
  (fun node : MdNode =>
     forall page parentId k r k',
       processNode' node page parentId k = Returns r k' ->
       produced' page parentId (Md.type node) k r k').

Lemma mapM_produced (page : Z) (cs : list MdNode) :
  Forall sound cs ->
  forall k rs k',
    mapM (fun childNode => processNode' childNode page None) cs k
      = Returns rs k' ->
    (k <= k')%nat /\ Forall (collected' page k k') (gatherSiblings rs).
Proof.
  induction 1 as [|c cs Hc Hcs IH]; intros k rs k' H; cbn in H.
  - apply ret_Returns in H as [-> <-]. split; [lia | constructor].
  - apply bind_Returns in H as (y & k1 & Hy & H).
    apply bind_Returns in H as (ys & k2 & Hys & H).
    apply ret_Returns in H as [-> <-].
    apply Hc in Hy. apply IH in Hys as [Hle Hall].
    rewrite gatherSiblings_cons.
    destruct y as [r|]; cbn in Hy.
    + destruct Hy as (Hlt & _ & _ & _ & _ & Hsib).
      split; [lia|]. apply Forall_app. split.
      * widen Hsib.
      * widen Hall.
    + subst k1. split; [lia | exact Hall].
Qed.

Lemma processListItem_step_inv (page : Z) (lo : nat) (childNode : MdNode)
    (st st' : option ProcessedNode * list ProcessedNode) (k k' : nat) :
  sound childNode ->
  itemInv' page lo k st ->
  processListItem_step' processNode' page st childNode k = Returns st' k' ->
  itemInv' page lo k' st'.
Proof.
  intros Hc (Hlo & Hsibs & Hnew) H. destruct st as [newNode sibs].
  cbn [fst snd] in *. unfold processListItem_step in H.
  destruct (negb (Md.type childNode =? MdNodeType.list)%string).
  - apply bind_Returns in H as (r & k1 & Hr & H). apply Hc in Hr.
    destruct r as [r|]; cbn in Hr.
    + destruct Hr as (Hlt & Hid & _ & _ & _ & Hsib).
      apply ret_Returns in H as [-> <-].
      split; [lia|]. cbn [fst snd]. split.
      * apply Forall_app. split.
        -- widen Hsibs.
        -- widen Hsib.
      * intros n [= <-]. destruct newNode as [n0|].
        -- destruct (Hnew n0 eq_refl) as (m & Hm & Hidn).
           exists m. split; [lia | exact Hidn].
        -- exists (k' - 1)%nat. split; [lia | exact Hid].
    + subst k1. apply ret_Returns in H as [-> <-].
      repeat split; auto.
  - apply bind_Returns in H as (n & k1 & Hn & H).
    assert (Hidn : (k <= k1)%nat
                   /\ exists m, (lo <= m < k1)%nat /\ PN.id n = nanoid m).
    { destruct newNode as [n0|].
      - apply ret_Returns in Hn as [-> <-]. split; [lia|]. auto.
      - apply bind_Returns in Hn as (i & k0 & Hi & Hn).
        injection Hi as <- <-. apply ret_Returns in Hn as [-> ->].
        split; [lia|]. exists k. split; [lia | reflexivity]. }
    destruct Hidn as (Hk1 & m & Hm & Hidn).
    apply bind_Returns in H as (r & k2 & Hr & H). apply Hc in Hr.
    destruct r as [r|]; cbn in Hr.
    + destruct Hr as (Hlt & Hid & Hpage & Hpid & Htype & Hsib).
      apply ret_Returns in H as [-> <-].
      split; [lia|]. cbn [fst snd]. split.
      * apply Forall_app. split.
        -- widen Hsibs.
        -- constructor.
           ++ split; [exact Hpage|]. split; [eauto|].
              exists m, (k' - 1)%nat. rewrite Hpid, Hidn.
              repeat split; auto; lia.
           ++ widen Hsib.
      * intros n' [= <-]. exists m. split; [lia | exact Hidn].
    + subst k2. apply ret_Returns in H as [-> <-].
      split; [lia|]. cbn [fst snd]. split.
      * widen Hsibs.
      * intros n' [= <-]. exists m. split; [lia | exact Hidn].
Qed.

Lemma forEachM_itemInv (page : Z) (lo : nat) (cs : list MdNode) :
  Forall sound cs ->
  forall st k st' k',
    itemInv' page lo k st ->
    forEachM (processListItem_step' processNode' page) cs st k
      = Returns st' k' ->
    itemInv' page lo k' st'.
Proof.
  induction 1 as [|c cs Hc Hcs IH]; intros st k st' k' Hinv H; cbn in H.
  - apply ret_Returns in H as [-> <-]. exact Hinv.
  - apply bind_Returns in H as (st1 & k1 & Hstep & H).
    eapply IH; [|exact H].
    eapply processListItem_step_inv; eauto.
Qed.

Lemma throw_Returns {A} (e : string) (k k' : nat) (a : A) :
  throw e k = Returns a k' -> False.
Proof. discriminate. Qed.

(** What the processors return for a node whose children are
    [sound]. *)
Lemma nodeProcessors_children_collected (node : MdNode) (page : Z)
    (wrap : list JsValue -> JsValue) (k k' : nat)
    (r : JsValue * list ProcessedNode) :
  (forall cs, Md.children node = Some cs -> Forall sound cs) ->
  with_children node (fun cs =>
    let* result := mapM (fun childNode => processNode' childNode page None) cs in
    ret (wrap (gatherValue result), gatherSiblings result)) k = Returns r k' ->
  (k <= k')%nat /\ Forall (collected' page k k') (snd r).
Proof.
  intros IH H. unfold with_children in H.
  destruct (Md.children node) as [cs|]; [|now apply throw_Returns in H].
  apply bind_Returns in H as (rs & k1 & Hrs & H).
  apply ret_Returns in H as [-> <-].
  eapply mapM_produced; [|exact Hrs]. now apply IH.
Qed.

Lemma nodeProcessors_listItem_collected (node : MdNode) (page : Z)
    (k k' : nat) (r : JsValue * list ProcessedNode) :
  (forall cs, Md.children node = Some cs -> Forall sound cs) ->
  nodeProcessors_listItem' processNode' node page k = Returns r k' ->
  (k <= k')%nat /\ Forall (collected' page k k') (snd r).
Proof.
  intros IH H. unfold nodeProcessors_listItem in H.
  apply bind_Returns in H as (st & k1 & Hst & H).
  apply ret_Returns in H as [-> <-].
  unfold processListItem_with, with_children in Hst.
  destruct (Md.children node) as [cs|]; [|now apply throw_Returns in Hst].
  assert (Hinv : itemInv' page k k' st).
  { eapply forEachM_itemInv; [now apply IH| |exact Hst].
    split; [lia|]. split; [constructor | discriminate]. }
  destruct Hinv as (Hle & Hsibs & _). auto.
Qed.

Lemma nodeProcessors_at_collected (node : MdNode) (page : Z) (key : string)
    (k k' : nat) (r : JsValue * list ProcessedNode) :
  (forall cs, Md.children node = Some cs -> Forall sound cs) ->
  nodeProcessors_at' processNode' key node page k = Returns r k' ->
  (k <= k')%nat /\ Forall (collected' page k k') (snd r).
Proof.
  intros IH H. unfold nodeProcessors_at in H.
  destruct (key =? "literal")%string.
  - apply ret_Returns in H as [-> <-]. split; [lia | constructor].
  - destruct (key =? MdNodeType.list)%string.
    + eapply (nodeProcessors_children_collected node page VArray); eauto.
    + destruct (key =? MdNodeType.listItem)%string.
      * eapply nodeProcessors_listItem_collected; eauto.
      * eapply (nodeProcessors_children_collected node page
                  (fun vs => VString (join " " vs))); eauto.
Qed.

(** Every returning call of [processNode] has [produced] its result. *)
Lemma processNode_produced (node : MdNode) : sound node.
Proof.
  induction node as [node IH] using MdNode_children_ind.
  intros page parentId k r k' H. rewrite processNode_eq in H.
  apply bind_Returns in H as (result & k1 & Hres & H).
  assert (Hdispatch :
            match result with
            | None => k1 = k
            | Some r => (k <= k1)%nat /\ Forall (collected' page k k1) (snd r)
            end).
  { destruct (has literals (Md.type node)).
    - apply bind_Returns in Hres as (v & k0 & Hv & Hres).
      apply ret_Returns in Hv as [-> <-]. apply ret_Returns in Hres as [-> <-].
      split; [lia | constructor].
    - destruct (has nodeProcessors_keys (Md.type node)).
      + apply bind_Returns in Hres as (v & k0 & Hv & Hres).
        apply ret_Returns in Hres as [-> <-].
        eapply nodeProcessors_at_collected; eauto.
      + destruct (negb (has ignoreNodeTypes (Md.type node))).
        * apply bind_Returns in Hres as (v & k0 & Hv & Hres).
          apply ret_Returns in Hres as [-> <-].
          eapply (nodeProcessors_children_collected node page
                    (fun vs => VString (join " " vs))); eauto.
        * apply ret_Returns in Hres as [-> <-]. reflexivity. }
  destruct result as [[value siblingNodes]|].
  - destruct Hdispatch as [Hle Hsibs]. cbn [snd] in Hsibs.
    apply bind_Returns in H as (i & k2 & Hi & H).
    injection Hi as <- <-. apply ret_Returns in H as [-> ->].
    unfold produced. cbn [mainNode siblings PN.id PN.page PN.parentId PN.type].
    replace (S k1 - 1)%nat with k1 by lia.
    repeat split; auto. lia.
  - apply ret_Returns in H as [-> ->]. exact Hdispatch.
Qed.

Lemma collected_emitted (page : Z) (lo hi : nat) (n : ProcessedNode) :
  collected' page lo hi n -> emitted' page lo hi n.
Proof.
  intros (Hpage & Htype & j & m & Hj & Hm & Hid & Hpid).
  split; [exact Hpage|]. split; [exact Htype|].
  exists m. split; [lia|]. split; [exact Hid|].
  intros p Hp. rewrite Hpid in Hp. injection Hp as <-.
  exists j. split; [lia | reflexivity].
Qed.

Lemma emitted_mono (page : Z) (lo hi hi' : nat) (n : ProcessedNode) :
  (hi <= hi')%nat -> emitted' page lo hi n -> emitted' page lo hi' n.
Proof.
  intros Hhi (Hpage & Htype & m & Hm & Hid & Hpid).
  split; [exact Hpage|]. split; [exact Htype|].
  exists m. split; [lia|]. split; [exact Hid | exact Hpid].
Qed.

Lemma outline_mono (page : Z) (lo hi hi' : nat) (cs : list MdNode)
    (out : list ProcessedNode) :
  (hi <= hi')%nat ->
  outline nanoid ConvertedNodeType page lo hi cs out ->
  outline nanoid ConvertedNodeType page lo hi' cs out.
Proof.
  intros Hhi. induction 1 as [|cs out c Hout IH Hign
                               |cs out c main sibs Hout IH Htype Hpar Hsibs].
  - apply outline_nil.
  - now apply outline_dropped.
  - apply outline_block; auto.
    widen Hsibs.
Qed.

(** Only a node of an ignored kind is dropped. *)
Lemma processNode_None (node : MdNode) (page : Z) (parentId : option string)
    (k k' : nat) :
  processNode' node page parentId k = Returns None k' ->
  has ignoreNodeTypes (Md.type node) = true.
Proof.
  intros H. rewrite processNode_eq in H.
  apply bind_Returns in H as (result & k1 & Hres & H).
  destruct result as [[value siblingNodes]|].
  - apply bind_Returns in H as (i & k2 & _ & H).
    apply ret_Returns in H as [[=] _].
  - destruct (has literals (Md.type node)).
    + apply bind_Returns in Hres as (v & k0 & _ & Hres).
      apply ret_Returns in Hres as [[=] _].
    + destruct (has nodeProcessors_keys (Md.type node)).
      * apply bind_Returns in Hres as (v & k0 & _ & Hres).
        apply ret_Returns in Hres as [[=] _].
      * destruct (has ignoreNodeTypes (Md.type node)); [reflexivity|].
        cbn in Hres.
        apply bind_Returns in Hres as (v & k0 & _ & Hres).
        apply ret_Returns in Hres as [[=] _].
Qed.

(** The stack after closing headings is a final part of the stack
    before. *)
Lemma popHeadings_suffix (depth : option Z) (stack : list ParentId) :
  exists popped, stack = popped ++ popHeadings depth stack.
Proof.
  induction stack as [|e rest [popped IH]]; cbn.
  - exists []. reflexivity.
  - destruct (js_gt depth (topDepth rest)).
    + exists [e]. reflexivity.
    + exists (e :: popped). cbn. now rewrite <- IH.
Qed.

Lemma closeHeadings_suffix (node : MdNode) (stack : list ParentId) :
  exists popped, stack = popped ++ closeHeadings node stack.
Proof.
  unfold closeHeadings.
  destruct (_ && _); [apply popHeadings_suffix | now exists []].
Qed.

Local Abbreviation outline' := (outline nanoid ConvertedNodeType).
Local Abbreviation pageInv' := (pageInv nanoid ConvertedNodeType).

Lemma markdownToJson_step_inv (page : Z) (lo k k' : nat) (done : list MdNode)
    (st st' : list ParentId * list ProcessedNode) (sourceNode : MdNode) :
  pageInv' page lo k done st ->
  markdownToJson_step' page st sourceNode k = Returns st' k' ->
  pageInv' page lo k' (done ++ [sourceNode]) st'.
Proof.
  intros (Hlo & Hout & Hline & Hstack) H. destruct st as [stack out].
  cbn [fst snd] in *. unfold markdownToJson_step in H.
  destruct (closeHeadings_suffix sourceNode stack) as [popped Hpopped].
  rewrite Hpopped in Hstack. apply Forall_app in Hstack as [_ Hstack].
  set (stack1 := closeHeadings sourceNode stack) in *. clearbody stack1.
  apply bind_Returns in H as (b & k1 & Hb & H).
  unfold processRootNode in Hb.
  apply bind_Returns in Hb as (r & k0 & Hr & Hb).
  pose proof Hr as Hnone.
  apply processNode_produced in Hr.
  apply bind_Returns in H as (stack2 & k2 & Hstack2 & H).
  apply ret_Returns in H as [-> ->].
  destruct r as [r|]; cbn in Hr.
  - destruct Hr as (Hlt & Hid & Hpage & Hpid & Htype & Hsibs).
    apply ret_Returns in Hb as [-> ->].
    assert (Hparent : forall p, PN.parentId (mainNode r) = Some p ->
              (exists h, h ∈ out /\ PN.id h = p)
              /\ exists j, (lo <= j < k)%nat /\ p = nanoid j).
    { intros p Hp. rewrite Hpid in Hp.
      destruct stack1 as [|e stack1]; [discriminate|].
      injection Hp as <-. now inversion Hstack. }
    assert (Hinv : (lo <= k0)%nat
              /\ Forall (emitted' page lo k0) (out ++ mainNode r :: siblings r)
              /\ outline' page lo k0 (done ++ [sourceNode])
                   (out ++ mainNode r :: siblings r)
              /\ Forall (fun e =>
                   (exists h, h ∈ out ++ mainNode r :: siblings r
                              /\ PN.id h = pid_id e)
                   /\ exists j, (lo <= j < k0)%nat /\ pid_id e = nanoid j)
                   stack1).
    { split; [lia|]. split; [|split].
      - apply Forall_app. split.
        + eapply Forall_impl; [exact Hout|]. intros n. apply emitted_mono. lia.
        + constructor.
          * split; [exact Hpage|]. split; [eauto|].
            exists (k0 - 1)%nat. split; [lia|]. split; [exact Hid|].
            intros p Hp. destruct (Hparent p Hp) as (_ & j & Hj & ->).
            exists j. split; [lia | reflexivity].
          * eapply Forall_impl; [exact Hsibs|]. intros n Hn.
            apply collected_emitted.
            eapply collected_mono; [| |exact Hn]; lia.
      - apply outline_block.
        + eapply outline_mono; [|exact Hline]. lia.
        + exact Htype.
        + intros p Hp. now destruct (Hparent p Hp).
        + widen Hsibs.
      - eapply Forall_impl; [exact Hstack|].
        intros e [(h & Hh & Hhid) (j & Hj & Hjid)]. split.
        + exists h. split; [|exact Hhid]. apply elem_of_app. now left.
        + exists j. split; [lia | exact Hjid]. }
    destruct Hinv as (Hlo' & Hout' & Hline' & Hstack').
    destruct (Md.type sourceNode =? MdNodeType.heading)%string.
    + apply ret_Returns in Hstack2 as [-> ->].
      split; [exact Hlo'|]. split; [exact Hout'|]. split; [exact Hline'|].
      cbn [fst snd]. constructor; [|exact Hstack']. cbn [pid_id]. split.
      * exists (mainNode r). split; [|reflexivity].
        apply elem_of_app. right. left.
      * exists (k0 - 1)%nat. split; [lia | exact Hid].
    + apply ret_Returns in Hstack2 as [-> ->].
      split; [exact Hlo'|]. split; [exact Hout'|]. split; [exact Hline'|].
      exact Hstack'.
  - subst k0. apply ret_Returns in Hb as [-> ->].
    destruct (Md.type sourceNode =? MdNodeType.heading)%string;
      [now apply throw_Returns in Hstack2|].
    apply ret_Returns in Hstack2 as [-> ->].
    rewrite app_nil_r. split; [exact Hlo|]. split; [exact Hout|].
    split; [|exact Hstack].
    apply outline_dropped; [exact Hline|].
    now apply processNode_None in Hnone.
Qed.

Lemma forEachM_pageInv (page : Z) (lo : nat) (cs : list MdNode) :
  forall done st k st' k',
    pageInv' page lo k done st ->
    forEachM (markdownToJson_step' page) cs st k = Returns st' k' ->
    pageInv' page lo k' (done ++ cs) st'.
Proof.
  induction cs as [|c cs IH]; intros done st k st' k' Hinv H; cbn in H.
  - apply ret_Returns in H as [-> ->]. now rewrite app_nil_r.
  - apply bind_Returns in H as (st1 & k1 & Hstep & H).
    replace (done ++ c :: cs) with ((done ++ [c]) ++ cs)
      by now rewrite <- app_assoc.
    eapply IH; [|exact H].
    eapply markdownToJson_step_inv; eauto.
Qed.

(** The invariant holds of what [markdownToJson] returns. *)
Lemma markdownToJson_pageInv (parsedMd : MdNode) (page : Z) (k k' : nat)
    (out : list ProcessedNode) :
  markdownToJson' parsedMd page k = Returns out k' ->
  exists cs stack,
    Md.children parsedMd = Some cs /\ pageInv' page k k' cs (stack, out).
Proof.
  intros H. unfold markdownToJson, with_children in H.
  destruct (Md.children parsedMd) as [cs|]; [|now apply throw_Returns in H].
  apply bind_Returns in H as ([stack out'] & k1 & Hloop & H).
  apply ret_Returns in H as [-> ->]. cbn [snd].
  exists cs, stack. split; [reflexivity|].
  apply (forEachM_pageInv page k cs [] ([], []) k); [|exact Hloop].
  split; [lia|]. split; [constructor|].
  split; [apply outline_nil | constructor].
Qed.

Local Abbreviation hung' := (hung nanoid ConvertedNodeType).
Local Abbreviation blockOf' := (blockOf nanoid ConvertedNodeType).

Lemma hung_mono (page : Z) (lo hi lo' hi' : nat) (c : MdNode)
    (s : ProcessedNode) :
  (lo' <= lo)%nat -> (hi <= hi')%nat ->
  hung' page lo hi c s -> hung' page lo' hi' c s.
Proof.
  intros Hlo Hhi (item & j & n & sibs & j' & Hin & Hitem & Hj & Hj' & H).
  exists item, j, n, sibs, j'. repeat split; try apply H; auto; lia.
Qed.

Lemma hung_child (page : Z) (lo hi : nat) (node : MdNode)
    (cs : list MdNode) (c : MdNode) (s : ProcessedNode) :
  Md.children node = Some cs -> c ∈ cs ->
  hung' page lo hi c s -> hung' page lo hi node s.
Proof.
  intros Hcs Hc (item & j & n & sibs & j' & Hin & H).
  exists item, j, n, sibs, j'. split; [|exact H].
  eapply inside_child; eauto.
Qed.

(** The siblings [processNode] returns on [node] hang under list items
    of its tree. *)
Local Abbreviation tied :=
  (fun node : MdNode =>
     forall page parentId k r k',
       processNode' node page parentId k = Returns (Some r) k' ->
       Forall (hung' page k k' node) (siblings r)).

Lemma mapM_tied (page : Z) (node : MdNode) (all cs : list MdNode) :
  Md.children node = Some all ->
  (forall c, c ∈ cs -> c ∈ all) ->
  Forall tied cs ->
  forall k rs k',
    mapM (fun childNode => processNode' childNode page None) cs k
      = Returns rs k' ->
    (k <= k')%nat /\ Forall (hung' page k k' node) (gatherSiblings rs).
Proof.
  intros Hall Hsub Htied. revert Hsub.
  induction Htied as [|c cs Hc Hcs IH]; intros Hsub k rs k' H; cbn in H.
  - apply ret_Returns in H as [-> <-]. split; [lia | constructor].
  - apply bind_Returns in H as (y & k1 & Hy & H).
    apply bind_Returns in H as (ys & k2 & Hys & H).
    apply ret_Returns in H as [-> <-].
    pose proof (processNode_produced c _ _ _ _ _ Hy) as Hprod.
    apply IH in Hys as [Hle Hrest];
      [|intros x Hx; apply Hsub; now right].
    rewrite gatherSiblings_cons.
    destruct y as [r|]; cbn in Hprod.
    + destruct Hprod as (Hlt & _). apply Hc in Hy.
      split; [lia|]. apply Forall_app. split.
      * eapply Forall_impl; [exact Hy|]. intros s Hs.
        eapply hung_mono; [| |eapply hung_child; [exact Hall| |exact Hs]];
          [lia | lia | apply Hsub; now left].
      * eapply Forall_impl; [exact Hrest|]. intros s Hs.
        eapply hung_mono; [| |exact Hs]; lia.
    + subst k1. split; [lia | exact Hrest].
Qed.

(** The loop of [processListItem] on [node]: a sibling hangs under a list
    item further down, or is the node of a list among the children and
    points to the item's node as it stands. *)
Local Abbreviation itemTied :=
  (fun (page : Z) (lo k : nat) (node : MdNode)
       (st : option ProcessedNode * list ProcessedNode) =>
     (lo <= k)%nat
     /\ Forall
          (fun s =>
             hung' page lo k node s
             \/ exists n,
                  fst st = Some n
                  /\ PN.parentId s = Some (PN.id n)
                  /\ PN.type s = typeOf' MdNodeType.list)
          (snd st)).

Lemma processListItem_step_tied (page : Z) (lo : nat) (node : MdNode)
    (all : list MdNode) (childNode : MdNode)
    (st st' : option ProcessedNode * list ProcessedNode) (k k' : nat) :
  Md.children node = Some all -> childNode ∈ all -> tied childNode ->
  itemTied page lo k node st ->
  processListItem_step' processNode' page st childNode k = Returns st' k' ->
  itemTied page lo k' node st'.
Proof.
  intros Hall Hin Hc (Hlo & Hsibs) H. destruct st as [newNode sibs].
  cbn [fst snd] in *. unfold processListItem_step in H.
  assert (Hunder : forall r j j' res,
            (k <= j)%nat ->
            processNode' childNode page r j = Returns (Some res) j' ->
            Forall (fun s => hung' page lo j' node s) (siblings res)).
  { intros r j j' res Hj Hres. apply Hc in Hres.
    eapply Forall_impl; [exact Hres|]. intros s Hs.
    eapply hung_mono; [| |eapply hung_child; [exact Hall|exact Hin|exact Hs]];
      lia. }
  destruct (negb (Md.type childNode =? MdNodeType.list)%string) eqn:Hlist.
  - apply bind_Returns in H as (r & k1 & Hr & H).
    pose proof (processNode_produced _ _ _ _ _ _ Hr) as Hprod.
    destruct r as [r|]; cbn in Hprod.
    + destruct Hprod as (Hlt & _).
      apply ret_Returns in H as [-> <-]. cbn [fst snd].
      split; [lia|]. apply Forall_app. split.
      * eapply Forall_impl; [exact Hsibs|]. intros s [Hs|(n & -> & Hs)].
        -- left. eapply hung_mono; [| |exact Hs]; lia.
        -- right. eexists. split; [reflexivity | exact Hs].
      * eapply Forall_impl;
          [exact (Hunder None k k' r ltac:(lia) Hr)|].
        intros s Hs. now left.
    + subst k1. apply ret_Returns in H as [-> <-]. split; assumption.
  - apply negb_false_iff, String.eqb_eq in Hlist.
    apply bind_Returns in H as (n & k1 & Hn & H).
    assert (Hkept : (k <= k1)%nat /\ forall n0, newNode = Some n0 -> n = n0).
    { destruct newNode as [n0|].
      - apply ret_Returns in Hn as [-> <-]. split; [lia|]. now intros ? [= ->].
      - apply bind_Returns in Hn as (i & k0 & Hi & Hn).
        injection Hi as <- <-. apply ret_Returns in Hn as [-> ->].
        split; [lia | discriminate]. }
    destruct Hkept as [Hk1 Hkept].
    apply bind_Returns in H as (r & k2 & Hr & H).
    pose proof (processNode_produced _ _ _ _ _ _ Hr) as Hprod.
    assert (Hold : forall j, (k <= j)%nat ->
              Forall
                (fun s =>
                   hung' page lo j node s
                   \/ exists n1,
                        Some n = Some n1
                        /\ PN.parentId s = Some (PN.id n1)
                        /\ PN.type s = typeOf' MdNodeType.list) sibs).
    { intros j Hj. eapply Forall_impl; [exact Hsibs|].
      intros s [Hs|(n0 & Hn0 & Hs)].
      - left. eapply hung_mono; [| |exact Hs]; lia.
      - right. exists n. split; [reflexivity|].
        now rewrite (Hkept n0 Hn0). }
    destruct r as [r|]; cbn in Hprod.
    + destruct Hprod as (Hlt & _ & _ & Hpid & Htype & _).
      apply ret_Returns in H as [-> <-]. cbn [fst snd].
      split; [lia|]. apply Forall_app. split; [apply Hold; lia|].
      constructor.
      * right. exists n. split; [reflexivity|]. split; [exact Hpid|].
        now rewrite Htype, Hlist.
      * eapply Forall_impl;
          [exact (Hunder _ k1 k' r Hk1 Hr)|].
        intros s Hs. now left.
    + subst k2. apply ret_Returns in H as [-> <-]. cbn [fst snd].
      split; [lia | apply Hold; lia].
Qed.

Lemma forEachM_itemTied (page : Z) (lo : nat) (node : MdNode)
    (all cs : list MdNode) :
  Md.children node = Some all ->
  (forall c, c ∈ cs -> c ∈ all) ->
  Forall tied cs ->
  forall st k st' k',
    itemTied page lo k node st ->
    forEachM (processListItem_step' processNode' page) cs st k
      = Returns st' k' ->
    itemTied page lo k' node st'.
Proof.
  intros Hall Hsub Htied. revert Hsub.
  induction Htied as [|c cs Hc Hcs IH]; intros Hsub st k st' k' Hinv H;
    cbn in H.
  - apply ret_Returns in H as [-> <-]. exact Hinv.
  - apply bind_Returns in H as (st1 & k1 & Hstep & H).
    eapply IH; [intros x Hx; apply Hsub; now right| |exact H].
    eapply processListItem_step_tied; eauto. apply Hsub. now left.
Qed.

Lemma processNode_tied (node : MdNode) : tied node.
Proof.
  induction node as [node IH] using MdNode_children_ind.
  intros page parentId k r k' H. rewrite processNode_eq in H.
  apply bind_Returns in H as (result & k1 & Hres & H).
  destruct result as [[value siblingNodes]|];
    [|apply ret_Returns in H as [[=] _]].
  apply bind_Returns in H as (i & k2 & Hi & H).
  injection Hi as <- <-. apply ret_Returns in H as [[= ->] ->].
  cbn [siblings].
  assert (Hwiden : forall j sibs,
            (j <= S k1)%nat ->
            Forall (hung' page k j node) sibs ->
            Forall (hung' page k (S k1) node) sibs).
  { intros j sibs Hj Hs. eapply Forall_impl; [exact Hs|].
    intros s. apply hung_mono; lia. }
  assert (Hchildren : forall (wrap : list JsValue -> JsValue) v j,
            with_children node (fun cs =>
              let* result :=
                mapM (fun childNode => processNode' childNode page None) cs in
              ret (wrap (gatherValue result), gatherSiblings result)) k
            = Returns v j ->
            Forall (hung' page k j node) (snd v)).
  { intros wrap v j Hv. unfold with_children in Hv.
    destruct (Md.children node) as [cs|] eqn:Hcs;
      [|now apply throw_Returns in Hv].
    apply bind_Returns in Hv as (rs & k0 & Hrs & Hv).
    apply ret_Returns in Hv as [-> <-]. cbn [snd].
    eapply (mapM_tied page node cs cs); eauto. }
  destruct (has literals (Md.type node)).
  - apply bind_Returns in Hres as (v & k0 & Hv & Hres).
    apply ret_Returns in Hv as [-> <-].
    apply ret_Returns in Hres as [[= _ ->] _]. constructor.
  - destruct (has nodeProcessors_keys (Md.type node)).
    + apply bind_Returns in Hres as (v & k0 & Hv & Hres).
      apply ret_Returns in Hres as [[= Hval] <-].
      change siblingNodes with (snd (value, siblingNodes)). rewrite Hval.
      unfold nodeProcessors_at in Hv.
      destruct (Md.type node =? "literal")%string.
      { apply ret_Returns in Hv as [-> _]. constructor. }
      destruct (Md.type node =? MdNodeType.list)%string;
        [exact (Hwiden k1 _ ltac:(lia) (Hchildren VArray v _ Hv))|].
      destruct (Md.type node =? MdNodeType.listItem)%string eqn:Hitem;
        [|exact (Hwiden k1 _ ltac:(lia)
                   (Hchildren (fun vs => VString (join " " vs)) v _ Hv))].
      apply String.eqb_eq in Hitem.
      unfold nodeProcessors_listItem in Hv.
      apply bind_Returns in Hv as ([newNode sibs] & k3 & Hst & Hv).
      apply ret_Returns in Hv as [-> <-]. cbn [fst snd].
      pose proof Hst as Hcall.
      unfold processListItem_with, with_children in Hst.
      destruct (Md.children node) as [cs|] eqn:Hcs;
        [|now apply throw_Returns in Hst].
      destruct (forEachM_itemTied page k node cs cs Hcs (fun c Hc => Hc)
                  (IH cs eq_refl) (None, []) k (newNode, sibs) k1
                  (conj (le_n _) (Forall_nil_2 _)) Hst)
        as (Hle & Hsibs).
      cbn [fst snd] in Hsibs. rewrite Forall_forall in Hsibs.
      apply Forall_forall. intros s Hs.
      destruct (Hsibs s Hs) as [Hhung|(n & -> & Hpid & Htype)].
      * eapply hung_mono; [| |exact Hhung]; lia.
      * exists node, k, n, sibs, k1.
        split; [apply inside_here|]. split; [exact Hitem|].
        split; [lia|]. split; [lia|]. split; [exact Hcall|].
        split; [exact Hs|]. split; [exact Hpid | exact Htype].
    + destruct (negb (has ignoreNodeTypes (Md.type node)));
        [|apply ret_Returns in Hres as [[=] _]].
      apply bind_Returns in Hres as (v & k0 & Hv & Hres).
      apply ret_Returns in Hres as [[= Hval] <-].
      change siblingNodes with (snd (value, siblingNodes)). rewrite Hval.
      exact (Hwiden k1 _ ltac:(lia)
               (Hchildren (fun vs => VString (join " " vs)) v _ Hv)).
Qed.

(** Along the loop of [markdownToJson], the output is made of one block
    for each child done. *)
Lemma forEachM_blocks (page : Z) (lo : nat) (cs : list MdNode) :
  forall done blocks stack k st' k',
    (lo <= k)%nat ->
    Forall2 (blockOf' page lo k) done blocks ->
    forEachM (markdownToJson_step' page) cs (stack, concat blocks) k
      = Returns st' k' ->
    exists blocks',
      snd st' = concat blocks'
      /\ Forall2 (blockOf' page lo k') (done ++ cs) blocks'.
Proof.
  induction cs as [|c cs IH]; intros done blocks stack k st' k' Hlo Hdone H;
    cbn [forEachM] in H.
  - apply ret_Returns in H as [-> <-]. exists blocks.
    now rewrite app_nil_r.
  - apply bind_Returns in H as ([stack1 out1] & k1 & Hstep & H).
    unfold markdownToJson_step in Hstep.
    apply bind_Returns in Hstep as (b & j1 & Hb & Hstep).
    apply bind_Returns in Hstep as (stack2 & j2 & Hstack2 & Hstep).
    apply ret_Returns in Hstep as [[= -> ->] ->].
    assert (Hj2 : j2 = j1).
    { destruct (Md.type c =? MdNodeType.heading)%string.
      - destruct b; [now apply throw_Returns in Hstack2|].
        now apply ret_Returns in Hstack2 as [_ ->].
      - now apply ret_Returns in Hstack2 as [_ ->]. }
    subst j2. clear Hstack2.
    unfold processRootNode in Hb.
    apply bind_Returns in Hb as (r & j0 & Hr & Hb).
    pose proof (processNode_produced _ _ _ _ _ _ Hr) as Hprod.
    assert (Hblock : (k <= j1)%nat /\ blockOf' page lo j1 c b).
    { destruct r as [r|]; cbn in Hprod.
      - destruct Hprod as (Hlt & _). apply processNode_tied in Hr.
        apply ret_Returns in Hb as [-> ->]. split; [lia|]. cbn.
        eapply Forall_impl; [exact Hr|]. intros s. apply hung_mono; lia.
      - subst j0. apply ret_Returns in Hb as [-> ->]. split; [lia|].
        now apply processNode_None in Hr. }
    destruct Hblock as [Hle Hblock].
    replace (concat blocks ++ b) with (concat (blocks ++ [b])) in H
      by (rewrite concat_app; cbn; now rewrite app_nil_r).
    replace (done ++ c :: cs) with ((done ++ [c]) ++ cs)
      by now rewrite <- app_assoc.
    eapply (IH (done ++ [c]) (blocks ++ [b]) stack2 j1); [lia| |exact H].
    apply Forall2_app.
    + eapply Forall2_impl; [exact Hdone|]. intros c0 b0.
      destruct b0 as [|main sibs]; cbn; [auto|].
      intros Hs. eapply Forall_impl; [exact Hs|].
      intros s. apply hung_mono; lia.
    + constructor; [exact Hblock | constructor].
Qed.


Lemma ignored_kind (kind : string) :
  has ignoreNodeTypes kind = true ->
  has literals kind = false /\ has nodeProcessors_keys kind = false.
Proof.
  unfold has. cbn [existsb ignoreNodeTypes]. intros H.
  repeat (apply orb_true_iff in H as [H|H]); try discriminate;
    apply String.eqb_eq in H; subst; split; reflexivity.
Qed.

(** A node of an ignored kind is dropped: [processNode] returns
    [undefined] without drawing an identifier. *)
Lemma processNode_ignored (node : MdNode) (page : Z) (parentId : option string)
    (k : nat) :
  has ignoreNodeTypes (Md.type node) = true ->
  processNode' node page parentId k = Returns None k.
Proof.
  intros H. destruct (ignored_kind _ H) as [Hlit Hkey].
  rewrite processNode_eq. unfold bind. rewrite Hlit, Hkey, H. reflexivity.
Qed.

(** C8. A page whose top-level children are all of ignored kinds flattens
    to the empty sequence: [processNode] returns nothing for each of them,
    wherever it is called, and [markdownToJson] returns no node. *)
Theorem markdownToJson_ignored_only (parsedMd : MdNode) (cs : list MdNode)
    (page : Z) (k : nat) :
  Md.children parsedMd = Some cs ->
  Forall (fun c => has ignoreNodeTypes (Md.type c) = true) cs ->
  (forall c parentId j,
      c ∈ cs -> processNode' c page parentId j = Returns None j)
  /\ markdownToJson' parsedMd page k = Returns [] k.
Proof.
  intros Hcs Hign. split.
  - intros c parentId j Hc. rewrite Forall_forall in Hign.
    now apply processNode_ignored, Hign.
  - unfold markdownToJson, with_children. rewrite Hcs. unfold bind.
    clear Hcs.
    assert (Hloop : forall stack,
               forEachM (markdownToJson_step' page) cs (stack, []) k
               = Returns (stack, []) k).
    { induction Hign as [|c cs Hc Hign IH]; intros stack; [reflexivity|].
      cbn [forEachM]. unfold bind at 1.
      assert (Hstep : markdownToJson_step' page (stack, []) c k
                      = Returns (stack, []) k).
      { unfold markdownToJson_step, closeHeadings, processRootNode, bind.
        assert (Hh : (Md.type c =? MdNodeType.heading)%string = false).
        { apply String.eqb_neq. intros Heq. rewrite Heq in Hc. discriminate. }
        rewrite Hh. cbn [andb].
        rewrite (processNode_ignored c page _ k Hc). reflexivity. }
      rewrite Hstep. apply IH. }
    rewrite Hloop. reflexivity.
Qed.

Lemma js_or_is_Some (a : option string) (t : string) : js_or a (Some t) <> None.
Proof.
  unfold js_or. destruct a as [s|]; [|discriminate].
  destruct (s =? "")%string; discriminate.
Qed.

Lemma ownKinds_eq (node : MdNode) :
  ownKinds node =
    negb (inherited (Md.type node))
    && match Md.children node with
       | Some cs => forallb ownKinds cs
       | None => true
       end.
Proof. destruct node; reflexivity. Qed.

(** On a key that is no member of [Object.prototype], a lookup is a
    lookup among the own members. *)
Lemma getProperty_own (obj : list (string * string)) (key : string) :
  inherited key = false ->
  getProperty obj key = ofOption (ConvertedNodeType_at obj key).
Proof.
  intros Hkey. unfold getProperty, ConvertedNodeType_at.
  destruct (find _ obj) as [m|]; [reflexivity|]. now rewrite Hkey.
Qed.

Lemma js_or_property_ofOption (a b : option string) :
  js_or_property (ofOption a) (ofOption b) = ofOption (js_or a b).
Proof.
  destruct a as [s|]; cbn; [|reflexivity]. now destruct (s =? "")%string.
Qed.


(** Every element of the sequence [markdownToJson] returns carries the
    page number of the call. *)
Lemma markdownToJson_elements_carry_page (parsedMd : MdNode) (page : Z)
    (k k' : nat) (out : list ProcessedNode) :
  markdownToJson' parsedMd page k = Returns out k' ->
  Forall (fun n => PN.page n = Some page) out.
Proof.
  intros H.
  apply markdownToJson_pageInv in H as (cs & stack & _ & _ & Hout & _).
  eapply Forall_impl; [exact Hout|]. now intros n [Hpage _].
Qed.

Lemma js_or_same (a : option string) : js_or a a = a.
Proof. destruct a as [s|]; [|reflexivity]. cbn. now destruct (s =? "")%string. Qed.

(** C3 fails on the placeholder: for a list item that starts with a nested
    list, the node synthesized as the item's main node, which the list node
    carries in its value and the sub-list names as its parent, has no
    [page]; the two elements of the sequence do carry it. *)
Theorem markdownToJson_placeholder_lacks_page (page : Z) (k : nat) :
  exists listNode subList placeholder k',
    markdownToJson' Sample.bareSublist page k = Returns [listNode; subList] k'
    /\ PN.value listNode = VArray [VObject placeholder]
    /\ PN.parentId subList = Some (PN.id placeholder)
    /\ PN.value placeholder = VString ""
    /\ PN.page placeholder = None
    /\ PN.page listNode = Some page
    /\ PN.page subList = Some page.
Proof.
  do 4 eexists. split; [reflexivity|]. cbn. repeat split; reflexivity.
Qed.

(** C7. The list item [[text a; list [item [text b]]]] flattens to two
    nodes: the item's main node, of type text, with value [a] and no
    parent, and one sibling, the node of the nested list, whose [parentId]
    is the main node's [id] and whose value holds the nested item's node
    with value [b]. *)
Theorem processListItem_text_then_list (page : Z) (k : nat) :
  exists main sub inner k',
    processListItem'
      (Mdast.listItem
         [Mdast.text "a"; Mdast.list [Mdast.listItem [Mdast.text "b"]]])
      page k
    = Returns (Some main, [sub]) k'
    /\ nodeProcessors_listItem' processNode'
         (Mdast.listItem
            [Mdast.text "a"; Mdast.list [Mdast.listItem [Mdast.text "b"]]])
         page k
       = Returns (VObject main, [sub]) k'
    /\ PN.type main = text'
    /\ PN.value main = VString "a"
    /\ PN.parentId main = None
    /\ PN.page main = Some page
    /\ PN.parentId sub = Some (PN.id main)
    /\ PN.value sub = VArray [VObject inner]
    /\ PN.value inner = VString "b".
Proof.
  do 4 eexists. split; [reflexivity|]. split; [reflexivity|]. cbn.
  repeat split; try reflexivity. apply js_or_same.
Qed.

(** The [for] loop pops the entries that are at least as deep as the
    incoming heading and stops at the first shallower one. *)
Lemma popHeadings_spec (d : Z) (stack : list ParentId) :
  d <= topDepth stack ->
  exists popped,
    stack = popped ++ popHeadings (Some d) stack
    /\ (stack <> [] -> popped <> [])
    /\ Forall (fun e => d <= or0 (pid_depth e)) popped
    /\ (popHeadings (Some d) stack = []
        \/ topDepth (popHeadings (Some d) stack) < d).
Proof.
  induction stack as [|e rest IH]; intros Hguard.
  - exists []. cbn. repeat split; auto.
  - cbn [popHeadings]. unfold js_gt.
    destruct (Z.gtb_spec d (topDepth rest)) as [Hgt|Hle].
    + exists [e]. split; [reflexivity|]. split; [discriminate|].
      split; [|now right].
      constructor; [exact Hguard | constructor].
    + destruct (IH Hle) as (popped & Hsplit & _ & Hall & Hrest).
      exists (e :: popped). cbn. rewrite <- Hsplit.
      split; [reflexivity|]. split; [discriminate|].
      split; [|exact Hrest].
      constructor; [exact Hguard | exact Hall].
Qed.

(** A top-level heading leaves its main node and siblings in the output
    and pushes its main node's identifier on the closed stack; its parent is
    the top of that stack. *)
Lemma markdownToJson_step_heading (page : Z) (stack : list ParentId)
    (out : list ProcessedNode) (sourceNode : MdNode) (k k' : nat)
    (st' : list ParentId * list ProcessedNode) :
  Md.type sourceNode = MdNodeType.heading ->
  markdownToJson_step' page (stack, out) sourceNode k = Returns st' k' ->
  exists main sibs,
    st' = (mkParentId (PN.id main) (Md.depth sourceNode)
             :: closeHeadings sourceNode stack,
           out ++ main :: sibs)
    /\ PN.parentId main = pid_id <$> head (closeHeadings sourceNode stack).
Proof.
  intros Htype H. unfold markdownToJson_step in H.
  rewrite Htype, String.eqb_refl in H.
  apply bind_Returns in H as (b & k1 & Hb & H).
  unfold processRootNode in Hb.
  apply bind_Returns in Hb as (r & k0 & Hr & Hb).
  apply processNode_produced in Hr.
  apply bind_Returns in H as (stack2 & k2 & Hstack2 & H).
  apply ret_Returns in H as [-> _].
  destruct r as [r|].
  - destruct Hr as (_ & _ & _ & Hpid & _).
    apply ret_Returns in Hb as [-> _].
    apply ret_Returns in Hstack2 as [-> _].
    exists (mainNode r), (siblings r). split; [reflexivity | exact Hpid].
  - apply ret_Returns in Hb as [-> _]. now apply throw_Returns in Hstack2.
Qed.

(** C2. When a heading arrives whose depth is at most the depth of the
    stack top, the stack is popped down to its first entry shallower than
    the heading, or emptied: the popped entries are the top ones, all at
    least as deep as the heading.  So on a page of five headings of depths
    1, 2, 3, 2, 1, whatever they contain, the main nodes get as parents:
    none, the first, the second, the first (and not the second, their ids
    being distinct), none; and with plain text in the headings the page
    flattens to exactly these five nodes. *)
Theorem closeHeadings_pops_to_shallower :
  (forall (sourceNode : MdNode) (stack : list ParentId) (d : Z),
      Md.type sourceNode = MdNodeType.heading ->
      Md.depth sourceNode = Some d ->
      d <= topDepth stack ->
      exists popped,
        stack = popped ++ closeHeadings sourceNode stack
        /\ (stack <> [] -> popped <> [])
        /\ Forall (fun e => d <= or0 (pid_depth e)) popped
        /\ (closeHeadings sourceNode stack = []
            \/ topDepth (closeHeadings sourceNode stack) < d))
  /\ (forall (parsedMd h1 h2 h3 h4 h5 : MdNode) (page : Z) (k k' : nat)
             (out : list ProcessedNode),
        Md.children parsedMd = Some [h1; h2; h3; h4; h5] ->
        Forall (fun h => Md.type h = MdNodeType.heading) [h1; h2; h3; h4; h5] ->
        Md.depth <$> [h1; h2; h3; h4; h5]
          = [Some 1; Some 2; Some 3; Some 2; Some 1] ->
        markdownToJson' parsedMd page k = Returns out k' ->
        exists n1 s1 n2 s2 n3 s3 n4 s4 n5 s5,
          out = (n1 :: s1) ++ (n2 :: s2) ++ (n3 :: s3) ++ (n4 :: s4) ++ n5 :: s5
          /\ PN.parentId n1 = None
          /\ PN.parentId n2 = Some (PN.id n1)
          /\ PN.parentId n3 = Some (PN.id n2)
          /\ PN.parentId n4 = Some (PN.id n1)
          /\ (PN.id n1 <> PN.id n2 -> PN.parentId n4 <> Some (PN.id n2))
          /\ PN.parentId n5 = None)
  /\ (forall (page : Z) (k : nat) (t1 t2 t3 t4 t5 : string),
        exists n1 n2 n3 n4 n5 k',
          markdownToJson'
            (Mdast.root
               [Mdast.heading 1 [Mdast.text t1]; Mdast.heading 2 [Mdast.text t2];
                Mdast.heading 3 [Mdast.text t3]; Mdast.heading 2 [Mdast.text t4];
                Mdast.heading 1 [Mdast.text t5]])
            page k
          = Returns [n1; n2; n3; n4; n5] k'
          /\ PN.parentId n1 = None
          /\ PN.parentId n2 = Some (PN.id n1)
          /\ PN.parentId n3 = Some (PN.id n2)
          /\ PN.parentId n4 = Some (PN.id n1)
          /\ (PN.id n1 <> PN.id n2 -> PN.parentId n4 <> Some (PN.id n2))
          /\ PN.parentId n5 = None).
Proof.
  split; [|split].
  - intros sourceNode stack d Htype Hdepth Hguard.
    unfold closeHeadings. rewrite Htype, Hdepth. cbn [String.eqb js_le andb].
    rewrite String.eqb_refl. cbn [andb].
    destruct (Z.leb_spec d (topDepth stack)) as [_|Hlt]; [|lia].
    now apply popHeadings_spec.
  - intros parsedMd h1 h2 h3 h4 h5 page k k' out Hcs Htypes Hdepths H.
    apply Forall_cons in Htypes as [Ht1 Htypes].
    apply Forall_cons in Htypes as [Ht2 Htypes].
    apply Forall_cons in Htypes as [Ht3 Htypes].
    apply Forall_cons in Htypes as [Ht4 Htypes].
    apply Forall_cons in Htypes as [Ht5 _].
    injection Hdepths as Hd1 Hd2 Hd3 Hd4 Hd5.
    unfold markdownToJson, with_children in H. rewrite Hcs in H.
    apply bind_Returns in H as (st & k0 & Hloop & H).
    apply ret_Returns in H as [-> _]. cbn [forEachM] in Hloop.
    apply bind_Returns in Hloop as (st1 & j1 & Hstep1 & Hloop).
    apply (markdownToJson_step_heading _ _ _ _ _ _ _ Ht1) in Hstep1
      as (n1 & s1 & -> & Hp1).
    apply bind_Returns in Hloop as (st2 & j2 & Hstep2 & Hloop).
    apply (markdownToJson_step_heading _ _ _ _ _ _ _ Ht2) in Hstep2
      as (n2 & s2 & -> & Hp2).
    apply bind_Returns in Hloop as (st3 & j3 & Hstep3 & Hloop).
    apply (markdownToJson_step_heading _ _ _ _ _ _ _ Ht3) in Hstep3
      as (n3 & s3 & -> & Hp3).
    apply bind_Returns in Hloop as (st4 & j4 & Hstep4 & Hloop).
    apply (markdownToJson_step_heading _ _ _ _ _ _ _ Ht4) in Hstep4
      as (n4 & s4 & -> & Hp4).
    apply bind_Returns in Hloop as (st5 & j5 & Hstep5 & Hloop).
    apply (markdownToJson_step_heading _ _ _ _ _ _ _ Ht5) in Hstep5
      as (n5 & s5 & -> & Hp5).
    apply ret_Returns in Hloop as [-> _].
    destruct h1 as [? ? ? ?], h2 as [? ? ? ?], h3 as [? ? ? ?],
      h4 as [? ? ? ?], h5 as [? ? ? ?].
    cbn in Ht1, Ht2, Ht3, Ht4, Ht5, Hd1, Hd2, Hd3, Hd4, Hd5. subst.
    cbn in Hp1, Hp2, Hp3, Hp4, Hp5.
    exists n1, s1, n2, s2, n3, s3, n4, s4, n5, s5. cbn [snd].
    split; [now rewrite <- !app_assoc|].
    repeat split; auto.
    intros Hne Heq. rewrite Hp4 in Heq. injection Heq as Heq. now apply Hne.
  - intros page k t1 t2 t3 t4 t5.
    do 6 eexists. split; [reflexivity|]. cbn.
    repeat split; try reflexivity.
    intros Hne [= Heq]. now apply Hne.
Qed.

(** *** List items are never dropped *)

Lemma wellFormed_eq (node : MdNode) :
  wellFormed node =
    if has literals (Md.type node) then true
    else if String.eqb (Md.type node) "literal" then true
    else if has ignoreNodeTypes (Md.type node)
            && negb (has nodeProcessors_keys (Md.type node)) then true
    else match Md.children node with
         | Some cs => forallb wellFormed cs
         | None => false
         end.
Proof. destruct node; reflexivity. Qed.

(** [processNode] returns on [node], whatever the call. *)
Local Abbreviation total :=
  (fun node : MdNode =>
     forall page parentId k,
       exists r k', processNode' node page parentId k = Returns r k').

Lemma mapM_total (page : Z) (cs : list MdNode) :
  Forall total cs ->
  forall k, exists rs k',
    mapM (fun childNode => processNode' childNode page None) cs k
      = Returns rs k'.
Proof.
  induction 1 as [|c cs Hc Hcs IH]; intros k; cbn [mapM].
  - eexists. eexists. reflexivity.
  - destruct (Hc page None k) as (r & k1 & Hr).
    destruct (IH k1) as (rs & k2 & Hrs).
    exists (r :: rs), k2. unfold bind. rewrite Hr, Hrs. reflexivity.
Qed.

Lemma processListItem_step_total (page : Z) (childNode : MdNode)
    (st : option ProcessedNode * list ProcessedNode) (k : nat) :
  total childNode ->
  exists st' k',
    processListItem_step' processNode' page st childNode k = Returns st' k'.
Proof.
  intros Hc. destruct st as [newNode sibs]. unfold processListItem_step.
  destruct (negb (Md.type childNode =? MdNodeType.list)%string).
  - destruct (Hc page None k) as (r & k1 & Hr). unfold bind. rewrite Hr.
    destruct r; eexists; eexists; reflexivity.
  - destruct newNode as [n|].
    + destruct (Hc page (Some (PN.id n)) k) as (r & k1 & Hr).
      unfold bind. cbn. rewrite Hr. destruct r; eexists; eexists; reflexivity.
    + destruct (Hc page (Some (nanoid k)) (S k)) as (r & k1 & Hr).
      unfold bind. cbn. rewrite Hr. destruct r; eexists; eexists; reflexivity.
Qed.

Lemma forEachM_step_total (page : Z) (cs : list MdNode) :
  Forall total cs ->
  forall st k, exists st' k',
    forEachM (processListItem_step' processNode' page) cs st k = Returns st' k'.
Proof.
  induction 1 as [|c cs Hc Hcs IH]; intros st k; cbn [forEachM].
  - eexists. eexists. reflexivity.
  - destruct (processListItem_step_total page c st k Hc) as (st1 & k1 & Hst).
    destruct (IH st1 k1) as (st2 & k2 & Hst2).
    exists st2, k2. unfold bind. rewrite Hst. exact Hst2.
Qed.

(** On a well-formed tree [processNode] returns. *)
Lemma processNode_total (node : MdNode) : wellFormed node = true -> total node.
Proof.
  induction node as [node IH] using MdNode_children_ind.
  intros Hwf page parentId k. rewrite wellFormed_eq in Hwf.
  assert (Hdispatch : exists result k1,
            (if has literals (Md.type node) then
               let* r := nodeProcessors_literal node in ret (Some r)
             else if has nodeProcessors_keys (Md.type node) then
               let* r := nodeProcessors_at' processNode' (Md.type node) node page in
               ret (Some r)
             else if negb (has ignoreNodeTypes (Md.type node)) then
               let* r := nodeProcessors_parent processNode' node page in
               ret (Some r)
             else ret None) k = Returns result k1).
  { destruct (has literals (Md.type node)); [eexists; eexists; reflexivity|].
    unfold nodeProcessors_at.
    destruct (Md.type node =? "literal")%string eqn:Hliteral.
    { apply String.eqb_eq in Hliteral. rewrite Hliteral. cbn.
      eexists; eexists; reflexivity. }
    destruct (has nodeProcessors_keys (Md.type node)) eqn:Hkeys;
      [rewrite Bool.andb_false_r in Hwf
      |destruct (has ignoreNodeTypes (Md.type node));
       [eexists; eexists; reflexivity | cbn [andb negb] in Hwf]].
    all: unfold nodeProcessors_list, nodeProcessors_listItem,
           nodeProcessors_parent, processListItem_with, with_children.
    all: destruct (Md.children node) as [cs|]; [|discriminate].
    all: assert (Htotal : Forall total cs)
           by (specialize (IH cs eq_refl);
               rewrite forallb_forall in Hwf;
               apply Forall_forall; intros c Hc;
               rewrite Forall_forall in IH;
               apply (IH c Hc), Hwf, (proj1 (list_elem_of_In _ _)), Hc).
    all: destruct (mapM_total page cs Htotal k) as (rs & k1 & Hrs).
    all: destruct (forEachM_step_total page cs Htotal (None, []) k)
           as (st & k2 & Hst).
    all: unfold bind; rewrite ?Hrs.
    all: repeat match goal with
                | |- context [if ?b then _ else _] => destruct b
                end.
    all: rewrite ?Hrs, ?Hst.
    all: eexists; eexists; reflexivity. }
  destruct Hdispatch as (result & k1 & Hd).
  rewrite processNode_eq. unfold bind at 1. rewrite Hd.
  destruct result as [[value siblingNodes]|]; eexists; eexists; reflexivity.
Qed.

(** A list item whose children are all ignored merges nothing. *)
Lemma processListItem_ignored_children (page : Z) (cs : list MdNode) (k : nat) :
  Forall (fun c => has ignoreNodeTypes (Md.type c) = true) cs ->
  forEachM (processListItem_step' processNode' page) cs (None, []) k
    = Returns (None, []) k.
Proof.
  induction 1 as [|c cs Hc Hcs IH]; [reflexivity|].
  cbn [forEachM]. unfold bind at 1, processListItem_step.
  assert (Hlist : (Md.type c =? MdNodeType.list)%string = false).
  { apply String.eqb_neq. intros Heq. rewrite Heq in Hc. discriminate. }
  rewrite Hlist. cbn [negb]. unfold bind at 1.
  rewrite (processNode_ignored c page None k Hc). exact IH.
Qed.

Lemma processNode_listItem_ignored_children (item : MdNode)
    (cs : list MdNode) (page : Z) (parentId : option string) (k : nat) :
  Md.type item = MdNodeType.listItem ->
  Md.children item = Some cs ->
  Forall (fun c => has ignoreNodeTypes (Md.type c) = true) cs ->
  processNode' item page parentId k =
    Returns
      (Some {| mainNode :=
                 PN.mkProcessedNode (nanoid k) (Some page) parentId
                   (typeOf' MdNodeType.listItem) VUndefined;
               siblings := [] |})
      (S k).
Proof.
  intros Htype Hcs Hign. rewrite processNode_eq, Htype.
  change (has literals MdNodeType.listItem) with false.
  change (has nodeProcessors_keys MdNodeType.listItem) with true.
  change (nodeProcessors_at' processNode' MdNodeType.listItem item page)
    with (nodeProcessors_listItem' processNode' item page).
  unfold nodeProcessors_listItem, processListItem_with, with_children.
  rewrite Hcs. unfold bind.
  rewrite (processListItem_ignored_children page cs k Hign). reflexivity.
Qed.

Lemma gatherValue_all_Some (rs : list (option NodeResult)) :
  Forall (fun r => r <> None) rs ->
  gatherValue rs =
    (fun r => match r with
              | Some r => PN.value (mainNode r)
              | None => VUndefined
              end) <$> rs.
Proof.
  induction 1 as [|r rs Hr Hrs IH]; [reflexivity|].
  destruct r as [r|]; [|contradiction].
  unfold gatherValue in *. cbn. now rewrite IH.
Qed.


End FlattenFacts.


(** On the bare nested list the merged node is held by the value of the
    list node, the first element of the sequence. *)
Example nestedList_parent_held_in_value :
  exists listNode subList k' merged,
    markdownToJson Sample.nanoid Sample.ConvertedNodeType Sample.nestedList 1
      0%nat
    = Returns [listNode; subList] k'
    /\ PN.value listNode = VArray [VObject merged]
    /\ PN.parentId subList = Some (PN.id merged)
    /\ ~ parentsEmitted [listNode; subList].
Proof.
  do 4 eexists. split; [vm_compute; reflexivity|].
  split; [reflexivity|]. split; [reflexivity|].
  intros H.
  destruct (H 1%nat _ _ eq_refl eq_refl) as (j & h & Hj & Hh & Hid).
  destruct j as [|[|j]]; [| |lia]; cbn in Hh; injection Hh as <-;
    vm_compute in Hid; discriminate.
Qed.


Lemma closeHeadings_pops_to_shallower_witness :
  closeHeadings (Mdast.heading 2 []) Sample.openHeadings
    = [mkParentId "a" (Some 1)]
  /\ exists popped,
       Sample.openHeadings
         = popped ++ closeHeadings (Mdast.heading 2 []) Sample.openHeadings
       /\ (Sample.openHeadings <> [] -> popped <> [])
       /\ Forall (fun e => 2 <= or0 (pid_depth e)) popped
       /\ (closeHeadings (Mdast.heading 2 []) Sample.openHeadings = []
           \/ topDepth (closeHeadings (Mdast.heading 2 []) Sample.openHeadings)
              < 2).
Proof.
  split; [reflexivity|].
  apply (proj1 (closeHeadings_pops_to_shallower Sample.nanoid
                  Sample.ConvertedNodeType));
    [reflexivity | reflexivity | cbn; lia].
Defined.

Lemma markdownToJson_ignored_only_witness :
  (forall c parentId j,
      c ∈ [Mdast.image; Mdast.thematicBreak] ->
      processNode Sample.nanoid Sample.ConvertedNodeType c 1 parentId j
      = Returns None j)
  /\ markdownToJson Sample.nanoid Sample.ConvertedNodeType
       (Mdast.root [Mdast.image; Mdast.thematicBreak]) 1 0%nat
     = Returns [] 0%nat.
Proof.
  apply (markdownToJson_ignored_only Sample.nanoid Sample.ConvertedNodeType
           (Mdast.root [Mdast.image; Mdast.thematicBreak])
           [Mdast.image; Mdast.thematicBreak] 1 0%nat).
  - reflexivity.
  - repeat constructor.
Defined.




(** A list of two items, the second holding only an image: its value has
    [undefined] in the second position. *)
Example list_value_with_undefined_entry :
  exists r k' first,
    processNode Sample.nanoid Sample.ConvertedNodeType
      (Mdast.list [Mdast.listItem [Mdast.paragraph [Mdast.text "a"]];
                   Mdast.listItem [Mdast.image]]) 1 None 0%nat
    = Returns (Some r) k'
    /\ PN.value (mainNode r) = VArray [VObject first; VUndefined].
Proof. do 3 eexists. split; [vm_compute; reflexivity | reflexivity]. Qed.

(** With confidences 70, 80, 80, 30 the tie between 90 and 180 goes to
    90, the earlier candidate. *)
Example reduce_tie_goes_to_first :
  reduce better
    ((fun r => mkRotationTrial r (Sample.table 70 80 80 30 r)) <$> rotations)
  = Normal (mkRotationTrial 90 80).
Proof. reflexivity. Qed.

(** ** More on the orientation code *)

(** X8. The crop of [getTextFromImage] for an image of known width: 150
    wide from the top edge; on an image at least that wide it lies inside
    the image, centred to the pixel; on a narrower image it starts at the
    left edge and is wider than the image. *)
Theorem cropRegion_centered (metadata : Metadata) (w : Z) :
  width metadata = Some w ->
  exists l,
    left (cropRegion metadata) = Some l
    /\ 0 <= l
    /\ (150 <= w -> l + 150 <= w /\ 0 <= (w - (l + 150)) - l <= 1)
    /\ (w < 150 -> l = 0)
    /\ region_width (cropRegion metadata) = 150
    /\ top (cropRegion metadata) = 0
    /\ region_height (cropRegion metadata)
       = match height metadata with Some h => h | None => 0 end.
Proof.
  intros Hw. unfold cropRegion. rewrite Hw. cbn.
  eexists. split; [reflexivity|].
  repeat split; try lia;
    intros; Z.to_euclidean_division_equations; lia.
Qed.

Section OrientationMore.

Variables Buffer Image : Type.
Variable sharp_metadata : Buffer -> Completion Metadata.
Variable sharp_extract : Buffer -> Region -> Completion Buffer.
Variable Tesseract_recognize : Buffer -> Completion Z.
Variable sharp_rotate : Image -> Z -> Completion Buffer.

Local Abbreviation getTextFromImage' :=
  (getTextFromImage Buffer sharp_metadata sharp_extract Tesseract_recognize).
Local Abbreviation trial' :=
  (trial Buffer Image sharp_metadata sharp_extract Tesseract_recognize
     sharp_rotate).
Local Abbreviation determineOptimalRotation' :=
  (determineOptimalRotation Buffer Image sharp_metadata sharp_extract
     Tesseract_recognize sharp_rotate).

(** Only [ReorientingImage] is not an OCR error line. *)
Local Abbreviation ocrLines :=
  (Forall (fun line => exists e, line = ErrorDuringOCR e)).

Lemma trial_cases (image : Image) (r : Z) :
  (exists e, sharp_rotate image r = Abrupt e /\ trial' image r = ([], Abrupt e))
  \/ (exists b out c,
        sharp_rotate image r = Normal b
        /\ trial' image r = (out, Normal (mkRotationTrial r c))
        /\ ocrLines out).
Proof.
  unfold trial. destruct (sharp_rotate image r) as [b|e]; [right | left; eauto].
  destruct (getTextFromImage_cases Buffer sharp_metadata sharp_extract
              Tesseract_recognize b)
    as [(m & cb & c & _ & _ & _ & Hres)|[_ [e Hres]]].
  - exists b, [], c. cbn. rewrite Hres. cbn. repeat split; constructor.
  - exists b, [ErrorDuringOCR e], 0. cbn. rewrite Hres. cbn.
    repeat split. repeat constructor. eauto.
Qed.

(** X9. [determineOptimalRotation] resolves exactly when all four
    rotations of the image succeed: a failing [rotate] is outside the
    [try] of [getTextFromImage] and rejects the whole call.  When it
    resolves, the result is 0, 90, 180 or 270, and the console got, after
    the OCR errors of the trials, the reorienting line exactly when the
    result is not 0. *)
Theorem determineOptimalRotation_resolves (image : Image) :
  ((exists r, snd (determineOptimalRotation' image) = Normal r)
   <-> forall r, r ∈ rotations -> exists b, sharp_rotate image r = Normal b)
  /\ forall out r,
       determineOptimalRotation' image = (out, Normal r) ->
       r ∈ rotations
       /\ exists errors,
            ocrLines errors
            /\ out = errors ++ (if r =? 0 then []
                                else [ReorientingImage r
                                        (match snd (trial' image r) with
                                         | Normal t => confidence t
                                         | Abrupt _ => 0
                                         end)]).
Proof.
  unfold determineOptimalRotation, rotations. cbn [all].
  destruct (trial_cases image 0) as [(e0 & Hr0 & Ht0)|(b0 & o0 & c0 & Hr0 & Ht0 & Ho0)];
  [|destruct (trial_cases image 90) as [(e1 & Hr1 & Ht1)|(b1 & o1 & c1 & Hr1 & Ht1 & Ho1)];
   [|destruct (trial_cases image 180) as [(e2 & Hr2 & Ht2)|(b2 & o2 & c2 & Hr2 & Ht2 & Ho2)];
    [|destruct (trial_cases image 270) as [(e3 & Hr3 & Ht3)|(b3 & o3 & c3 & Hr3 & Ht3 & Ho3)]]]].
  1-4: rewrite ?Ht0, ?Ht1, ?Ht2, ?Ht3; cbn; split;
    [split; [intros [r [=]]|]|intros out r [=]].
  1-4: intros Hall.
  1: destruct (Hall 0 ltac:(repeat constructor)) as [b Hb]; congruence.
  1: destruct (Hall 90 ltac:(repeat constructor)) as [b Hb]; congruence.
  1: destruct (Hall 180 ltac:(repeat constructor)) as [b Hb]; congruence.
  1: destruct (Hall 270 ltac:(repeat constructor)) as [b Hb]; congruence.
  assert (Hall : forall r, r ∈ [0; 90; 180; 270] ->
                  exists b, sharp_rotate image r = Normal b).
  { intros r Hr. repeat (apply elem_of_cons in Hr as [->|Hr]); eauto.
    now apply elem_of_nil in Hr. }
  assert (Herrors : ocrLines (o0 ++ o1 ++ o2 ++ o3))
    by (repeat (apply Forall_app; split); assumption).
  pose proof Ht0 as Ht0'. pose proof Ht1 as Ht1'.
  pose proof Ht2 as Ht2'. pose proof Ht3 as Ht3'.
  rewrite Ht0, Ht1, Ht2, Ht3. cbn [andThen pure await reduce fold_left].
  set (best := better (better (better _ _) _) _).
  assert (Hbest : best = mkRotationTrial 0 c0 \/ best = mkRotationTrial 90 c1
                  \/ best = mkRotationTrial 180 c2
                  \/ best = mkRotationTrial 270 c3).
  { subst best.
    destruct (better_cases (mkRotationTrial 0 c0) (mkRotationTrial 90 c1))
      as [[-> _]|[-> _]];
    match goal with
    | |- context [better ?b (mkRotationTrial 180 c2)] =>
        destruct (better_cases b (mkRotationTrial 180 c2)) as [[-> _]|[-> _]]
    end;
    match goal with
    | |- context [better ?b (mkRotationTrial 270 c3)] =>
        destruct (better_cases b (mkRotationTrial 270 c3)) as [[-> _]|[-> _]]
    end; auto. }
  clearbody best.
  destruct Hbest as [-> | [-> | [-> | ->] ] ]; cbn [rotation confidence];
    match goal with
    | |- context [(?c >=? MIN_ROTATION_CONFIDENCE) && negb (?r =? 0)] =>
        destruct ((c >=? MIN_ROTATION_CONFIDENCE) && negb (r =? 0)) eqn:Hgate
    end;
    try (cbn [Z.eqb negb] in Hgate; rewrite andb_false_r in Hgate; discriminate Hgate);
    cbn [andThen pure console fst snd app];
    (split; [split; [intros _; exact Hall | intros _; eexists; reflexivity]|]);
    intros out r [= <- <-];
    (split; [once (repeat constructor)|]);
    exists (o0 ++ o1 ++ o2 ++ o3);
    (split; [exact Herrors|]);
    rewrite ?Ht1', ?Ht2', ?Ht3'; cbn [snd confidence Z.eqb];
    rewrite ?app_nil_r, <- ?app_assoc; reflexivity.
Qed.

End OrientationMore.

(** ** [formatMarkdown] *)

(** [s] does not begin with whitespace. *)
Local Abbreviation cleanFront :=
  (fun s : JsString => forall c, head s = Some c -> isWhiteSpace c = false).

Lemma dropWhile_split {A} (f : A -> bool) (l : list A) :
  exists pre,
    l = pre ++ dropWhile f l
    /\ Forall (fun x => f x = true) pre
    /\ forall x, head (dropWhile f l) = Some x -> f x = false.
Proof.
  induction l as [|x l (pre & Hsplit & Hpre & Hhead)]; cbn.
  - exists []. repeat split; [constructor | discriminate].
  - destruct (f x) eqn:Hx.
    + exists (x :: pre). cbn. rewrite <- Hsplit. repeat split; auto.
    + exists []. repeat split; [constructor|]. cbn. congruence.
Qed.

Lemma dropWhile_app_all {A} (f : A -> bool) (pre l : list A) :
  Forall (fun x => f x = true) pre -> dropWhile f (pre ++ l) = dropWhile f l.
Proof. induction 1 as [|x pre Hx _ IH]; cbn; [reflexivity | now rewrite Hx]. Qed.

Lemma dropWhile_clean {A} (f : A -> bool) (l : list A) :
  (forall x, head l = Some x -> f x = false) -> dropWhile f l = l.
Proof.
  destruct l as [|x l]; [reflexivity|]. cbn. intros H.
  now rewrite (H x eq_refl).
Qed.

Lemma trim_clean (s : JsString) :
  cleanFront (trim s) /\ cleanFront (reverse (trim s)).
Proof.
  unfold trim.
  destruct (dropWhile_split isWhiteSpace s) as (pre & _ & _ & Ha).
  set (a := dropWhile isWhiteSpace s) in *.
  destruct (dropWhile_split isWhiteSpace (reverse a)) as (pre' & Hsplit & _ & Hb).
  set (b := dropWhile isWhiteSpace (reverse a)) in *.
  split; [|now rewrite reverse_involutive].
  intros c Hc. apply Ha.
  apply (f_equal reverse) in Hsplit.
  rewrite reverse_involutive, reverse_app in Hsplit. rewrite Hsplit.
  destruct (reverse b); [discriminate | exact Hc].
Qed.

Lemma trim_fixed (s : JsString) :
  cleanFront s -> cleanFront (reverse s) -> trim s = s.
Proof.
  intros Hfront Hback. unfold trim.
  rewrite (dropWhile_clean _ s Hfront), (dropWhile_clean _ _ Hback).
  apply reverse_involutive.
Qed.

Lemma trim_fixed_iff (s : JsString) :
  trim s = s <-> cleanFront s /\ cleanFront (reverse s).
Proof.
  split; [intros <-; apply trim_clean | intros []; now apply trim_fixed].
Qed.

(** Whitespace around a trimmed string is what [trim] removes. *)
Lemma trim_surrounded (ws1 x ws2 : JsString) :
  Forall (fun c => isWhiteSpace c = true) ws1 ->
  Forall (fun c => isWhiteSpace c = true) ws2 ->
  trim x = x -> trim (ws1 ++ x ++ ws2) = x.
Proof.
  intros H1 H2 Hx. apply trim_fixed_iff in Hx as [Hfront Hback].
  unfold trim. rewrite dropWhile_app_all by exact H1.
  destruct x as [|c x].
  - cbn [app]. assert (Hall : dropWhile isWhiteSpace ws2 = []).
    { rewrite <- (app_nil_r ws2), dropWhile_app_all by exact H2. reflexivity. }
    rewrite Hall. reflexivity.
  - rewrite (dropWhile_clean _ ((c :: x) ++ ws2))
      by (cbn; intros ? [= <-]; now apply Hfront).
    rewrite reverse_app, dropWhile_app_all
      by (apply Forall_reverse; exact H2).
    rewrite (dropWhile_clean _ _ Hback). apply reverse_involutive.
Qed.

Lemma trim_infix (s : JsString) : exists pre post, s = pre ++ trim s ++ post.
Proof.
  unfold trim.
  destruct (dropWhile_split isWhiteSpace s) as (pre & Hs & _).
  set (a := dropWhile isWhiteSpace s) in *.
  destruct (dropWhile_split isWhiteSpace (reverse a)) as (post & Ha & _).
  exists pre, (reverse post).
  rewrite <- reverse_app, <- Ha, reverse_involutive. exact Hs.
Qed.

Lemma startsWith_app (p rest : JsString) : startsWith (p ++ rest) p = true.
Proof. unfold startsWith. rewrite take_app_length. now apply bool_decide_eq_true. Qed.

Lemma endsWith_app (pre p : JsString) : endsWith (pre ++ p) p = true.
Proof.
  unfold endsWith. rewrite length_app.
  replace (length pre + length p - length p)%nat with (length pre) by lia.
  rewrite drop_app_length. now apply bool_decide_eq_true.
Qed.

(** The regular expression matches exactly the fenced strings, and its
    group is the body. *)
Lemma outermostBlock_Some (s group : JsString) :
  outermostBlock s = Some group <-> s = wrapFence group.
Proof.
  unfold outermostBlock, wrapFence. split.
  - destruct (startsWith s (fenceOpen ++ [10%N])) eqn:Hstart; [|discriminate].
    destruct (endsWith _ (10%N :: fenceClose)) eqn:Hend; [|discriminate].
    cbn [andb]. intros [= <-].
    apply bool_decide_eq_true in Hstart, Hend.
    rewrite <- (take_drop (length (fenceOpen ++ [10%N])) s) at 1.
    rewrite Hstart, <- app_assoc. do 2 f_equal.
    set (rest := drop (length (fenceOpen ++ [10%N])) s) in *.
    rewrite <- (take_drop (length rest - length (10%N :: fenceClose)) rest) at 1.
    rewrite Hend. reflexivity.
  - intros ->.
    rewrite (app_assoc fenceOpen [10%N]), startsWith_app, drop_app_length.
    change ([10%N] ++ fenceClose) with (10%N :: fenceClose).
    rewrite endsWith_app. cbn [andb]. f_equal.
    rewrite length_app.
    replace (length group + length (10%N :: fenceClose)
             - length (10%N :: fenceClose))%nat
      with (length group) by lia.
    apply take_app_length.
Qed.

Lemma wrapFence_trimmed (body : JsString) : trim (wrapFence body) = wrapFence body.
Proof.
  apply trim_fixed.
  - intros c [= <-]. reflexivity.
  - unfold wrapFence. rewrite !reverse_app. intros c [= <-]. reflexivity.
Qed.

Lemma iter_wrapFence_trimmed (n : nat) (body : JsString) :
  trim body = body -> trim (Nat.iter n wrapFence body) = Nat.iter n wrapFence body.
Proof. destruct n; [auto | intros _; apply wrapFence_trimmed]. Qed.

Lemma formatMarkdown_loop_unwraps (body : JsString) :
  trim body = body ->
  (forall g, body <> wrapFence g) ->
  forall remaining n flag,
    (flag = false -> n = 0%nat) ->
    formatMarkdown_loop remaining flag (Nat.iter n wrapFence body)
    = Nat.iter (n - remaining) wrapFence body.
Proof.
  intros Htrim Hplain. induction remaining as [|remaining IH]; intros n flag Hflag.
  - now rewrite Nat.sub_0_r.
  - cbn [formatMarkdown_loop]. destruct flag.
    + destruct n as [|n]; cbn [andb].
      * change (Nat.iter 0 wrapFence body) with body.
        destruct (endsWith body fenceClose); [|reflexivity].
        destruct (outermostBlock body) as [g|] eqn:Hg; [|reflexivity].
        apply outermostBlock_Some in Hg. now apply Hplain in Hg.
      * change (Nat.iter (S n) wrapFence body)
          with (wrapFence (Nat.iter n wrapFence body)).
        assert (Hends : endsWith (wrapFence (Nat.iter n wrapFence body)) fenceClose
                        = true).
        { unfold wrapFence. rewrite !app_assoc. apply endsWith_app. }
        rewrite Hends.
        rewrite (proj2 (outermostBlock_Some _ _) eq_refl).
        rewrite iter_wrapFence_trimmed by exact Htrim.
        rewrite IH by discriminate. reflexivity.
    + rewrite (Hflag eq_refl). reflexivity.
Qed.

(** X3. A body fenced up to three times, with whitespace around the whole,
    comes back bare; of more fences, three are removed. *)
Theorem formatMarkdown_unwraps (body ws1 ws2 : JsString) (n : nat) :
  trim body = body ->
  (forall g, body <> wrapFence g) ->
  Forall (fun c => isWhiteSpace c = true) ws1 ->
  Forall (fun c => isWhiteSpace c = true) ws2 ->
  formatMarkdown (Some (ws1 ++ Nat.iter n wrapFence body ++ ws2))
  = Normal (Nat.iter (n - 3) wrapFence body).
Proof.
  intros Htrim Hplain H1 H2. unfold formatMarkdown.
  rewrite trim_surrounded by auto using iter_wrapFence_trimmed.
  f_equal. apply formatMarkdown_loop_unwraps; auto.
  intros Hflag. destruct n as [|n]; [reflexivity|].
  change (Nat.iter (S n) wrapFence body)
    with (wrapFence (Nat.iter n wrapFence body)) in Hflag.
  unfold wrapFence in Hflag.
  rewrite startsWith_app in Hflag. discriminate.
Qed.

Lemma formatMarkdown_loop_infix (remaining : nat) (flag : bool) (s : JsString) :
  trim s = s ->
  trim (formatMarkdown_loop remaining flag s) = formatMarkdown_loop remaining flag s
  /\ exists pre post, s = pre ++ formatMarkdown_loop remaining flag s ++ post.
Proof.
  revert s. induction remaining as [|remaining IH]; intros s Hs;
    cbn [formatMarkdown_loop].
  - split; [exact Hs|]. exists [], []. now rewrite app_nil_r.
  - assert (Hsame : trim s = s /\ exists pre post, s = pre ++ s ++ post)
      by (split; [exact Hs|]; exists [], []; now rewrite app_nil_r).
    destruct flag; [|exact Hsame]. cbn [andb].
    destruct (endsWith s fenceClose); [|exact Hsame].
    destruct (outermostBlock s) as [g|] eqn:Hg; [|exact Hsame].
    assert (Hidem : trim (trim g) = trim g).
    { apply trim_fixed_iff, trim_clean. }
    destruct (IH (trim g) Hidem) as [Hclean (pre & post & Hin)].
    split; [exact Hclean|].
    apply outermostBlock_Some in Hg.
    destruct (trim_infix g) as (pre' & post' & Hg').
    exists (fenceOpen ++ [10%N] ++ pre' ++ pre),
      (post ++ post' ++ [10%N] ++ fenceClose).
    rewrite Hg. unfold wrapFence. rewrite Hg' at 1. rewrite Hin at 1.
    now rewrite <- !app_assoc.
Qed.

(** X4. Whatever [formatMarkdown] returns is a piece of its input, cut out
    in one stretch, that neither begins nor ends with whitespace; and a
    missing text is a [TypeError]. *)
Theorem formatMarkdown_piece_of_input (text : JsString) :
  (exists e, formatMarkdown None = Abrupt e)
  /\ exists r pre post,
       formatMarkdown (Some text) = Normal r
       /\ text = pre ++ r ++ post
       /\ trim r = r.
Proof.
  split; [eexists; reflexivity|]. unfold formatMarkdown.
  assert (Hidem : trim (trim text) = trim text).
  { apply trim_fixed_iff, trim_clean. }
  destruct (formatMarkdown_loop_infix 3 (startsWith (trim text) fenceOpen)
              (trim text) Hidem) as [Hclean (pre & post & Hin)].
  destruct (trim_infix text) as (pre' & post' & Htext).
  eexists. exists (pre' ++ pre), (post ++ post').
  split; [reflexivity|]. split; [|exact Hclean].
  rewrite Htext at 1. rewrite Hin at 1. now rewrite <- !app_assoc.
Qed.

(** ** Snake-case keys *)

Lemma isUpper_spec (c : N) : isUpper c = true <-> (65 <= c <= 90)%N.
Proof.
  unfold isUpper. rewrite andb_true_iff, !N.leb_le. reflexivity.
Qed.

Lemma camelToSnakeCase_cons (c : N) (str : JsString) :
  camelToSnakeCase (c :: str) =
    (if isUpper c then [95%N; (c + 32)%N] else [c]) ++ camelToSnakeCase str.
Proof. reflexivity. Qed.

Lemma camelToSnakeCase_lower (str : JsString) :
  Forall (fun c => isUpper c = false) str -> camelToSnakeCase str = str.
Proof.
  induction 1 as [|c str Hc Hstr IH]; [reflexivity|].
  rewrite camelToSnakeCase_cons, Hc, IH. reflexivity.
Qed.

(** X10. The result of [camelToSnakeCase] holds no letter from A to Z, a
    second pass changes nothing, and each such letter of the input costs one
    more code unit. *)
Theorem camelToSnakeCase_lowers (str : JsString) :
  Forall (fun c => isUpper c = false) (camelToSnakeCase str)
  /\ camelToSnakeCase (camelToSnakeCase str) = camelToSnakeCase str
  /\ length (camelToSnakeCase str)
     = (length str + length (filter (fun c => isUpper c = true) str))%nat.
Proof.
  assert (Hlow : Forall (fun c => isUpper c = false) (camelToSnakeCase str)).
  { induction str as [|c str IH]; [constructor|].
    rewrite camelToSnakeCase_cons. apply Forall_app. split; [|exact IH].
    destruct (isUpper c) eqn:Hc.
    - apply isUpper_spec in Hc. repeat constructor.
      apply not_true_is_false. rewrite isUpper_spec. lia.
    - repeat constructor. exact Hc. }
  split; [exact Hlow|]. split; [now apply camelToSnakeCase_lower|].
  induction str as [|c str IH]; [reflexivity|].
  rewrite camelToSnakeCase_cons, length_app, filter_cons.
  destruct (isUpper c) eqn:Hc.
  - rewrite decide_True by reflexivity. cbn [length].
    rewrite camelToSnakeCase_cons, Hc in Hlow.
    apply Forall_app in Hlow as [_ Hlow]. rewrite (IH Hlow). lia.
  - rewrite decide_False by discriminate. cbn [length].
    rewrite camelToSnakeCase_cons, Hc in Hlow.
    apply Forall_app in Hlow as [_ Hlow]. rewrite (IH Hlow). lia.
Qed.

Lemma camelToSnakeCase_injective (s t : JsString) :
  95%N ∉ s -> 95%N ∉ t ->
  camelToSnakeCase s = camelToSnakeCase t -> s = t.
Proof.
  revert t. induction s as [|c s IH]; intros [|d t] Hs Ht Heq.
  - reflexivity.
  - rewrite camelToSnakeCase_cons in Heq. cbn in Heq.
    destruct (isUpper d); discriminate.
  - rewrite camelToSnakeCase_cons in Heq. cbn in Heq.
    destruct (isUpper c); discriminate.
  - rewrite !camelToSnakeCase_cons in Heq.
    apply not_elem_of_cons in Hs as [Hc Hs].
    apply not_elem_of_cons in Ht as [Hd Ht].
    destruct (isUpper c) eqn:Huc, (isUpper d) eqn:Hud; cbn in Heq.
    + injection Heq as Hcd Heq. f_equal; [lia | now apply IH].
    + injection Heq as Hcd _. congruence.
    + injection Heq as Hcd _. congruence.
    + injection Heq as Hcd Heq. f_equal; [exact Hcd | now apply IH].
Qed.

(** With underscores two keys can meet: [aB] and [a_b]. *)
Example camelToSnakeCase_collision :
  camelToSnakeCase (lit "aB") = camelToSnakeCase (lit "a_b")
  /\ lit "aB" <> lit "a_b".
Proof. split; [reflexivity | discriminate]. Qed.

Lemma fromEntries_snoc {K} `{Countable K} {V} (l : list (K * V)) (k : K) (v : V) :
  fromEntries (l ++ [(k, v)]) = <[k:=v]> (fromEntries l).
Proof. unfold fromEntries. now rewrite foldl_snoc. Qed.

(** A key of [Object.fromEntries(l)] holds the value of the last entry of
    [l] with that key. *)
Lemma fromEntries_lookup {K} `{Countable K} {V} (l : list (K * V)) (key : K) :
  fromEntries l !! key = snd <$> last (filter (fun kv => kv.1 = key) l).
Proof.
  induction l as [|[k v] l IH] using rev_ind; [reflexivity|].
  rewrite fromEntries_snoc, filter_app, filter_cons, filter_nil. cbn [fst].
  destruct (decide (k = key)) as [->|Hne].
  - rewrite lookup_insert_eq, last_snoc. reflexivity.
  - rewrite lookup_insert_ne, app_nil_r by exact Hne. exact IH.
Qed.

Lemma fromEntries_lookup_None {K} `{Countable K} {V} (l : list (K * V)) (key : K) :
  key ∉ l.*1 -> fromEntries l !! key = None.
Proof.
  induction l as [|[k v] l IH] using rev_ind; intros Hkey; [reflexivity|].
  rewrite fmap_app, not_elem_of_app in Hkey. destruct Hkey as [Hl Hk].
  apply not_elem_of_cons in Hk as [Hk _].
  rewrite fromEntries_snoc, lookup_insert_ne by (cbn in Hk; congruence).
  now apply IH.
Qed.

Lemma fromEntries_NoDup {K} `{Countable K} {V} (l : list (K * V)) :
  NoDup l.*1 ->
  (forall k v, (k, v) ∈ l -> fromEntries l !! k = Some v)
  /\ size (fromEntries l) = length l.
Proof.
  induction l as [|[k v] l IH] using rev_ind; intros Hnodup.
  - split; [intros k v Hin; now apply elem_of_nil in Hin | reflexivity].
  - rewrite fmap_app in Hnodup. apply NoDup_app in Hnodup as (Hl & Hk & _).
    destruct (IH Hl) as [IHlookup IHsize].
    assert (Hfresh : k ∉ l.*1).
    { intros Hin. apply (Hk k Hin). cbn. left. }
    rewrite fromEntries_snoc. split.
    + intros k' v' Hin. apply elem_of_app in Hin as [Hin|Hin].
      * rewrite lookup_insert_ne; [now apply IHlookup|].
        intros ->. apply Hfresh. apply list_elem_of_fmap.
        exists (k', v'). split; [reflexivity | exact Hin].
      * apply list_elem_of_singleton in Hin. injection Hin as -> ->.
        apply lookup_insert_eq.
    + rewrite map_size_insert_None by now apply fromEntries_lookup_None.
      rewrite length_app, IHsize. cbn. lia.
Qed.

(** X11. [convertKeysToSnakeCase] of [null] is the empty object; of an
    object, each key of the result holds the value of the last entry whose
    converted key it is: where two keys meet, the later entry wins. *)
Theorem convertKeysToSnakeCase_lookup {V} (entries : list (JsString * V))
    (key : JsString) :
  convertKeysToSnakeCase (V := V) None = ∅
  /\ convertKeysToSnakeCase (Some entries) !! key
     = snd <$> last (filter (fun kv => camelToSnakeCase kv.1 = key) entries).
Proof.
  split; [reflexivity|]. unfold convertKeysToSnakeCase.
  rewrite fromEntries_lookup.
  induction entries as [|[k v] entries IH] using rev_ind; [reflexivity|].
  rewrite fmap_app, !filter_app. cbn [fmap list_fmap].
  rewrite !filter_cons, !filter_nil. cbn [fst snd].
  destruct (decide (camelToSnakeCase k = key)) as [Heq|Hne].
  - rewrite !last_snoc. reflexivity.
  - rewrite !app_nil_r. exact IH.
Qed.

(** X12. When the keys hold no underscore, nothing is lost: every entry is
    found under its converted key, and the result has as many keys as the
    object had. *)
Theorem convertKeysToSnakeCase_keeps_entries {V}
    (entries : list (JsString * V)) :
  NoDup entries.*1 ->
  Forall (fun k => 95%N ∉ k) entries.*1 ->
  (forall k v, (k, v) ∈ entries ->
     convertKeysToSnakeCase (Some entries) !! camelToSnakeCase k = Some v)
  /\ size (convertKeysToSnakeCase (Some entries)) = length entries.
Proof.
  intros Hnodup Hplain. unfold convertKeysToSnakeCase.
  set (conv := fun kv : JsString * V => (camelToSnakeCase kv.1, kv.2)).
  assert (Hconv : NoDup (conv <$> entries).*1).
  { rewrite <- list_fmap_compose.
    change (fst ∘ conv) with (camelToSnakeCase ∘ (fst : JsString * V -> JsString)).
    rewrite list_fmap_compose.
    apply NoDup_fmap_2_strong; [|exact Hnodup].
    intros s t Hs Ht. rewrite Forall_forall in Hplain.
    apply camelToSnakeCase_injective; auto. }
  destruct (fromEntries_NoDup _ Hconv) as [Hlookup Hsize].
  split.
  - intros k v Hin. apply Hlookup.
    apply (list_elem_of_fmap_2 conv) in Hin. exact Hin.
  - rewrite Hsize, length_fmap. reflexivity.
Qed.

(** ** [validateLLMParams] *)

Section LLMParamsFacts.

Variable Number : Type.
Variable number : Z -> Number.

Local Abbreviation ParamValue' := (ParamValue Number).
Local Abbreviation validKeys := (fst <$> defaultLLMParams Number number).
Local Abbreviation validateLLMParams' := (validateLLMParams Number number).

(** An entry that passes both checks. *)
Local Abbreviation accepted :=
  (fun kv : string * ParamValue' =>
     kv.1 ∈ validKeys /\ exists x, kv.2 = IsNumber Number x).

Lemma has_elem_of (set : list string) (x : string) :
  has set x = true <-> x ∈ set.
Proof.
  unfold has. rewrite existsb_exists. split.
  - intros (y & Hin & Heq). apply String.eqb_eq in Heq. subst.
    now apply list_elem_of_In.
  - intros Hin. exists x. split; [now apply list_elem_of_In|].
    apply String.eqb_refl.
Qed.

Lemma validateLLMParams_loop_Normal (entries : list (string * ParamValue')) :
  validateLLMParams_loop Number validKeys entries = Normal tt
  <-> Forall accepted entries.
Proof.
  induction entries as [|[key value] entries IH]; cbn [validateLLMParams_loop].
  - split; [constructor | reflexivity].
  - destruct (has validKeys key) eqn:Hkey; cbn [negb].
    + apply has_elem_of in Hkey. destruct value as [x|].
      * rewrite IH. split.
        -- intros H. constructor; [split; [exact Hkey | eauto] | exact H].
        -- intros H. now inversion H.
      * split; [discriminate|]. intros H. inversion H as [|? ? [_ [x Hx]] _].
        discriminate.
    + split; [discriminate|]. intros H. inversion H as [|? ? [Hin _] _].
      apply has_elem_of in Hin. cbn [fst] in Hin. congruence.
Qed.

Lemma spread_snoc (a : gmap string ParamValue')
    (b : list (string * ParamValue')) (k : string) (v : ParamValue') :
  spread Number a (b ++ [(k, v)]) = <[k:=v]> (spread Number a b).
Proof. unfold spread. now rewrite foldl_snoc. Qed.

(** A key of [{...a, ...b}] holds the last value [b] gives it, or else
    the value of [a]. *)
Lemma spread_lookup (a : gmap string ParamValue')
    (b : list (string * ParamValue')) (key : string) :
  spread Number a b !! key =
    match last (filter (fun kv => kv.1 = key) b) with
    | Some kv => Some kv.2
    | None => a !! key
    end.
Proof.
  induction b as [|[k v] b IH] using rev_ind; [reflexivity|].
  rewrite spread_snoc, filter_app, filter_cons, filter_nil. cbn [fst].
  destruct (decide (k = key)) as [->|Hne].
  - rewrite lookup_insert_eq, last_snoc. reflexivity.
  - rewrite lookup_insert_ne, app_nil_r by exact Hne. exact IH.
Qed.

Lemma defaults_lookup (key : string) :
  is_Some (fromEntries (defaultLLMParams Number number) !! key)
  <-> key ∈ validKeys.
Proof.
  rewrite fromEntries_lookup. unfold defaultLLMParams.
  rewrite !filter_cons, filter_nil. cbn [fst fmap list_fmap].
  rewrite !elem_of_cons, elem_of_nil.
  repeat (destruct (decide (_ = key)) as [<-|?]);
    cbn; split; intros H;
    try (eexists; reflexivity); try tauto;
    try (destruct H as [? [=]]);
    try (left; reflexivity);
    try (right; tauto).
  all: try (destruct H as [H|[H|[H|[H|[H|[]]]]]]; congruence).
Qed.

(** X1. [validateLLMParams] returns exactly when every entry has one of
    the five known keys and a number as value.  What it returns then has
    exactly those five keys, all of them numbers: the last value the
    parameters give to a key, and the default where they give none. *)
Theorem validateLLMParams_accepts (params : list (string * ParamValue')) :
  ((exists r, validateLLMParams' params = Normal r)
   <-> Forall accepted params)
  /\ forall r,
       validateLLMParams' params = Normal r ->
       (forall key, is_Some (r !! key) <-> key ∈ validKeys)
       /\ (forall key v, r !! key = Some v -> exists x, v = IsNumber Number x)
       /\ (forall key,
             r !! key =
               match last (filter (fun kv => kv.1 = key) params) with
               | Some kv => Some kv.2
               | None => fromEntries (defaultLLMParams Number number) !! key
               end).
Proof.
  unfold validateLLMParams. split.
  - rewrite <- validateLLMParams_loop_Normal.
    destruct (validateLLMParams_loop Number validKeys params) as [[]|e];
      split; intros H; eauto; try discriminate.
    now destruct H.
  - intros r Hr.
    destruct (validateLLMParams_loop Number validKeys params) as [[]|e] eqn:Hloop;
      [|discriminate].
    injection Hr as <-. apply validateLLMParams_loop_Normal in Hloop.
    assert (Hlast : forall key kv,
               last (filter (fun kv => kv.1 = key) params) = Some kv ->
               kv.1 = key /\ accepted kv).
    { intros key kv Hkv. apply last_Some_elem_of in Hkv.
      apply list_elem_of_filter in Hkv as [Hk Hin]. split; [exact Hk|].
      rewrite Forall_forall in Hloop. now apply Hloop. }
    split; [|split].
    + intros key. rewrite spread_lookup.
      destruct (last _) as [kv|] eqn:Hkv; [|apply defaults_lookup].
      destruct (Hlast key kv Hkv) as [<- [Hin _]]. split; eauto.
    + intros key v. rewrite spread_lookup.
      destruct (last _) as [kv|] eqn:Hkv.
      * destruct (Hlast key kv Hkv) as [_ [_ Hnum]]. now intros [= <-].
      * rewrite fromEntries_lookup. unfold defaultLLMParams.
        rewrite !filter_cons, filter_nil. cbn [fst].
        repeat (destruct (decide (_ = key)) as [<-|?]); cbn;
          intros [= <-]; eauto.
    + intros key. apply spread_lookup.
Qed.

(** X2. The first entry that fails a check decides the error: an unknown
    key is reported before the value is looked at, and the entries after it
    are not examined. *)
Theorem validateLLMParams_rejects_first
    (before after : list (string * ParamValue')) (key : string)
    (value : ParamValue') :
  Forall accepted before ->
  ~ accepted (key, value) ->
  validateLLMParams' (before ++ (key, value) :: after) =
    Abrupt (if bool_decide (key ∈ validKeys)
            then "Value for '" ++ key ++ "' must be a number"
            else "Invalid LLM parameter: " ++ key).
Proof.
  intros Hbefore Hbad. unfold validateLLMParams.
  assert (Hloop : validateLLMParams_loop Number validKeys
                    (before ++ (key, value) :: after)
                  = Abrupt (if bool_decide (key ∈ validKeys)
                            then "Value for '" ++ key ++ "' must be a number"
                            else "Invalid LLM parameter: " ++ key)).
  { induction Hbefore as [|[k v] before [Hk [x Hx]] _ IH];
      cbn [app validateLLMParams_loop].
    - destruct (has validKeys key) eqn:Hkey; cbn [negb].
      + apply has_elem_of in Hkey. rewrite bool_decide_eq_true_2 by exact Hkey.
        destruct value as [x|]; [|reflexivity].
        exfalso. apply Hbad. split; [exact Hkey | eauto].
      + rewrite bool_decide_eq_false_2; [reflexivity|].
        intros Hin. apply has_elem_of in Hin. congruence.
    - cbn [fst snd] in Hk, Hx. apply has_elem_of in Hk. rewrite Hk. cbn [negb].
      subst v. exact IH. }
  now rewrite Hloop.
Qed.

End LLMParamsFacts.

(** ** [downloadFile] *)

Lemma beforeQuery_prefix (s : string) :
  String.prefix (beforeQuery s) s = true
  /\ "?"%char ∉ String.list_ascii_of_string (beforeQuery s).
Proof.
  induction s as [|c s [IHp IHq]]; cbn.
  - split; [reflexivity | apply not_elem_of_nil].
  - destruct (Ascii.eqb_spec c "?"%char) as [->|Hne]; cbn.
    + split; [reflexivity | apply not_elem_of_nil].
    + split.
      * destruct (ascii_dec c c); [exact IHp | congruence].
      * apply not_elem_of_cons. split; [congruence | exact IHq].
Qed.

(** The cut is at the first question mark: what is left over is empty or
    begins with one. *)
Lemma beforeQuery_split (s : string) :
  exists rest,
    s = (beforeQuery s ++ rest)%string
    /\ (rest = "" \/ exists rest', rest = String "?"%char rest').
Proof.
  induction s as [|c s (rest & Hsplit & Hrest)]; cbn [beforeQuery].
  - exists "". split; [reflexivity | now left].
  - destruct (Ascii.eqb_spec c "?"%char) as [->|Hne].
    + exists (String "?"%char s). split; [reflexivity | right; eauto].
    + exists rest. split; [|exact Hrest].
      change (String c s = String c (beforeQuery s ++ rest))%string.
      now rewrite <- Hsplit.
Qed.

Lemma andAct_Normal {A B} (m : Act A) (f : A -> Act B) (b : B) :
  snd (andAct m f) = Normal b ->
  exists a, snd m = Normal a /\ snd (f a) = Normal b.
Proof.
  destruct m as [evs [a|e]]; cbn; [|discriminate].
  destruct (f a) as [evs' c] eqn:Hf. cbn. intros ->. exists a. now rewrite Hf.
Qed.

Section DownloadFacts.

Variable URL_protocol : string -> Completion string.
Variable path_basename : string -> string.
Variable path_join : string -> string -> string.
Variable axios_get : string -> Completion Response.
Variable stream_pipeline : string -> Completion unit.
Variable fs_copyFile : string -> string -> Completion unit.
Variable mime_lookup : string -> option string.
Variable mime_extension : option string -> option string.

Local Abbreviation isValidUrl' := (isValidUrl URL_protocol).
Local Abbreviation downloadFile_fetch' :=
  (downloadFile_fetch URL_protocol axios_get stream_pipeline fs_copyFile).
Local Abbreviation downloadFile_extension' :=
  (downloadFile_extension mime_lookup mime_extension).
Local Abbreviation downloadFile' :=
  (downloadFile URL_protocol path_basename path_join axios_get stream_pipeline
     fs_copyFile mime_lookup mime_extension).

Lemma dotted (extension : string) :
  startsWithDot (if negb (startsWithDot extension)
                 then ("." ++ extension)%string else extension) = true.
Proof. destruct (startsWithDot extension) eqn:H; [exact H | reflexivity]. Qed.

(** X5. When [downloadFile] resolves, the local path is the temporary
    directory joined with the base name of the file path cut before its
    first question mark (the whole path when it has none): no query
    parameter reaches the file name.  The extension begins with a dot,
    and it is the extension step's result for the type of the download:
    the content type of the response, which came with status 200, for a
    URL, and no type for a local file. *)
Theorem downloadFile_result (filePath tempDir extension localPath : string) :
  snd (downloadFile' filePath tempDir) = Normal (extension, localPath) ->
  (exists name rest,
     filePath = (name ++ rest)%string
     /\ ("?"%char ∉ String.list_ascii_of_string name)
     /\ (rest = "" \/ exists rest', rest = String "?"%char rest')
     /\ localPath = path_join tempDir (path_basename name))
  /\ startsWithDot extension = true
  /\ exists mimetype,
       downloadFile_extension' mimetype localPath = Normal extension
       /\ (isValidUrl' filePath = false -> mimetype = None)
       /\ (isValidUrl' filePath = true ->
           exists response,
             axios_get filePath = Normal response
             /\ status response = 200
             /\ mimetype = contentType response).
Proof.
  unfold downloadFile. intros H.
  apply andAct_Normal in H as (mimetype & Hfetch & H).
  apply andAct_Normal in H as (ext & Hext & H).
  cbn in H, Hext. injection H as <- <-. split; [|split].
  - destruct (beforeQuery_split filePath) as (rest & Hsplit & Hrest).
    exists (beforeQuery filePath), rest.
    split; [exact Hsplit|]. split; [apply beforeQuery_prefix|].
    split; [exact Hrest | reflexivity].
  - unfold downloadFile_extension in Hext.
    destruct (String.eqb _ ""); [destruct (bool_decide _)|];
      try discriminate; injection Hext as <-;
      first [reflexivity | apply dotted].
  - exists mimetype. split; [exact Hext|].
    unfold downloadFile_fetch in Hfetch.
    destruct (isValidUrl' filePath).
    + split; [discriminate|]. intros _.
      unfold perform, andAct, done_, fail_ in Hfetch. cbn in Hfetch.
      destruct (axios_get filePath) as [response|e]; [|discriminate].
      destruct (Z.eqb_spec (status response) 200) as [H200|Hne];
        cbn in Hfetch; [|discriminate].
      destruct (stream_pipeline _) as [[]|e]; cbn in Hfetch; [|discriminate].
      injection Hfetch as <-. eauto.
    + split; [|discriminate]. intros _.
      unfold perform, andAct, done_ in Hfetch.
      destruct (fs_copyFile _ _) as [[]|e]; cbn in Hfetch; [|discriminate].
      now injection Hfetch as <-.
Qed.

(** X6. What [downloadFile] does to the outside: a path that is no http(s)
    URL is copied and nothing else; a URL gets its write stream opened and
    is requested, and the body is piped into the file only after a
    response with status 200. *)
Theorem downloadFile_events (filePath tempDir : string) :
  let localPath := path_join tempDir (path_basename (beforeQuery filePath)) in
  (isValidUrl' filePath = false ->
   fst (downloadFile' filePath tempDir) = [CopyFile filePath localPath])
  /\ (isValidUrl' filePath = true ->
      exists rest,
        fst (downloadFile' filePath tempDir)
        = CreateWriteStream localPath :: HttpGet filePath :: rest
        /\ (rest = []
            \/ rest = [Pipeline localPath]
               /\ exists response,
                    axios_get filePath = Normal response
                    /\ status response = 200)).
Proof.
  intros localPath. unfold downloadFile, downloadFile_fetch.
  fold localPath. split; intros Hurl; rewrite Hurl.
  - unfold perform, andAct, done_.
    destruct (fs_copyFile filePath localPath) as [[]|e]; [|reflexivity].
    cbn. destruct (downloadFile_extension' None localPath); reflexivity.
  - unfold perform, andAct, done_, fail_. cbn.
    destruct (axios_get filePath) as [response|e] eqn:Hget;
      [|exists []; split; [reflexivity | now left]].
    destruct (Z.eqb_spec (status response) 200) as [H200|Hne]; cbn.
    + destruct (stream_pipeline localPath) as [[]|e]; cbn.
      * exists [Pipeline localPath]. split; [|right; eauto].
        destruct (downloadFile_extension' _ localPath); reflexivity.
      * exists [Pipeline localPath]. split; [reflexivity | right; eauto].
    + exists []. split; [reflexivity | now left].
Qed.

(** X7. The extension for a type: when the [mime-types] table has none,
    the type [binary/octet-stream] gets [.bin] and any other type is the
    error "File extension missing"; there is no other way to fail. *)
Theorem downloadFile_extension_fallback (mimetype : option string)
    (localPath : string) :
  let resolved := if falsy mimetype then mime_lookup localPath else mimetype in
  (falsy (mime_extension resolved) = true ->
   downloadFile_extension' mimetype localPath
   = if bool_decide (resolved = Some "binary/octet-stream")
     then Normal ".bin" else Abrupt "File extension missing")
  /\ (forall e, mime_extension resolved = Some e -> e <> "" ->
        downloadFile_extension' mimetype localPath
        = Normal (if startsWithDot e then e else ("." ++ e)%string))
  /\ (forall e, downloadFile_extension' mimetype localPath = Abrupt e ->
        e = "File extension missing"
        /\ falsy (mime_extension resolved) = true
        /\ resolved <> Some "binary/octet-stream").
Proof.
  intros resolved. unfold downloadFile_extension. fold resolved.
  destruct (mime_extension resolved) as [e0|] eqn:Hext; cbn [falsy].
  - destruct (String.eqb_spec e0 "") as [->|Hne].
    + split; [|split].
      * intros _. destruct (bool_decide _); reflexivity.
      * intros e [= <-] He. congruence.
      * intros e. destruct (bool_decide_reflect (resolved = Some "binary/octet-stream"));
          [discriminate|]. intros [= <-]. auto.
    + split; [discriminate|]. split.
      * intros e [= <-] _. destruct (startsWithDot e0); reflexivity.
      * intros e. discriminate.
  - cbn [String.eqb]. split; [|split].
    + intros _. destruct (bool_decide _); reflexivity.
    + discriminate.
    + intros e. destruct (bool_decide_reflect (resolved = Some "binary/octet-stream"));
        [discriminate|]. intros [= <-]. auto.
Qed.

End DownloadFacts.

(** ** More on the flattening code *)

Section FlattenOutcome.

Variable nanoid : nat -> string.
Variable ConvertedNodeType : list (string * string).

Local Abbreviation processNode' := (processNode nanoid ConvertedNodeType).
Local Abbreviation processListItem_step' :=
  (processListItem_step nanoid ConvertedNodeType).
Local Abbreviation markdownToJson' := (markdownToJson nanoid ConvertedNodeType).
Local Abbreviation markdownToJson_step' :=
  (markdownToJson_step nanoid ConvertedNodeType).
Local Abbreviation TypeError :=
  "TypeError: Cannot read properties of undefined"%string.

(** A computation on the children [cs] that returns when all of them are
    well formed and throws the [TypeError] otherwise. *)
Local Abbreviation settles :=
  (fun (A : Type) (cs : list MdNode) (o : Outcome A) =>
     match o with
     | Returns _ _ => forallb wellFormed cs = true
     | Throws e => forallb wellFormed cs = false /\ e = TypeError
     end).

Local Abbreviation settled :=
  (fun node : MdNode =>
     forall page parentId k,
       settles _ [node] (processNode' node page parentId k)).

Lemma mapM_settles (page : Z) (cs : list MdNode) :
  Forall settled cs ->
  forall k,
    settles _ cs (mapM (fun childNode => processNode' childNode page None) cs k).
Proof.
  induction 1 as [|c cs Hc Hcs IH]; intros k; cbn [mapM forallb];
    [reflexivity|].
  unfold bind at 1. specialize (Hc page None k). cbn [forallb] in Hc.
  rewrite andb_true_r in Hc.
  destruct (processNode' c page None k) as [r k1|e].
  - rewrite Hc. cbn [andb]. unfold bind at 1. specialize (IH k1).
    destruct (mapM _ cs k1); exact IH.
  - destruct Hc as [-> ->]. split; reflexivity.
Qed.

Lemma processListItem_step_settles (page : Z) (childNode : MdNode)
    (st : option ProcessedNode * list ProcessedNode) (k : nat) :
  settled childNode ->
  settles _ [childNode] (processListItem_step' processNode' page st childNode k).
Proof.
  intros Hc. destruct st as [newNode sibs]. unfold processListItem_step.
  destruct (negb (Md.type childNode =? MdNodeType.list)%string).
  - unfold bind. specialize (Hc page None k).
    destruct (processNode' childNode page None k) as [[r|] k1|e]; exact Hc.
  - destruct newNode as [n|]; unfold bind; cbn [ret draw].
    + specialize (Hc page (Some (PN.id n)) k).
      destruct (processNode' childNode page _ k) as [[r|] k1|e]; exact Hc.
    + specialize (Hc page (Some (nanoid k)) (S k)). cbn [PN.id].
      destruct (processNode' childNode page _ (S k)) as [[r|] k1|e]; exact Hc.
Qed.

Lemma forEachM_step_settles (page : Z) (cs : list MdNode) :
  Forall settled cs ->
  forall st k,
    settles _ cs (forEachM (processListItem_step' processNode' page) cs st k).
Proof.
  induction 1 as [|c cs Hc Hcs IH]; intros st k; cbn [forEachM forallb];
    [reflexivity|].
  unfold bind at 1.
  pose proof (processListItem_step_settles page c st k Hc) as Hstep.
  cbn [forallb] in Hstep. rewrite andb_true_r in Hstep.
  destruct (processListItem_step' processNode' page st c k) as [st1 k1|e].
  - rewrite Hstep. cbn [andb]. apply IH.
  - destruct Hstep as [-> ->]. split; reflexivity.
Qed.

Lemma processNode_settled (node : MdNode) : settled node.
Proof.
  induction node as [node IH] using MdNode_children_ind.
  intros page parentId k. cbn [forallb]. rewrite andb_true_r.
  rewrite wellFormed_eq, (processNode_eq nanoid ConvertedNodeType).
  unfold bind at 1.
  destruct (has literals (Md.type node)); [reflexivity|].
  unfold nodeProcessors_at.
  destruct (Md.type node =? "literal")%string eqn:Hliteral.
  { apply String.eqb_eq in Hliteral. rewrite Hliteral. reflexivity. }
  destruct (has nodeProcessors_keys (Md.type node)) eqn:Hkeys;
    [rewrite andb_false_r
    |destruct (has ignoreNodeTypes (Md.type node)); [reflexivity|];
     cbn [andb negb]].
  all: unfold nodeProcessors_list, nodeProcessors_listItem,
         nodeProcessors_parent, processListItem_with, with_children.
  all: destruct (Md.children node) as [cs|];
         [|repeat match goal with
                  | |- context [if ?b then _ else _] => destruct b
                  end; split; reflexivity].
  all: specialize (IH cs eq_refl).
  all: pose proof (mapM_settles page cs IH k) as Hmap.
  all: pose proof (forEachM_step_settles page cs IH (None, []) k) as Hloop.
  all: repeat match goal with
              | |- context [if ?b then _ else _] => destruct b
              end.
  all: unfold bind.
  all: try (destruct (mapM _ cs k) as [rs k1|e]; exact Hmap).
  all: destruct (forEachM _ cs _ k) as [st k1|e]; exact Hloop.
Qed.

(** On a tree of own kinds, no node has an inherited kind: the [in]
    test and the enum lookup of the code are the own-key lookups of the
    model, at every node. *)
Lemma ownKinds_inside (node n : MdNode) :
  ownKinds node = true -> inside n node ->
  inherited (Md.type n) = false.
Proof.
  intros Hown Hin. induction Hin as [|node cs c Hcs Hc Hin IH].
  - rewrite ownKinds_eq in Hown. apply andb_true_iff in Hown as [Hown _].
    now apply negb_true_iff in Hown.
  - apply IH. rewrite ownKinds_eq, Hcs in Hown.
    apply andb_true_iff in Hown as [_ Hown].
    rewrite forallb_forall in Hown. now apply Hown, list_elem_of_In.
Qed.

Lemma ownKinds_lookups (node n : MdNode) :
  ownKinds node = true -> inside n node ->
  inNodeProcessors (Md.type n) = has nodeProcessors_keys (Md.type n)
  /\ getProperty ConvertedNodeType (Md.type n)
     = ofOption (ConvertedNodeType_at ConvertedNodeType (Md.type n)).
Proof.
  intros Hown Hin. pose proof (ownKinds_inside node n Hown Hin) as Hn.
  split; [|now apply getProperty_own].
  unfold inNodeProcessors. rewrite Hn. apply orb_false_r.
Qed.

(** X13. On a tree none of whose kinds names a member of
    [Object.prototype], the [in] test of [processNode] finds own keys of
    [nodeProcessors] only, at every node, and [processNode] either returns
    or throws the [TypeError] of a method call on a missing [children];
    which of the two is decided by the tree alone: it returns exactly on
    the well-formed trees, whatever the page, the parent and the
    identifiers drawn so far. *)
Theorem processNode_returns_iff_wellFormed (node : MdNode) (page : Z)
    (parentId : option string) (k : nat) :
  ownKinds node = true ->
  (forall n, inside n node ->
     inNodeProcessors (Md.type n) = has nodeProcessors_keys (Md.type n))
  /\ match processNode' node page parentId k with
     | Returns _ _ => wellFormed node = true
     | Throws e => wellFormed node = false /\ e = TypeError
     end.
Proof.
  intros Hown. split.
  - intros n Hn. now apply (ownKinds_lookups node n).
  - pose proof (processNode_settled node page parentId k) as H.
    cbn [forallb] in H. rewrite andb_true_r in H. exact H.
Qed.

Lemma markdownToJson_step_settles (page : Z) (sourceNode : MdNode)
    (st : list ParentId * list ProcessedNode) (k : nat) :
  settles _ [sourceNode] (markdownToJson_step' page st sourceNode k).
Proof.
  destruct st as [stack out]. unfold markdownToJson_step, processRootNode.
  set (parentId := pid_id <$> head (closeHeadings sourceNode stack)).
  pose proof (processNode_settled sourceNode page parentId k) as H.
  pose proof (processNode_None nanoid ConvertedNodeType sourceNode page
                parentId k) as Hnone.
  unfold bind. destruct (processNode' sourceNode page parentId k) as [r k1|e];
    [|exact H].
  destruct r as [r|]; cbn [ret].
  - destruct (Md.type sourceNode =? MdNodeType.heading)%string; exact H.
  - specialize (Hnone k1 eq_refl).
    destruct (Md.type sourceNode =? MdNodeType.heading)%string eqn:Hheading;
      [|exact H].
    apply String.eqb_eq in Hheading. rewrite Hheading in Hnone. discriminate.
Qed.

(** X14. On a tree none of whose kinds names a member of
    [Object.prototype], the [in] test finds own keys of [nodeProcessors]
    only, and [markdownToJson] returns exactly when the parsed tree has
    its [children] and each of them is well formed; otherwise it
    throws the [TypeError] of a method call on a missing [children], and
    nothing else: a heading is never dropped, so the [id] of its first
    node can always be read. *)
Theorem markdownToJson_returns_iff_wellFormed (parsedMd : MdNode) (page : Z)
    (k : nat) :
  ownKinds parsedMd = true ->
  (forall n, inside n parsedMd ->
     inNodeProcessors (Md.type n) = has nodeProcessors_keys (Md.type n))
  /\ match markdownToJson' parsedMd page k with
     | Returns _ _ =>
         exists cs,
           Md.children parsedMd = Some cs /\ forallb wellFormed cs = true
     | Throws e =>
         e = TypeError
         /\ (Md.children parsedMd = None
             \/ exists cs,
                  Md.children parsedMd = Some cs
                  /\ forallb wellFormed cs = false)
     end.
Proof.
  intros Hown. split; [intros n Hn; now apply (ownKinds_lookups parsedMd n)|].
  unfold markdownToJson, with_children.
  destruct (Md.children parsedMd) as [cs|]; [|split; [reflexivity | now left]].
  unfold bind.
  assert (Hloop : forall st j,
            settles _ cs (forEachM (markdownToJson_step' page) cs st j)).
  { induction cs as [|c cs IH]; intros st j; cbn [forEachM forallb];
      [reflexivity|].
    unfold bind at 1.
    pose proof (markdownToJson_step_settles page c st j) as Hstep.
    cbn [forallb] in Hstep. rewrite andb_true_r in Hstep.
    destruct (markdownToJson_step' page st c j) as [st1 j1|e].
    - rewrite Hstep. cbn [andb]. apply IH.
    - destruct Hstep as [-> ->]. split; reflexivity. }
  specialize (Hloop ([], []) k).
  destruct (forEachM _ cs _ k) as [st k1|e]; cbn [ret].
  - eauto.
  - destruct Hloop as [Hwf ->]. split; [reflexivity|]. right. eauto.
Qed.

End FlattenOutcome.


Section FlattenIds.

Variable nanoid : nat -> string.
Variable ConvertedNodeType : list (string * string).

Local Abbreviation processNode' := (processNode nanoid ConvertedNodeType).
Local Abbreviation processListItem_step' :=
  (processListItem_step nanoid ConvertedNodeType).
Local Abbreviation nodeProcessors_at' :=
  (nodeProcessors_at nanoid ConvertedNodeType).
Local Abbreviation markdownToJson' := (markdownToJson nanoid ConvertedNodeType).
Local Abbreviation markdownToJson_step' :=
  (markdownToJson_step nanoid ConvertedNodeType).
Local Abbreviation idsFrom' := (idsFrom nanoid).
Local Abbreviation produced' := (produced nanoid ConvertedNodeType).

Lemma idsFrom_nil (lo hi : nat) : idsFrom' lo hi [].
Proof. exists []. split; [reflexivity|]. split; constructor. Qed.

Lemma idsFrom_mono (lo hi lo' hi' : nat) (l : list ProcessedNode) :
  (lo' <= lo)%nat -> (hi <= hi')%nat ->
  idsFrom' lo hi l -> idsFrom' lo' hi' l.
Proof.
  intros Hlo Hhi (ms & Hids & Hnd & Hall). exists ms.
  split; [exact Hids|]. split; [exact Hnd|].
  eapply Forall_impl; [exact Hall|]. cbn. intros m Hm. lia.
Qed.

Lemma idsFrom_app (lo mid hi : nat) (a b : list ProcessedNode) :
  idsFrom' lo mid a -> idsFrom' mid hi b -> (lo <= mid <= hi)%nat ->
  idsFrom' lo hi (a ++ b).
Proof.
  intros (ms & Hids & Hnd & Hall) (ms' & Hids' & Hnd' & Hall') Hmid.
  exists (ms ++ ms'). rewrite !fmap_app, Hids, Hids'.
  split; [reflexivity|]. split.
  - apply NoDup_app. split; [exact Hnd|]. split; [|exact Hnd'].
    intros m Hm Hm'. rewrite Forall_forall in Hall, Hall'.
    specialize (Hall m Hm). specialize (Hall' m Hm'). lia.
  - apply Forall_app. split.
    + eapply Forall_impl; [exact Hall|]. cbn. intros m Hm. lia.
    + eapply Forall_impl; [exact Hall'|]. cbn. intros m Hm. lia.
Qed.

(** A main node that took the last identifier, ahead of its siblings. *)
Lemma idsFrom_main (lo hi : nat) (main : ProcessedNode)
    (sibs : list ProcessedNode) :
  (lo < hi)%nat -> PN.id main = nanoid (hi - 1) ->
  idsFrom' lo (hi - 1) sibs -> idsFrom' lo hi (main :: sibs).
Proof.
  intros Hlt Hid (ms & Hids & Hnd & Hall).
  exists ((hi - 1)%nat :: ms). cbn [fmap list_fmap]. rewrite Hid.
  split; [f_equal; exact Hids|]. split.
  - constructor; [|exact Hnd]. intros Hin. rewrite Forall_forall in Hall.
    specialize (Hall _ Hin). lia.
  - constructor; [lia|]. eapply Forall_impl; [exact Hall|]. cbn.
    intros m Hm. lia.
Qed.

(** The siblings [processNode] returns on [node] took pairwise different
    draws of the call, all before the main node's. *)
Local Abbreviation apart :=
  (fun node : MdNode =>
     forall page parentId k r k',
       processNode' node page parentId k = Returns (Some r) k' ->
       idsFrom' k (k' - 1) (siblings r)).

Lemma mapM_apart (page : Z) (cs : list MdNode) :
  Forall apart cs ->
  forall k rs k',
    mapM (fun childNode => processNode' childNode page None) cs k
      = Returns rs k' ->
    (k <= k')%nat /\ idsFrom' k k' (gatherSiblings rs).
Proof.
  induction 1 as [|c cs Hc Hcs IH]; intros k rs k' H; cbn in H.
  - apply ret_Returns in H as [-> ->]. split; [lia | apply idsFrom_nil].
  - apply bind_Returns in H as (y & k1 & Hy & H).
    apply bind_Returns in H as (ys & k2 & Hys & H).
    apply ret_Returns in H as [-> ->].
    pose proof (processNode_produced nanoid ConvertedNodeType c _ _ _ _ _ Hy)
      as Hprod.
    apply IH in Hys as [Hle Hall].
    rewrite gatherSiblings_cons.
    destruct y as [r|]; cbn in Hprod.
    + destruct Hprod as (Hlt & _). apply Hc in Hy.
      split; [lia|]. apply (idsFrom_app k k1 k2); [|exact Hall|lia].
      eapply idsFrom_mono; [| |exact Hy]; lia.
    + subst k1. split; [lia | exact Hall].
Qed.

Lemma processListItem_step_apart (page : Z) (lo : nat) (childNode : MdNode)
    (st st' : option ProcessedNode * list ProcessedNode) (k k' : nat) :
  apart childNode ->
  (lo <= k)%nat -> idsFrom' lo k (snd st) ->
  processListItem_step' processNode' page st childNode k = Returns st' k' ->
  (lo <= k')%nat /\ idsFrom' lo k' (snd st').
Proof.
  intros Hc Hlo Hsibs H. destruct st as [newNode sibs].
  cbn [snd] in *. unfold processListItem_step in H.
  destruct (negb (Md.type childNode =? MdNodeType.list)%string).
  - apply bind_Returns in H as (r & k1 & Hr & H).
    pose proof (processNode_produced nanoid ConvertedNodeType _ _ _ _ _ _ Hr)
      as Hprod.
    destruct r as [r|]; cbn in Hprod.
    + destruct Hprod as (Hlt & _). apply Hc in Hr.
      apply ret_Returns in H as [-> ->]. cbn [snd].
      split; [lia|]. apply (idsFrom_app lo k k1); [exact Hsibs| |lia].
      eapply idsFrom_mono; [| |exact Hr]; lia.
    + subst k1. apply ret_Returns in H as [-> ->]. auto.
  - apply bind_Returns in H as (n & k1 & Hn & H).
    assert (Hk1 : (k <= k1)%nat).
    { destruct newNode as [n0|].
      - apply ret_Returns in Hn as [_ ->]. lia.
      - apply bind_Returns in Hn as (i & k0 & Hi & Hn).
        injection Hi as _ <-. apply ret_Returns in Hn as [_ ->]. lia. }
    apply bind_Returns in H as (r & k2 & Hr & H).
    pose proof (processNode_produced nanoid ConvertedNodeType _ _ _ _ _ _ Hr)
      as Hprod.
    destruct r as [r|]; cbn in Hprod.
    + destruct Hprod as (Hlt & Hid & _). apply Hc in Hr.
      apply ret_Returns in H as [-> ->]. cbn [snd].
      split; [lia|]. apply (idsFrom_app lo k1 k2); [| |lia].
      * eapply idsFrom_mono; [| |exact Hsibs]; lia.
      * now apply idsFrom_main.
    + subst k2. apply ret_Returns in H as [-> ->]. cbn [snd].
      split; [lia|]. eapply idsFrom_mono; [| |exact Hsibs]; lia.
Qed.

Lemma forEachM_step_apart (page : Z) (lo : nat) (cs : list MdNode) :
  Forall apart cs ->
  forall st k st' k',
    (lo <= k)%nat -> idsFrom' lo k (snd st) ->
    forEachM (processListItem_step' processNode' page) cs st k
      = Returns st' k' ->
    (lo <= k')%nat /\ idsFrom' lo k' (snd st').
Proof.
  induction 1 as [|c cs Hc Hcs IH]; intros st k st' k' Hlo Hinv H; cbn in H.
  - apply ret_Returns in H as [-> ->]. auto.
  - apply bind_Returns in H as (st1 & k1 & Hstep & H).
    destruct (processListItem_step_apart page lo c st st1 k k1 Hc Hlo Hinv Hstep)
      as [Hlo1 Hinv1].
    eapply IH; eauto.
Qed.

Lemma processNode_apart (node : MdNode) : apart node.
Proof.
  induction node as [node IH] using MdNode_children_ind.
  intros page parentId k r k' H.
  rewrite (processNode_eq nanoid ConvertedNodeType) in H.
  apply bind_Returns in H as (result & k1 & Hres & H).
  destruct result as [[value siblingNodes]|];
    [|apply ret_Returns in H as [[=] _]].
  apply bind_Returns in H as (i & k2 & Hi & H).
  injection Hi as <- <-. apply ret_Returns in H as [[= ->] ->].
  cbn [siblings]. replace (S k1 - 1)%nat with k1 by lia.
  assert (Hchildren : forall (wrap : list JsValue -> JsValue) v,
            with_children node (fun cs =>
              let* result :=
                mapM (fun childNode => processNode' childNode page None) cs in
              ret (wrap (gatherValue result), gatherSiblings result)) k
            = Returns v k1 ->
            idsFrom' k k1 (snd v)).
  { intros wrap v Hv. unfold with_children in Hv.
    destruct (Md.children node) as [cs|] eqn:Hcs;
      [|now apply throw_Returns in Hv].
    apply bind_Returns in Hv as (rs & k0 & Hrs & Hv).
    apply ret_Returns in Hv as [-> ->]. cbn [snd].
    eapply mapM_apart; [|exact Hrs]. now apply IH. }
  assert (Hitem : forall v,
            nodeProcessors_listItem nanoid ConvertedNodeType processNode' node
              page k = Returns v k1 ->
            idsFrom' k k1 (snd v)).
  { intros v Hv. unfold nodeProcessors_listItem in Hv.
    apply bind_Returns in Hv as (st & k0 & Hst & Hv).
    apply ret_Returns in Hv as [-> ->]. cbn [snd].
    unfold processListItem_with, with_children in Hst.
    destruct (Md.children node) as [cs|] eqn:Hcs;
      [|now apply throw_Returns in Hst].
    eapply (forEachM_step_apart page k cs (IH cs eq_refl) (None, []) k);
      [lia | apply idsFrom_nil | exact Hst]. }
  destruct (has literals (Md.type node)).
  - apply bind_Returns in Hres as (v & k0 & Hv & Hres).
    apply ret_Returns in Hv as [-> <-].
    apply ret_Returns in Hres as [[= _ ->] _]. apply idsFrom_nil.
  - destruct (has nodeProcessors_keys (Md.type node)).
    + apply bind_Returns in Hres as (v & k0 & Hv & Hres).
      apply ret_Returns in Hres as [[= Hval] <-].
      change siblingNodes with (snd (value, siblingNodes)). rewrite Hval.
      unfold nodeProcessors_at in Hv.
      destruct (Md.type node =? "literal")%string.
      { apply ret_Returns in Hv as [-> _]. apply idsFrom_nil. }
      destruct (Md.type node =? MdNodeType.list)%string;
        [exact (Hchildren VArray v Hv)|].
      destruct (Md.type node =? MdNodeType.listItem)%string;
        [exact (Hitem v Hv)|].
      exact (Hchildren (fun vs => VString (join " " vs)) v Hv).
    + destruct (negb (has ignoreNodeTypes (Md.type node)));
        [|apply ret_Returns in Hres as [[=] _]].
      apply bind_Returns in Hres as (v & k0 & Hv & Hres).
      apply ret_Returns in Hres as [[= Hval] <-].
      change siblingNodes with (snd (value, siblingNodes)). rewrite Hval.
      exact (Hchildren (fun vs => VString (join " " vs)) v Hv).
Qed.

Lemma markdownToJson_step_apart (page : Z) (lo k k' : nat)
    (st st' : list ParentId * list ProcessedNode) (sourceNode : MdNode) :
  (lo <= k)%nat -> idsFrom' lo k (snd st) ->
  markdownToJson_step' page st sourceNode k = Returns st' k' ->
  (lo <= k')%nat /\ idsFrom' lo k' (snd st').
Proof.
  intros Hlo Hout H. destruct st as [stack out]. cbn [snd] in *.
  unfold markdownToJson_step in H.
  apply bind_Returns in H as (b & k1 & Hb & H).
  unfold processRootNode in Hb.
  apply bind_Returns in Hb as (r & k0 & Hr & Hb).
  pose proof (processNode_produced nanoid ConvertedNodeType _ _ _ _ _ _ Hr)
    as Hprod.
  apply bind_Returns in H as (stack2 & k2 & Hstack2 & H).
  apply ret_Returns in H as [-> ->]. cbn [snd].
  assert (Hk2 : k2 = k1).
  { destruct (Md.type sourceNode =? MdNodeType.heading)%string.
    - destruct b; [now apply throw_Returns in Hstack2|].
      now apply ret_Returns in Hstack2 as [_ ->].
    - now apply ret_Returns in Hstack2 as [_ ->]. }
  subst k2. clear Hstack2.
  destruct r as [r|]; cbn in Hprod.
  - destruct Hprod as (Hlt & Hid & _). apply processNode_apart in Hr.
    apply ret_Returns in Hb as [-> ->].
    split; [lia|]. apply (idsFrom_app lo k k0); [exact Hout| |lia].
    now apply idsFrom_main.
  - subst k0. apply ret_Returns in Hb as [-> ->]. rewrite app_nil_r. auto.
Qed.

(** X15. The nodes of the sequence [markdownToJson] returns took pairwise
    different draws of the identifier source: when [nanoid] gave no
    identifier twice during the call, no two nodes of the sequence share
    their [id]; and the sequence has at most as many nodes as identifiers
    were drawn. *)
Theorem markdownToJson_ids_distinct (parsedMd : MdNode) (page : Z)
    (k k' : nat) (out : list ProcessedNode) :
  (forall i j : nat,
      (k <= i < k')%nat -> (k <= j < k')%nat ->
      nanoid i = nanoid j -> i = j) ->
  markdownToJson' parsedMd page k = Returns out k' ->
  NoDup (PN.id <$> out) /\ (length out <= k' - k)%nat.
Proof.
  intros Hinj H. unfold markdownToJson, with_children in H.
  destruct (Md.children parsedMd) as [cs|]; [|now apply throw_Returns in H].
  apply bind_Returns in H as (st & k1 & Hloop & H).
  apply ret_Returns in H as [-> <-].
  assert (Hinv : forall cs st j st' j',
            (k <= j)%nat -> idsFrom' k j (snd st) ->
            forEachM (markdownToJson_step' page) cs st j = Returns st' j' ->
            (k <= j')%nat /\ idsFrom' k j' (snd st')).
  { clear. induction cs as [|c cs IH]; intros st j st' j' Hlo Hinv H; cbn in H.
    - apply ret_Returns in H as [-> <-]. auto.
    - apply bind_Returns in H as (st1 & j1 & Hstep & H).
      destruct (markdownToJson_step_apart page k j j1 st st1 c Hlo Hinv Hstep)
        as [Hlo1 Hinv1].
      eapply IH; eauto. }
  destruct (Hinv cs ([], []) k st k' (le_n _) (idsFrom_nil _ _) Hloop)
    as (Hle & ms & Hids & Hnd & Hall).
  rewrite Forall_forall in Hall. split.
  - rewrite Hids. apply NoDup_fmap_2_strong; [|exact Hnd].
    intros i j Hi Hj. apply Hinj; auto.
  - rewrite <- (length_fmap PN.id), Hids, length_fmap.
    replace (k' - k)%nat with (length (seq k (k' - k)))
      by apply length_seq.
    apply submseteq_length, NoDup_submseteq; [exact Hnd|].
    intros m Hm. apply elem_of_seq. specialize (Hall m Hm). lia.
Qed.

End FlattenIds.


Section FlattenSiblings.

Variable nanoid : nat -> string.
Variable ConvertedNodeType : list (string * string).

Local Abbreviation processNode' := (processNode nanoid ConvertedNodeType).
Local Abbreviation processListItem_step' :=
  (processListItem_step nanoid ConvertedNodeType).
Local Abbreviation markdownToJson' := (markdownToJson nanoid ConvertedNodeType).
Local Abbreviation markdownToJson_step' :=
  (markdownToJson_step nanoid ConvertedNodeType).
Local Abbreviation typeOf' :=
  (fun kind =>
     js_or (ConvertedNodeType_at ConvertedNodeType kind)
       (ConvertedNodeType_text ConvertedNodeType)).

Lemma flatLists_eq (node : MdNode) :
  flatLists node =
    match Md.children node with
    | Some cs =>
        negb (String.eqb (Md.type node) MdNodeType.listItem
              && existsb (fun c => String.eqb (Md.type c) MdNodeType.list) cs)
        && forallb flatLists cs
    | None => true
    end.
Proof. destruct node; reflexivity. Qed.

(** [processNode] returns no sibling on [node]. *)
Local Abbreviation alone :=
  (fun node : MdNode =>
     flatLists node = true ->
     forall page parentId k r k',
       processNode' node page parentId k = Returns (Some r) k' ->
       siblings r = []).

Lemma mapM_alone (page : Z) (cs : list MdNode) :
  Forall alone cs -> forallb flatLists cs = true ->
  forall k rs k',
    mapM (fun childNode => processNode' childNode page None) cs k
      = Returns rs k' ->
    gatherSiblings rs = [].
Proof.
  induction 1 as [|c cs Hc Hcs IH]; intros Hflat k rs k' H; cbn in H.
  - apply ret_Returns in H as [-> _]. reflexivity.
  - cbn [forallb] in Hflat. apply andb_true_iff in Hflat as [Hflatc Hflat].
    apply bind_Returns in H as (y & k1 & Hy & H).
    apply bind_Returns in H as (ys & k2 & Hys & H).
    apply ret_Returns in H as [-> _].
    rewrite gatherSiblings_cons, (IH Hflat _ _ _ Hys), app_nil_r.
    destruct y as [r|]; [|reflexivity].
    exact (Hc Hflatc _ _ _ _ _ Hy).
Qed.

Lemma forEachM_step_alone (page : Z) (cs : list MdNode) :
  Forall alone cs -> forallb flatLists cs = true ->
  existsb (fun c => String.eqb (Md.type c) MdNodeType.list) cs = false ->
  forall newNode k st' k',
    forEachM (processListItem_step' processNode' page) cs (newNode, []) k
      = Returns st' k' ->
    snd st' = [].
Proof.
  induction 1 as [|c cs Hc Hcs IH]; intros Hflat Hlists newNode k st' k' H;
    cbn in H.
  - apply ret_Returns in H as [-> _]. reflexivity.
  - cbn [forallb] in Hflat. apply andb_true_iff in Hflat as [Hflatc Hflat].
    cbn [existsb] in Hlists. apply orb_false_iff in Hlists as [Hlist Hlists].
    apply bind_Returns in H as (st1 & k1 & Hstep & H).
    unfold processListItem_step in Hstep. rewrite Hlist in Hstep.
    cbn [negb] in Hstep.
    apply bind_Returns in Hstep as (r & k0 & Hr & Hstep).
    destruct r as [r|].
    + apply ret_Returns in Hstep as [-> _].
      rewrite (Hc Hflatc _ _ _ _ _ Hr) in H. cbn [app] in H.
      exact (IH Hflat Hlists _ _ _ _ H).
    + apply ret_Returns in Hstep as [-> _].
      exact (IH Hflat Hlists _ _ _ _ H).
Qed.

Lemma processNode_alone (node : MdNode) : alone node.
Proof.
  induction node as [node IH] using MdNode_children_ind.
  intros Hflat page parentId k r k' H. rewrite flatLists_eq in Hflat.
  rewrite (processNode_eq nanoid ConvertedNodeType) in H.
  apply bind_Returns in H as (result & k1 & Hres & H).
  destruct result as [[value siblingNodes]|];
    [|apply ret_Returns in H as [[=] _]].
  apply bind_Returns in H as (i & k2 & Hi & H).
  apply ret_Returns in H as [[= ->] _]. cbn [siblings]. clear Hi.
  assert (Hchildren : forall (wrap : list JsValue -> JsValue) v j,
            with_children node (fun cs =>
              let* result :=
                mapM (fun childNode => processNode' childNode page None) cs in
              ret (wrap (gatherValue result), gatherSiblings result)) k
            = Returns v j ->
            snd v = []).
  { intros wrap v j Hv. unfold with_children in Hv.
    destruct (Md.children node) as [cs|] eqn:Hcs;
      [|now apply throw_Returns in Hv].
    apply andb_true_iff in Hflat as [_ Hflat].
    apply bind_Returns in Hv as (rs & k0 & Hrs & Hv).
    apply ret_Returns in Hv as [-> _]. cbn [snd].
    eapply mapM_alone; [| |exact Hrs]; [now apply IH | exact Hflat]. }
  destruct (has literals (Md.type node)).
  - apply bind_Returns in Hres as (v & k0 & Hv & Hres).
    apply ret_Returns in Hv as [-> _].
    now apply ret_Returns in Hres as [[= _ ->] _].
  - destruct (has nodeProcessors_keys (Md.type node)).
    + apply bind_Returns in Hres as (v & k0 & Hv & Hres).
      apply ret_Returns in Hres as [[= Hval] _].
      change siblingNodes with (snd (value, siblingNodes)). rewrite Hval.
      unfold nodeProcessors_at in Hv.
      destruct (Md.type node =? "literal")%string.
      { now apply ret_Returns in Hv as [-> _]. }
      destruct (Md.type node =? MdNodeType.list)%string;
        [exact (Hchildren VArray v _ Hv)|].
      destruct (Md.type node =? MdNodeType.listItem)%string;
        [|exact (Hchildren (fun vs => VString (join " " vs)) v _ Hv)].
      unfold nodeProcessors_listItem in Hv.
      apply bind_Returns in Hv as (st & k3 & Hst & Hv).
      apply ret_Returns in Hv as [-> _]. cbn [snd].
      unfold processListItem_with, with_children in Hst.
      destruct (Md.children node) as [cs|] eqn:Hcs;
        [|now apply throw_Returns in Hst].
      apply andb_true_iff in Hflat as [Hlists Hflat].
      cbn [andb] in Hlists. apply negb_true_iff in Hlists.
      eapply forEachM_step_alone; [| | |exact Hst]; auto.
    + destruct (negb (has ignoreNodeTypes (Md.type node)));
        [|apply ret_Returns in Hres as [[=] _]].
      apply bind_Returns in Hres as (v & k0 & Hv & Hres).
      apply ret_Returns in Hres as [[= Hval] _].
      change siblingNodes with (snd (value, siblingNodes)). rewrite Hval.
      exact (Hchildren (fun vs => VString (join " " vs)) v _ Hv).
Qed.


End FlattenSiblings.


Lemma forEachM_app {A S} (f : S -> A -> M S) (l1 l2 : list A) (s : S) (k : nat) :
  forEachM f (l1 ++ l2) s k = (let* s' := forEachM f l1 s in forEachM f l2 s') k.
Proof.
  revert s k. induction l1 as [|x l1 IH]; intros s k; [reflexivity|].
  cbn [app forEachM]. unfold bind.
  destruct (f s x k) as [s1 k1|e]; [|reflexivity].
  rewrite IH. reflexivity.
Qed.

Lemma dropWhile_app_stop {A} (f : A -> bool) (Q : A -> Prop) (l base : list A) :
  dropWhile f base = base -> Forall Q l ->
  exists l', dropWhile f (l ++ base) = l' ++ base /\ Forall Q l'.
Proof.
  intros Hbase. induction 1 as [|x l Hx Hl IH]; cbn [app dropWhile].
  - exists []. split; [exact Hbase | constructor].
  - destruct (f x); [exact IH|].
    exists (x :: l). split; [reflexivity | now constructor].
Qed.

Lemma dropWhile_app_through {A} (f : A -> bool) (l base : list A) :
  dropWhile f base = base -> Forall (fun x => f x = true) l ->
  dropWhile f (l ++ base) = base.
Proof.
  intros Hbase. induction 1 as [|x l Hx Hl IH]; cbn [app dropWhile];
    [exact Hbase|].
  rewrite Hx. exact IH.
Qed.

(** The [if] statement and its loop, together: the entries at least as deep
    as an incoming heading are dropped from the top of the stack. *)
Lemma closeHeadings_dropWhile (sourceNode : MdNode) (stack : list ParentId) :
  Md.type sourceNode = MdNodeType.heading ->
  closeHeadings sourceNode stack
  = dropWhile (fun e => js_le (Md.depth sourceNode) (or0 (pid_depth e))) stack.
Proof.
  intros Htype. unfold closeHeadings. rewrite Htype, String.eqb_refl.
  cbn [andb]. destruct (Md.depth sourceNode) as [d|]; cbn [js_le].
  - assert (Hpop : forall rest,
              (if js_gt (Some d) (topDepth rest) then rest
               else popHeadings (Some d) rest)
              = dropWhile (fun e => d <=? or0 (pid_depth e)) rest).
    { induction rest as [|r rest IH]; cbn [popHeadings dropWhile].
      - now destruct (js_gt _ _).
      - unfold topDepth at 1. cbn [head mbind option_bind js_gt].
        rewrite Z.gtb_ltb, Z.ltb_antisym.
        destruct (d <=? or0 (pid_depth r)); cbn [negb]; [exact IH|].
        reflexivity. }
    destruct stack as [|e rest]; [now destruct (_ <=? _)|].
    unfold topDepth at 1. cbn [head mbind option_bind dropWhile popHeadings].
    destruct (d <=? or0 (pid_depth e)); [apply Hpop | reflexivity].
  - now destruct stack.
Qed.

Section FlattenHeadings.

Variable nanoid : nat -> string.
Variable ConvertedNodeType : list (string * string).

Local Abbreviation processNode' := (processNode nanoid ConvertedNodeType).
Local Abbreviation markdownToJson_step' :=
  (markdownToJson_step nanoid ConvertedNodeType).
Local Abbreviation typeOf' :=
  (fun kind =>
     js_or (ConvertedNodeType_at ConvertedNodeType kind)
       (ConvertedNodeType_text ConvertedNodeType)).

(** An entry pushed by a heading that is [within] the section of [c]. *)
Local Abbreviation deep :=
  (fun (c : MdNode) (e : ParentId) =>
     Md.type c = MdNodeType.heading
     /\ js_le (Md.depth c) (or0 (pid_depth e)) = true).

Lemma below_dropWhile (c b : MdNode) (base : list ParentId) :
  below c base = true ->
  Md.type c = MdNodeType.heading ->
  js_le (Md.depth c) (or0 (Md.depth b)) = true ->
  dropWhile (fun e => js_le (Md.depth b) (or0 (pid_depth e))) base = base.
Proof.
  unfold below. intros Hbelow Htype Hdeep.
  rewrite Htype, String.eqb_refl in Hbelow. cbn [negb orb] in Hbelow.
  destruct base as [|e base]; [reflexivity|]. cbn [dropWhile].
  destruct (Md.depth c) as [dc|]; [|discriminate].
  destruct (Md.depth b) as [d|]; [|reflexivity].
  cbn [js_le or0] in *.
  destruct (Z.leb_spec d (or0 (pid_depth e))); [|reflexivity]. lia.
Qed.

(** What one round of the loop does to the stack and the output. *)
Lemma markdownToJson_step_stack (page : Z) (stack : list ParentId)
    (out : list ProcessedNode) (sourceNode : MdNode) (k k' : nat)
    (st' : list ParentId * list ProcessedNode) :
  markdownToJson_step' page (stack, out) sourceNode k = Returns st' k' ->
  exists nodes,
    snd st' = out ++ nodes
    /\ (has ignoreNodeTypes (Md.type sourceNode) = false ->
        exists main sibs,
          nodes = main :: sibs
          /\ PN.parentId main
             = pid_id <$> head (closeHeadings sourceNode stack)
          /\ PN.type main = typeOf' (Md.type sourceNode))
    /\ (fst st'
       = if String.eqb (Md.type sourceNode) MdNodeType.heading
         then match nodes with
              | n :: _ => mkParentId (PN.id n) (Md.depth sourceNode)
                            :: closeHeadings sourceNode stack
              | [] => []
              end
         else closeHeadings sourceNode stack)
    /\ (Md.type sourceNode = MdNodeType.heading -> nodes <> []).
Proof.
  intros H. unfold markdownToJson_step in H.
  apply bind_Returns in H as (b & k1 & Hb & H).
  unfold processRootNode in Hb.
  apply bind_Returns in Hb as (r & k0 & Hr & Hb).
  pose proof (processNode_produced nanoid ConvertedNodeType _ _ _ _ _ _ Hr)
    as Hprod.
  pose proof (processNode_ignored nanoid ConvertedNodeType sourceNode page
                (pid_id <$> head (closeHeadings sourceNode stack)) k) as Hign.
  apply bind_Returns in H as (stack2 & k2 & Hstack2 & H).
  apply ret_Returns in H as [-> _]. cbn [fst snd].
  exists b. split; [reflexivity|]. split.
  - intros Hkept. destruct r as [r|].
    + destruct Hprod as (_ & _ & _ & Hpid & Htype & _).
      apply ret_Returns in Hb as [-> _]. eauto.
    + apply (processNode_None nanoid ConvertedNodeType) in Hr. congruence.
  - destruct (Md.type sourceNode =? MdNodeType.heading)%string eqn:Hheading.
    + destruct b as [|n b]; [now apply throw_Returns in Hstack2|].
      apply ret_Returns in Hstack2 as [-> _]. split; [reflexivity|].
      discriminate.
    + apply ret_Returns in Hstack2 as [-> _]. split; [reflexivity|].
      intros Heq. rewrite Heq in Hheading. discriminate.
Qed.

Lemma forEachM_within (page : Z) (c : MdNode) (base : list ParentId)
    (between : list MdNode) :
  below c base = true ->
  Forall (fun b => within c b = true) between ->
  forall opened out k st' k',
    Forall (deep c) opened ->
    forEachM (markdownToJson_step' page) between (opened ++ base, out) k
      = Returns st' k' ->
    exists opened' mid,
      st' = (opened' ++ base, out ++ mid) /\ Forall (deep c) opened'.
Proof.
  intros Hbelow. induction 1 as [|b between Hb Hbetween IH];
    intros opened out k st' k' Hopened H; cbn [forEachM] in H.
  - apply ret_Returns in H as [-> _]. exists opened, [].
    now rewrite app_nil_r.
  - apply bind_Returns in H as ([stack1 out1] & k1 & Hstep & H).
    apply markdownToJson_step_stack in Hstep
      as (nodes & Hout & _ & Hstack & Hnodes).
    cbn [fst snd] in Hout, Hstack. subst out1.
    assert (Hnext : exists opened1,
              stack1 = opened1 ++ base /\ Forall (deep c) opened1).
    { unfold within in Hb.
      destruct (Md.type b =? MdNodeType.heading)%string eqn:Hheading.
      - cbn [negb orb] in Hb. apply andb_true_iff in Hb as [Hc Hdeep].
        apply String.eqb_eq in Hheading, Hc.
        assert (Hdeep' : js_le (Md.depth c) (or0 (Md.depth b)) = true).
        { destruct (Md.depth c) as [dc|]; [|discriminate].
          now destruct (Md.depth b) as [d|]; [|discriminate]. }
        rewrite (closeHeadings_dropWhile b _ Hheading) in Hstack.
        destruct (dropWhile_app_stop
                    (fun e => js_le (Md.depth b) (or0 (pid_depth e)))
                    (deep c) opened base
                    (below_dropWhile c b base Hbelow Hc Hdeep') Hopened)
          as (opened1 & Hdrop & Hopened1).
        rewrite Hdrop in Hstack.
        destruct nodes as [|n nodes]; [now destruct (Hnodes Hheading)|].
        exists (mkParentId (PN.id n) (Md.depth b) :: opened1).
        split; [exact Hstack|]. constructor; [|exact Hopened1].
        split; [exact Hc|]. cbn [pid_depth]. exact Hdeep'.
      - unfold closeHeadings in Hstack. rewrite Hheading in Hstack.
        cbn [andb] in Hstack. eauto. }
    destruct Hnext as (opened1 & -> & Hopened1).
    destruct (IH _ _ _ _ _ Hopened1 H) as (opened' & mid & -> & Hopened').
    exists opened', (nodes ++ mid). now rewrite app_assoc.
Qed.

Lemma forEachM_step_extends (page : Z) (cs : list MdNode) :
  forall stack out k st' k',
    forEachM (markdownToJson_step' page) cs (stack, out) k = Returns st' k' ->
    exists more, snd st' = out ++ more.
Proof.
  induction cs as [|c cs IH]; intros stack out k st' k' H; cbn [forEachM] in H.
  - apply ret_Returns in H as [-> _]. exists []. now rewrite app_nil_r.
  - apply bind_Returns in H as ([stack1 out1] & k1 & Hstep & H).
    apply markdownToJson_step_stack in Hstep as (nodes & Hout & _).
    cbn [snd] in Hout. subst out1.
    destruct (IH _ _ _ _ _ H) as [more ->].
    exists (nodes ++ more). now rewrite app_assoc.
Qed.

(** The rounds for [between] and then [c], started on the stack [base]:
    the first node [c] leaves has the top of [base] as its parent. *)
Lemma forEachM_parent_is_base (page : Z) (base : list ParentId)
    (out : list ProcessedNode) (between : list MdNode) (c : MdNode)
    (k k' : nat) (st' : list ParentId * list ProcessedNode) :
  below c base = true ->
  Forall (fun b => within c b = true) between ->
  has ignoreNodeTypes (Md.type c) = false ->
  forEachM (markdownToJson_step' page) (between ++ [c]) (base, out) k
    = Returns st' k' ->
  exists st1 k1 mid main sibs,
    forEachM (markdownToJson_step' page) between (base, out) k
      = Returns st1 k1
    /\ snd st1 = out ++ mid
    /\ snd st' = out ++ mid ++ main :: sibs
    /\ PN.parentId main = pid_id <$> head base
    /\ PN.type main = typeOf' (Md.type c).
Proof.
  intros Hbelow Hbetween Hkept H. rewrite forEachM_app in H.
  apply bind_Returns in H as (st1 & k1 & Hloop & H).
  destruct (forEachM_within page c base between Hbelow Hbetween
              [] out k st1 k1 ltac:(constructor) Hloop)
    as (opened & mid & -> & Hopened).
  cbn [forEachM] in H. apply bind_Returns in H as (st2 & k2 & Hstep & H).
  apply ret_Returns in H as [-> _].
  apply markdownToJson_step_stack in Hstep
    as (nodes & Hout & Hmain & _).
  destruct (Hmain Hkept) as (main & sibs & -> & Hpid & Htype).
  exists (opened ++ base, out ++ mid), k1, mid, main, sibs.
  split; [exact Hloop|]. split; [reflexivity|].
  split; [now rewrite Hout, <- app_assoc|]. split; [|exact Htype].
  rewrite Hpid. f_equal. f_equal.
  destruct (Md.type c =? MdNodeType.heading)%string eqn:Hheading.
  - apply String.eqb_eq in Hheading.
    rewrite (closeHeadings_dropWhile c _ Hheading).
    assert (Hself : js_le (Md.depth c) (or0 (Md.depth c)) = true).
    { unfold below in Hbelow. rewrite Hheading, String.eqb_refl in Hbelow.
      cbn [negb orb] in Hbelow.
      destruct (Md.depth c) as [dc|]; [|discriminate]. apply Z.leb_refl. }
    apply dropWhile_app_through.
    + exact (below_dropWhile c c base Hbelow Hheading Hself).
    + eapply Forall_impl; [exact Hopened|]. now intros e [_ He].
  - unfold closeHeadings. rewrite Hheading. cbn [andb].
    destruct opened as [|e opened]; [reflexivity|].
    apply Forall_cons in Hopened as [[He _] _].
    rewrite He, String.eqb_refl in Hheading. discriminate.
Qed.

(** X17. On a page, a top-level block falls under the nearest heading
    before it, and a heading under the nearest heading before it that is
    less deep.  Let the top-level children be [before], a heading [h],
    [between], [c] and [after], where [between] has no heading if [c] is a
    block, and only headings at least as deep as [c] if [c] is a heading
    deeper than [h].  Then the first node emitted for [c] has as its
    [parentId] the [id] of the first node emitted for [h]; what is emitted
    for a part of the page is what [markdownToJson] returns on the children
    up to there.  With no heading [h] before [c] that qualifies, the first
    node emitted for [c] has no [parentId]. *)
Theorem markdownToJson_parent_is_enclosing_heading (parsedMd : MdNode)
    (page : Z) (k k' : nat) (out : list ProcessedNode)
    (between : list MdNode) (c : MdNode) (after : list MdNode) :
  Forall (fun b => within c b = true) between ->
  has ignoreNodeTypes (Md.type c) = false ->
  markdownToJson nanoid ConvertedNodeType parsedMd page k = Returns out k' ->
  (forall before h,
      Md.children parsedMd = Some (before ++ h :: between ++ c :: after) ->
      Md.type h = MdNodeType.heading ->
      (Md.type c = MdNodeType.heading ->
       exists dc, Md.depth c = Some dc /\ or0 (Md.depth h) < dc) ->
      exists out1 k1 hmain hsibs mid k2 cmain csibs rest,
        markdownToJson nanoid ConvertedNodeType (Mdast.root before) page k
          = Returns out1 k1
        /\ markdownToJson nanoid ConvertedNodeType
             (Mdast.root (before ++ h :: between)) page k
           = Returns (out1 ++ hmain :: hsibs ++ mid) k2
        /\ out = out1 ++ (hmain :: hsibs ++ mid) ++ (cmain :: csibs) ++ rest
        /\ PN.parentId cmain = Some (PN.id hmain)
        /\ PN.type hmain = typeOf' MdNodeType.heading
        /\ PN.type cmain = typeOf' (Md.type c))
  /\ (Md.children parsedMd = Some (between ++ c :: after) ->
      (Md.type c = MdNodeType.heading -> is_Some (Md.depth c)) ->
      exists mid k2 cmain csibs rest,
        markdownToJson nanoid ConvertedNodeType (Mdast.root between) page k
          = Returns mid k2
        /\ out = mid ++ (cmain :: csibs) ++ rest
        /\ PN.parentId cmain = None
        /\ PN.type cmain = typeOf' (Md.type c)).
Proof.
  intros Hbetween Hkept H. unfold markdownToJson, with_children in H.
  assert (Hroot : forall cs st j,
            forEachM (markdownToJson_step' page) cs ([], []) k = Returns st j ->
            markdownToJson nanoid ConvertedNodeType (Mdast.root cs) page k
            = Returns (snd st) j).
  { intros cs st j Hrun. unfold markdownToJson, with_children.
    cbn [Mdast.root Mdast.parent Md.children]. unfold bind.
    rewrite Hrun. reflexivity. }
  split.
  - intros before h Hcs Hh Hunder. rewrite Hcs in H.
    apply bind_Returns in H as (st & k0 & Hloop & H).
    apply ret_Returns in H as [-> _].
    replace (before ++ h :: between ++ c :: after)
      with (before ++ [h] ++ (between ++ [c]) ++ after) in Hloop
      by (cbn [app]; now rewrite <- app_assoc).
    rewrite forEachM_app in Hloop.
    apply bind_Returns in Hloop as ([stack1 out1] & k1 & Hbefore & Hloop).
    rewrite forEachM_app in Hloop.
    apply bind_Returns in Hloop as (st2 & k2 & Hheading & Hloop).
    cbn [forEachM] in Hheading.
    apply bind_Returns in Hheading as (st2' & k2' & Hheading & Hret).
    apply ret_Returns in Hret as [-> ->].
    pose proof Hheading as Hstep.
    apply markdownToJson_step_stack in Hheading
      as (nodes & Hout & Hmain & Hstack & _).
    destruct Hmain as (hmain & hsibs & -> & _ & Hhtype);
      [rewrite Hh; reflexivity|].
    rewrite Hh in Hhtype. rewrite Hh, String.eqb_refl in Hstack.
    destruct st2' as [stack2 out2]. cbn [fst snd] in Hout, Hstack.
    subst stack2 out2.
    rewrite forEachM_app in Hloop.
    apply bind_Returns in Hloop as (st3 & k3 & Hc & Hafter).
    pose proof Hc as Hmid.
    apply forEachM_parent_is_base in Hmid
      as (st1 & k4 & mid & cmain & csibs & Hrun & Hst1 & Hst3 & Hpid & Htype);
      [|unfold below; destruct (Md.type c =? MdNodeType.heading)%string eqn:Hch;
        [apply String.eqb_eq in Hch; destruct (Hunder Hch) as (dc & -> & Hlt);
         cbn [negb orb pid_depth]; now apply Z.ltb_lt
        |reflexivity]
       |exact Hbetween|exact Hkept].
    destruct st3 as [stack3 out3]. cbn [snd] in Hst3. subst out3.
    apply forEachM_step_extends in Hafter as [rest ->].
    exists out1, k1, hmain, hsibs, mid, k4, cmain, csibs, rest.
    split; [|split; [|split; [|split; [|split]]]].
    + exact (Hroot before _ _ Hbefore).
    + replace (out1 ++ hmain :: hsibs ++ mid) with (snd st1)
        by (rewrite Hst1, <- app_assoc; reflexivity).
      apply Hroot.
      replace (before ++ h :: between) with (before ++ [h] ++ between)
        by reflexivity.
      rewrite forEachM_app. unfold bind at 1. rewrite Hbefore.
      rewrite forEachM_app. unfold bind at 1. cbn [forEachM].
      unfold bind at 1. rewrite Hstep. exact Hrun.
    + rewrite <- !app_assoc. cbn [app]. now rewrite <- !app_assoc.
    + exact Hpid.
    + exact Hhtype.
    + exact Htype.
  - intros Hcs Hdepth. rewrite Hcs in H.
    apply bind_Returns in H as (st & k0 & Hloop & H).
    apply ret_Returns in H as [-> _].
    replace (between ++ c :: after) with ((between ++ [c]) ++ after) in Hloop
      by now rewrite <- app_assoc.
    rewrite forEachM_app in Hloop.
    apply bind_Returns in Hloop as (st3 & k3 & Hc & Hafter).
    apply forEachM_parent_is_base in Hc
      as (st1 & k4 & mid & cmain & csibs & Hrun & Hst1 & Hst3 & Hpid & Htype);
      [|unfold below; destruct (Md.type c =? MdNodeType.heading)%string eqn:Hch;
        [apply String.eqb_eq in Hch; destruct (Hdepth Hch) as [dc ->];
         reflexivity
        |reflexivity]
       |exact Hbetween|exact Hkept].
    destruct st3 as [stack3 out3]. cbn [snd] in Hst3. subst out3.
    apply forEachM_step_extends in Hafter as [rest ->].
    exists mid, k4, cmain, csibs, rest.
    split; [|split; [|split]].
    + rewrite <- (app_nil_l mid), <- Hst1. exact (Hroot between _ _ Hrun).
    + cbn [app]. now rewrite <- !app_assoc.
    + exact Hpid.
    + exact Htype.
Qed.

End FlattenHeadings.

(** ** Values *)

Lemma string_app_assoc (a b c : string) :
  ((a ++ b) ++ c = a ++ b ++ c)%string.
Proof.
  induction a as [|x a IH]; [reflexivity|].
  change (String x ((a ++ b) ++ c) = String x (a ++ b ++ c))%string.
  now rewrite IH.
Qed.

Lemma string_app_nil_r (a : string) : (a ++ "" = a)%string.
Proof.
  induction a as [|x a IH]; [reflexivity|].
  change (String x (a ++ "") = String x a)%string. now rewrite IH.
Qed.

Lemma concat_empty_cons (t : string) (ts : list string) :
  String.concat "" (t :: ts) = (t ++ String.concat "" ts)%string.
Proof.
  destruct ts as [|t' ts]; cbn [String.concat];
    [now rewrite string_app_nil_r | reflexivity].
Qed.

Section FlattenValues.

Variable nanoid : nat -> string.
Variable ConvertedNodeType : list (string * string).

Local Abbreviation processNode' := (processNode nanoid ConvertedNodeType).
Local Abbreviation processListItem_step' :=
  (processListItem_step nanoid ConvertedNodeType).
Local Abbreviation typeOf' :=
  (fun kind =>
     js_or (ConvertedNodeType_at ConvertedNodeType kind)
       (ConvertedNodeType_text ConvertedNodeType)).

Lemma processNode_literal (node : MdNode) (page : Z)
    (parentId : option string) (k : nat) :
  has literals (Md.type node) = true ->
  processNode' node page parentId k =
    Returns
      (Some {| mainNode :=
                 PN.mkProcessedNode (nanoid k) (Some page) parentId
                   (typeOf' (Md.type node)) (fromOption (Md.value node));
               siblings := [] |})
      (S k).
Proof.
  intros Hlit. rewrite (processNode_eq nanoid ConvertedNodeType), Hlit.
  reflexivity.
Qed.

Lemma mapM_literals (page : Z) (ls : list MdNode) :
  Forall (fun l => has literals (Md.type l) = true) ls ->
  forall k, exists rs,
    mapM (fun childNode => processNode' childNode page None) ls k
      = Returns rs (k + length ls)%nat
    /\ gatherValue rs = (fun l => fromOption (Md.value l)) <$> ls
    /\ gatherSiblings rs = [].
Proof.
  induction 1 as [|l ls Hl Hls IH]; intros k; cbn [mapM].
  - exists []. replace (k + length [])%nat with k by (cbn; lia).
    repeat split; reflexivity.
  - destruct (IH (S k)) as (rs & Hrs & Hvalues & Hsibs).
    unfold bind at 1. rewrite (processNode_literal l page None k Hl).
    unfold bind at 1. rewrite Hrs.
    eexists. split; [|split].
    + cbn [ret length]. f_equal. lia.
    + unfold gatherValue in *. cbn. now rewrite Hvalues.
    + now rewrite gatherSiblings_cons, Hsibs.
Qed.

Lemma join_values (ls : list MdNode) :
  join " " ((fun l => fromOption (Md.value l)) <$> ls)
  = String.concat " "
      ((fun l => match Md.value l with Some s => s | None => "" end) <$> ls).
Proof.
  unfold join. f_equal. rewrite <- list_fmap_compose.
  apply list_fmap_ext. intros i l _. cbn.
  now destruct (Md.value l).
Qed.

Lemma processNode_plain (c : MdNode) (page : Z) (parentId : option string)
    (k : nat) :
  plainBlock c = true ->
  processNode' c page parentId k =
    Returns
      (Some {| mainNode :=
                 PN.mkProcessedNode (nanoid (k + length (literalsOf c)))
                   (Some page) parentId (typeOf' (Md.type c))
                   (VString (textOf c));
               siblings := [] |})
      (S (k + length (literalsOf c))).
Proof.
  unfold plainBlock, textOf, literalsOf. intros Hplain.
  apply andb_true_iff in Hplain as [Hplain Hls].
  apply andb_true_iff in Hplain as [Hplain Hign].
  apply andb_true_iff in Hplain as [Hlit Hkeys].
  apply negb_true_iff in Hlit, Hkeys, Hign.
  rewrite (processNode_eq nanoid ConvertedNodeType), Hlit, Hkeys, Hign.
  cbn [negb]. unfold nodeProcessors_parent, with_children.
  destruct (Md.children c) as [ls|]; [|discriminate].
  rewrite forallb_forall in Hls.
  assert (Hall : Forall (fun l => has literals (Md.type l) = true) ls).
  { apply Forall_forall. intros l Hl. now apply Hls, list_elem_of_In. }
  destruct (mapM_literals page ls Hall k) as (rs & Hrs & Hvalues & Hsibs).
  unfold bind. rewrite Hrs. cbn [ret draw].
  now rewrite Hvalues, Hsibs, join_values.
Qed.


Lemma forEachM_plainBlocks (page : Z) (cs : list MdNode) :
  Forall (fun c => plainBlock c = true) cs ->
  forall i pg pid ty s k,
    forEachM (processListItem_step' processNode' page) cs
      (Some (PN.mkProcessedNode i pg pid ty (VString s)), []) k
    = Returns
        (Some (PN.mkProcessedNode i pg pid ty
                 (VString (s ++ String.concat "" (textOf <$> cs)))), [])
        (k + sum_list (drawsOf <$> cs))%nat.
Proof.
  induction 1 as [|c cs Hc Hcs IH]; intros i pg pid ty s k; cbn [forEachM].
  - cbn. rewrite string_app_nil_r. unfold ret. f_equal. lia.
  - unfold bind at 1, processListItem_step.
    assert (Hlist : (Md.type c =? MdNodeType.list)%string = false).
    { apply String.eqb_neq. intros Heq. unfold plainBlock in Hc.
      rewrite Heq in Hc. discriminate. }
    rewrite Hlist. cbn [negb]. unfold bind at 1.
    rewrite (processNode_plain c page None k Hc).
    cbn [ret mainNode siblings PN.id PN.page PN.parentId PN.type PN.value
         js_add toPrimitive toString app].
    rewrite IH. cbn [fmap list_fmap sum_list sum_list_with].
    rewrite concat_empty_cons, string_app_assoc. f_equal.
    unfold id, drawsOf. lia.
Qed.


End FlattenValues.

Section FlattenItems.

Variable nanoid : nat -> string.
Variable ConvertedNodeType : list (string * string).

Local Abbreviation processNode' := (processNode nanoid ConvertedNodeType).
Local Abbreviation processListItem' := (processListItem nanoid ConvertedNodeType).
Local Abbreviation processListItem_step' :=
  (processListItem_step nanoid ConvertedNodeType).
Local Abbreviation typeOf' :=
  (fun kind =>
     js_or (ConvertedNodeType_at ConvertedNodeType kind)
       (ConvertedNodeType_text ConvertedNodeType)).

(** What the child [c] added to the siblings of its list item, whose
    node has the identifier [itemId] from then on: for a list, the list's
    node first, with the item's node as its parent. *)
Local Abbreviation hangs :=
  (fun (itemId : option string) (c : MdNode) (added : list ProcessedNode) =>
     Md.type c = MdNodeType.list ->
     exists main rest,
       added = main :: rest
       /\ is_Some itemId
       /\ PN.parentId main = itemId
       /\ PN.type main = typeOf' MdNodeType.list).

Lemma processListItem_step_hangs (page : Z) (childNode : MdNode)
    (newNode newNode' : option ProcessedNode)
    (sibs sibs' : list ProcessedNode) (k k' : nat) :
  processListItem_step' processNode' page (newNode, sibs) childNode k
    = Returns (newNode', sibs') k' ->
  (forall n, newNode = Some n ->
     exists n', newNode' = Some n' /\ PN.id n' = PN.id n)
  /\ exists added,
       sibs' = sibs ++ added
       /\ hangs (PN.id <$> newNode') childNode added.
Proof.
  intros H. unfold processListItem_step in H.
  destruct (Md.type childNode =? MdNodeType.list)%string eqn:Hlist;
    cbn [negb] in H.
  - apply String.eqb_eq in Hlist.
    apply bind_Returns in H as (n & k1 & Hn & H).
    apply bind_Returns in H as (r & k2 & Hr & H).
    pose proof (processNode_produced nanoid ConvertedNodeType _ _ _ _ _ _ Hr)
      as Hprod.
    assert (Hkept : forall n0, newNode = Some n0 -> n = n0).
    { intros n0 ->. now apply ret_Returns in Hn as [-> _]. }
    destruct r as [r|].
    + destruct Hprod as (_ & _ & _ & Hpid & Htype & _).
      apply ret_Returns in H as [[= -> ->] _]. split.
      * intros n0 Hn0. exists n. split; [reflexivity|].
        now rewrite (Hkept n0 Hn0).
      * exists (mainNode r :: siblings r). split; [reflexivity|].
        intros _. exists (mainNode r), (siblings r).
        split; [reflexivity|]. split; [now eexists|].
        split; [exact Hpid|]. now rewrite Htype, Hlist.
    + apply (processNode_None nanoid ConvertedNodeType) in Hr.
      rewrite Hlist in Hr. discriminate.
  - apply bind_Returns in H as (r & k1 & Hr & H).
    assert (Hnolist : hangs (PN.id <$> newNode') childNode
                        (match r with Some r => siblings r | None => [] end)).
    { intros Heq. rewrite Heq, String.eqb_refl in Hlist. discriminate. }
    destruct r as [r|]; apply ret_Returns in H as [[= -> ->] _].
    + split; [|eauto]. intros n ->. eexists. split; reflexivity.
    + split; [eauto|]. exists []. now rewrite app_nil_r.
Qed.

(** X20. Every list directly inside a list item hangs under the item's
    node.  The siblings [processListItem] returns split into one stretch per
    child of the item, in order; the stretch of a child that is a list
    begins with the list's node, of the converted list type, whose
    [parentId] is the [id] of the node returned for the item: the item's
    node keeps the [id] it got first, from the first child that left a node or
    from the placeholder, whatever is merged into it later. *)
Theorem processListItem_lists_hang_under_item (node : MdNode)
    (cs : list MdNode) (page : Z) (k k' : nat)
    (newNode : option ProcessedNode) (sibs : list ProcessedNode) :
  Md.children node = Some cs ->
  processListItem' node page k = Returns (newNode, sibs) k' ->
  exists stretches,
    sibs = concat stretches
    /\ Forall2
         (fun c added =>
            Md.type c = MdNodeType.list ->
            exists item main rest,
              newNode = Some item
              /\ added = main :: rest
              /\ PN.parentId main = Some (PN.id item)
              /\ PN.type main = typeOf' MdNodeType.list)
         cs stretches.
Proof.
  intros Hcs H. unfold processListItem, processListItem_with, with_children in H.
  rewrite Hcs in H. clear Hcs.
  assert (Hloop : forall cs start sibs0 j,
            forEachM (processListItem_step' processNode' page) cs
              (start, sibs0) j = Returns (newNode, sibs) k' ->
            (forall n, start = Some n ->
               exists n', newNode = Some n' /\ PN.id n' = PN.id n)
            /\ exists stretches,
                 sibs = sibs0 ++ concat stretches
                 /\ Forall2 (hangs (PN.id <$> newNode)) cs stretches).
  { clear H. induction cs0 as [|c cs0 IH]; intros start sibs0 j H;
      cbn [forEachM] in H.
    - apply ret_Returns in H as [[= <- <-] _]. split; [eauto|].
      exists []. split; [now rewrite app_nil_r | constructor].
    - apply bind_Returns in H as ([mid sibs1] & j1 & Hstep & H).
      apply processListItem_step_hangs in Hstep
        as (Hid & added & -> & Hadded).
      destruct (IH _ _ _ H) as (Hid' & stretches & -> & Hall).
      split.
      + intros n Hn. destruct (Hid n Hn) as (n1 & Hn1 & <-).
        exact (Hid' n1 Hn1).
      + exists (added :: stretches). split; [now rewrite <- app_assoc|].
        constructor; [|exact Hall].
        intros Hlist. destruct (Hadded Hlist)
          as (main & rest & -> & [i Hi] & Hpid & Htype).
        exists main, rest. split; [reflexivity|]. split; [|split; [|exact Htype]].
        * destruct mid as [n1|]; [|discriminate].
          destruct (Hid' n1 eq_refl) as (n' & -> & _). now eexists.
        * rewrite Hpid. destruct mid as [n1|]; [|discriminate].
          destruct (Hid' n1 eq_refl) as (n' & -> & Hn'). cbn.
          now rewrite Hn'. }
  destruct (Hloop cs None [] k H) as (_ & stretches & -> & Hall).
  exists stretches. split; [reflexivity|].
  eapply Forall2_impl; [exact Hall|]. cbn.
  intros c added Hc Hlist.
  destruct (Hc Hlist) as (main & rest & -> & [i Hi] & Hpid & Htype).
  destruct newNode as [item|]; [|discriminate].
  exists item, main, rest. repeat split; auto.
Qed.

End FlattenItems.


Lemma processListItem_lists_hang_under_item_witness :
  exists newNode sibs k' stretches,
    processListItem Sample.nanoid Sample.ConvertedNodeType Fixture.item
      1 0%nat
    = Returns (newNode, sibs) k'
    /\ sibs = concat stretches
    /\ Forall2
         (fun c added =>
            Md.type c = MdNodeType.list ->
            exists item main rest,
              newNode = Some item
              /\ added = main :: rest
              /\ PN.parentId main = Some (PN.id item)
              /\ PN.type main
                 = js_or (ConvertedNodeType_at Sample.ConvertedNodeType
                            MdNodeType.list)
                     (ConvertedNodeType_text Sample.ConvertedNodeType))
         Fixture.itemBlocks stretches.
Proof.
  do 3 eexists.
  assert (Hrun : processListItem Sample.nanoid Sample.ConvertedNodeType
                   Fixture.item 1 0%nat = Returns (_, _) _)
    by (vm_compute; reflexivity).
  destruct (processListItem_lists_hang_under_item Sample.nanoid
              Sample.ConvertedNodeType Fixture.item Fixture.itemBlocks
              1 0%nat _ _ _ eq_refl Hrun)
    as (stretches & Hsibs & Hall).
  exists stretches. split; [exact Hrun|]. split; [exact Hsibs | exact Hall].
Defined.



(** ** Witnesses *)

Lemma cropRegion_centered_witness :
  exists l,
    left (cropRegion (mkMetadata (Some 1537) (Some 2048))) = Some l
    /\ 0 <= l
    /\ (150 <= 1537 -> l + 150 <= 1537 /\ 0 <= (1537 - (l + 150)) - l <= 1)
    /\ (1537 < 150 -> l = 0)
    /\ region_width (cropRegion (mkMetadata (Some 1537) (Some 2048))) = 150
    /\ top (cropRegion (mkMetadata (Some 1537) (Some 2048))) = 0
    /\ region_height (cropRegion (mkMetadata (Some 1537) (Some 2048))) = 2048.
Proof.
  apply (cropRegion_centered (mkMetadata (Some 1537) (Some 2048)) 1537).
  reflexivity.
Defined.

Lemma formatMarkdown_unwraps_witness :
  formatMarkdown
    (Some (lit " " ++ wrapFence (wrapFence (lit "# Title")) ++ [10%N]))
  = Normal (lit "# Title").
Proof.
  apply (formatMarkdown_unwraps (lit "# Title") (lit " ") [10%N] 2).
  - reflexivity.
  - intros g Hg. vm_compute in Hg. discriminate.
  - repeat constructor.
  - repeat constructor.
Defined.

Lemma convertKeysToSnakeCase_keeps_entries_witness :
  (forall k v,
      (k, v) ∈ [(lit "maxTokens", 1); (lit "topP", 2)] ->
      convertKeysToSnakeCase (Some [(lit "maxTokens", 1); (lit "topP", 2)])
        !! camelToSnakeCase k = Some v)
  /\ size (convertKeysToSnakeCase (Some [(lit "maxTokens", 1); (lit "topP", 2)]))
     = 2%nat.
Proof.
  apply (convertKeysToSnakeCase_keeps_entries
           [(lit "maxTokens", 1); (lit "topP", 2)]).
  - compute_done.
  - compute_done.
Defined.

Lemma validateLLMParams_rejects_first_witness :
  validateLLMParams Fixture.Number Fixture.number
    ([("temperature", IsNumber Fixture.Number 1)]
     ++ ("topK", NotNumber Fixture.Number)
        :: [("maxTokens", NotNumber Fixture.Number)])
  = Abrupt "Invalid LLM parameter: topK".
Proof.
  apply (validateLLMParams_rejects_first Fixture.Number Fixture.number
           [("temperature", IsNumber Fixture.Number 1)]
           [("maxTokens", NotNumber Fixture.Number)]
           "topK" (NotNumber Fixture.Number)).
  - repeat constructor. cbn. eauto.
  - intros [Hkey _]. cbn in Hkey. vm_compute in Hkey.
    repeat (apply elem_of_cons in Hkey as [Hkey|Hkey]; [discriminate|]).
    now apply elem_of_nil in Hkey.
Defined.

Lemma downloadFile_result_witness :
  snd (Fixture.downloadFile "https://host/docs/a.pdf?token=1" "/tmp")
  = Normal (".pdf", "/tmp/a.pdf")
  /\ (exists name rest,
        "https://host/docs/a.pdf?token=1" = (name ++ rest)%string
        /\ ("?"%char ∉ String.list_ascii_of_string name)
        /\ (rest = "" \/ exists rest', rest = String "?"%char rest')
        /\ "/tmp/a.pdf"
           = Fixture.path_join "/tmp" (Fixture.path_basename name))
  /\ startsWithDot ".pdf" = true
  /\ exists mimetype,
       downloadFile_extension Fixture.mime_lookup Fixture.mime_extension
         mimetype "/tmp/a.pdf"
       = Normal ".pdf"
       /\ (isValidUrl Fixture.URL_protocol "https://host/docs/a.pdf?token=1"
           = false -> mimetype = None)
       /\ (isValidUrl Fixture.URL_protocol "https://host/docs/a.pdf?token=1"
           = true ->
           exists response,
             Fixture.axios_get "https://host/docs/a.pdf?token=1"
             = Normal response
             /\ status response = 200
             /\ mimetype = contentType response).
Proof.
  split; [reflexivity|].
  apply (downloadFile_result Fixture.URL_protocol Fixture.path_basename
           Fixture.path_join Fixture.axios_get Fixture.stream_pipeline
           Fixture.fs_copyFile Fixture.mime_lookup Fixture.mime_extension
           "https://host/docs/a.pdf?token=1" "/tmp").
  reflexivity.
Defined.

Lemma markdownToJson_ids_distinct_witness :
  exists out,
    markdownToJson Sample.nanoid Sample.ConvertedNodeType Sample.nestedList 1
      0%nat
    = Returns out 8%nat
    /\ NoDup (PN.id <$> out)
    /\ (length out <= 8 - 0)%nat.
Proof.
  eexists. split; [vm_compute; reflexivity|].
  apply (markdownToJson_ids_distinct Sample.nanoid Sample.ConvertedNodeType
           Sample.nestedList 1 0%nat 8%nat).
  - intros i j _ _ H. unfold Sample.nanoid in H.
    apply (inj (String.append "id")) in H. now apply (inj pretty) in H.
  - vm_compute. reflexivity.
Defined.


Lemma markdownToJson_parent_is_enclosing_heading_witness :
  exists out k' out1 k1 hmain hsibs mid k2 cmain csibs rest,
    markdownToJson Sample.nanoid Sample.ConvertedNodeType Fixture.report 1
      0%nat
    = Returns out k'
    /\ markdownToJson Sample.nanoid Sample.ConvertedNodeType (Mdast.root [])
         1 0%nat
       = Returns out1 k1
    /\ markdownToJson Sample.nanoid Sample.ConvertedNodeType
         (Mdast.root
            ([] ++ Mdast.heading 1 [Mdast.text "Report"]
                :: [Mdast.paragraph [Mdast.text "Intro"];
                    Mdast.heading 2 [Mdast.text "Scope"];
                    Mdast.heading 3 [Mdast.text "Detail"];
                    Mdast.thematicBreak]))
         1 0%nat
       = Returns (out1 ++ hmain :: hsibs ++ mid) k2
    /\ out = out1 ++ (hmain :: hsibs ++ mid) ++ (cmain :: csibs) ++ rest
    /\ PN.parentId cmain = Some (PN.id hmain)
    /\ PN.type hmain
       = js_or (ConvertedNodeType_at Sample.ConvertedNodeType
                  MdNodeType.heading)
           (ConvertedNodeType_text Sample.ConvertedNodeType)
    /\ PN.type cmain
       = js_or (ConvertedNodeType_at Sample.ConvertedNodeType
                  (Md.type (Mdast.heading 2 [Mdast.text "Method"])))
           (ConvertedNodeType_text Sample.ConvertedNodeType).
Proof.
  do 2 eexists.
  assert (Hrun : markdownToJson Sample.nanoid Sample.ConvertedNodeType
                   Fixture.report 1 0%nat = Returns _ _)
    by (vm_compute; reflexivity).
  destruct (proj1 (markdownToJson_parent_is_enclosing_heading Sample.nanoid
                     Sample.ConvertedNodeType Fixture.report 1 0%nat _ _
                     [Mdast.paragraph [Mdast.text "Intro"];
                      Mdast.heading 2 [Mdast.text "Scope"];
                      Mdast.heading 3 [Mdast.text "Detail"];
                      Mdast.thematicBreak]
                     (Mdast.heading 2 [Mdast.text "Method"])
                     [Mdast.paragraph
                        [Mdast.text "Steps"; Mdast.literal "inlineCode" "run"]]
                     ltac:(repeat constructor) eq_refl Hrun)
              [] (Mdast.heading 1 [Mdast.text "Report"]) eq_refl eq_refl
              ltac:(intros _; exists 2; split; [reflexivity | cbn; lia]))
    as (out1 & k1 & hmain & hsibs & mid & k2 & cmain & csibs & rest & H).
  exists out1, k1, hmain, hsibs, mid, k2, cmain, csibs, rest.
  split; [exact Hrun | exact H].
Defined.



Lemma processNode_returns_iff_wellFormed_witness :
  (forall n, inside n Fixture.broken ->
     inNodeProcessors (Md.type n) = has nodeProcessors_keys (Md.type n))
  /\ match processNode Sample.nanoid Sample.ConvertedNodeType Fixture.broken
             1 None 0%nat with
     | Returns _ _ => wellFormed Fixture.broken = true
     | Throws e =>
         wellFormed Fixture.broken = false
         /\ e = "TypeError: Cannot read properties of undefined"
     end.
Proof.
  apply (processNode_returns_iff_wellFormed Sample.nanoid
           Sample.ConvertedNodeType Fixture.broken 1 None 0%nat).
  reflexivity.
Defined.

Lemma markdownToJson_returns_iff_wellFormed_witness :
  (forall n, inside n Fixture.report ->
     inNodeProcessors (Md.type n) = has nodeProcessors_keys (Md.type n))
  /\ match markdownToJson Sample.nanoid Sample.ConvertedNodeType
             Fixture.report 1 0%nat with
     | Returns _ _ =>
         exists cs,
           Md.children Fixture.report = Some cs
           /\ forallb wellFormed cs = true
     | Throws e =>
         e = "TypeError: Cannot read properties of undefined"
         /\ (Md.children Fixture.report = None
             \/ exists cs,
                  Md.children Fixture.report = Some cs
                  /\ forallb wellFormed cs = false)
     end.
Proof.
  apply (markdownToJson_returns_iff_wellFormed Sample.nanoid
           Sample.ConvertedNodeType Fixture.report 1 0%nat).
  reflexivity.
Defined.
